(** * Quipper: the perf.data reader, its serializer and the parser's mapper

    A shallow embedding of the parts of [perf_reader.cc] and
    [perf_serializer.cc] that decide where a record's event ID lives, how
    records and the attribute table are validated while they are read, how
    the event list is sorted, and what the writer keeps of the feature
    bitmap; and a model of the parser's mapping table, written from the
    specification and checked against the expectations of
    [perf_parser_test.cc].

    Layout: Part I holds the definitions (one module per component), Part II
    the lemmas and theorems. *)

From Stdlib Require Import ZArith List String Ascii Bool Lia.
From Stdlib Require Import Sorting.Permutation Sorting.Sorted.
From stdpp Require Import base gmap strings.
Import ListNotations.
Local Open Scope Z_scope.

(* ===================================================================== *)
(** * Part I. Definitions                                                 *)
(* ===================================================================== *)

(** ** Machine integers

    [u16], [u32], [u64] and [size_t] values are integers in [Z]; where the
    source lets them wrap, the wrap-around is written with these. *)

Definition u16 (x : Z) : Z := x mod 2 ^ 16.
Definition u32 (x : Z) : Z := x mod 2 ^ 32.
Definition u64 (x : Z) : Z := x mod 2 ^ 64.
Definition UINT32_MAX : Z := 2 ^ 32 - 1.
Definition UINT64_MAX : Z := 2 ^ 64 - 1.

(** [x & mask] used as a C++ condition. *)
Definition has_bits (x mask : Z) : bool := negb (Z.land x mask =? 0).

(** [b ? 1 : 0], the increment of [if (cond) pos++]. *)
Definition incr_if (b : bool) : Z := if b then 1 else 0.

(* --------------------------------------------------------------------- *)
(** ** Results, state and bytes                                           *)
(* --------------------------------------------------------------------- *)

(** How a modelled C++ function can end without a result: a [CHECK] that
    aborts, a division by zero, an access past the end of a vector, or a
    loop of the model that used up its fuel. *)
Inductive crash : Type :=
| CheckFailed
| DivisionByZero
| OutOfBounds
| OutOfFuel.

(** The outcome of a [bool]-returning C++ function: [Done a] is
    [return true] (with the values it produced), [Failed] is
    [return false]. *)
Inductive res (A : Type) : Type :=
| Done (a : A)
| Failed
| Crashed (c : crash).
Arguments Done {A} a.
Arguments Failed {A}.
Arguments Crashed {A} c.

(** Computations over a state [S].  The state that a failing call leaves
    behind is kept: C++ does not roll back what was mutated before
    [return false]. *)
Definition M (S A : Type) : Type := S -> res A * S.

Definition ret {S A : Type} (a : A) : M S A := fun s => (Done a, s).
Definition failed {S A : Type} : M S A := fun s => (Failed, s).
Definition crashed {S A : Type} (c : crash) : M S A :=
  fun s => (Crashed c, s).
Definition bind {S A B : Type} (c : M S A) (k : A -> M S B) : M S B :=
  fun s =>
    match c s with
    | (Done a, s') => k a s'
    | (Failed, s') => (Failed, s')
    | (Crashed e, s') => (Crashed e, s')
    end.
Definition get {S : Type} : M S S := fun s => (Done s, s).
Definition modify {S : Type} (f : S -> S) : M S unit :=
  fun s => (Done tt, f s).

(** [if (!b) return false;] *)
Definition require {S : Type} (b : bool) : M S unit :=
  if b then ret tt else failed.
(** [CHECK(b)] *)
Definition CHECK {S : Type} (b : bool) : M S unit :=
  if b then ret tt else crashed CheckFailed.

(** [c] never ends in a division by zero. *)
Definition never_divides_by_zero {S A : Type} (c : M S A) : Prop :=
  forall s : S, fst (c s) <> Crashed DivisionByZero.

(** [c] does not end in an access past the end of a vector. *)
Definition never_out_of_bounds {S A : Type} (c : M S A) : Prop :=
  forall s : S, fst (c s) <> Crashed OutOfBounds.

(** The same for an outcome. *)
Definition in_bounds {A : Type} (r : res A) : Prop :=
  match r with
  | Crashed OutOfBounds => False
  | _ => True
  end.

(** The function came to a [return]: no [CHECK] aborted it and it read no
    vector past its end. *)
Definition returns_normally {A : Type} (r : res A) : Prop :=
  match r with
  | Crashed _ => False
  | _ => True
  end.

(** [c] leaves a state that satisfies [I] in a state that satisfies [I],
    however it ends. *)
Definition preserves {S A : Type} (I : S -> Prop) (c : M S A) : Prop :=
  forall s : S, I s -> I (snd (c s)).

Notation "'let*' x ':=' c 'in' k" := (bind c (fun x => k))
  (at level 10, x name, c at level 100, k at level 200).
Notation "'do*' c 'in' k" := (bind c (fun _ => k))
  (at level 10, c at level 100, k at level 200).

(** [c] run [n] times, stopping at the first call that does not succeed:
    [for (i = 0; i < n; i++) if (!c()) return false;] *)
Fixpoint repeatM {S : Type} (n : nat) (c : M S unit) : M S unit :=
  match n with
  | O => ret tt
  | S k => do* c in repeatM k c
  end.

(** An integer division as the hardware does it: undefined on a zero
    divisor. *)
Definition udiv {S : Type} (a b : Z) : M S Z :=
  if b =? 0 then crashed DivisionByZero else ret (a / b).

(** Bytes are integers taken modulo 256; multi-byte values are little
    endian, the byte order of the host the code is built for. *)
Fixpoint le_decode (bs : list Z) : Z :=
  match bs with
  | [] => 0
  | b :: rest => b mod 256 + 256 * le_decode rest
  end.

Fixpoint le_encode (n : nat) (x : Z) : list Z :=
  match n with
  | O => []
  | S k => x mod 256 :: le_encode k (x / 256)
  end.

(** [bswap_16/32/64] and [ByteSwap] on an [n]-byte value. *)
Definition bswap (n : nat) (x : Z) : Z := le_decode (rev (le_encode n x)).

(** [GetNumBits]: the number of bits set in a 64-bit word. *)
Definition GetNumBits (x : Z) : nat :=
  length (List.filter (fun i => Z.testbit x (Z.of_nat i)) (seq 0 64)).

(** Conversion of a [u64] to [int]. *)
Definition to_int (x : Z) : Z := (x + 2 ^ 31) mod 2 ^ 32 - 2 ^ 31.

(* --------------------------------------------------------------------- *)
(** ** kernel/perf_internals.h and the perf ABI                           *)
(* --------------------------------------------------------------------- *)

Module Kernel.

(** The bits of [perf_event_attr::sample_type] that the serializer tests
    (enum [perf_event_sample_format]).  They are declared in
    [kernel/perf_event.h], which is not among the sources, so the functions
    below take them as a parameter. *)
Record SampleFormat : Type := {
  PERF_SAMPLE_IP : Z;
  PERF_SAMPLE_TID : Z;
  PERF_SAMPLE_TIME : Z;
  PERF_SAMPLE_ADDR : Z;
  PERF_SAMPLE_ID : Z;
  PERF_SAMPLE_CPU : Z;
  PERF_SAMPLE_STREAM_ID : Z;
  PERF_SAMPLE_IDENTIFIER : Z
}.

(** The values of the Linux perf ABI: IP is bit 0, TID bit 1, TIME bit 2,
    ADDR bit 3, ID bit 6, CPU bit 7, STREAM_ID bit 9, IDENTIFIER bit 16. *)
Definition linux_sample_format : SampleFormat := {|
  PERF_SAMPLE_IP := 1;
  PERF_SAMPLE_TID := 2;
  PERF_SAMPLE_TIME := 4;
  PERF_SAMPLE_ADDR := 8;
  PERF_SAMPLE_ID := 64;
  PERF_SAMPLE_CPU := 128;
  PERF_SAMPLE_STREAM_ID := 512;
  PERF_SAMPLE_IDENTIFIER := 65536
|}.

(** [struct perf_event_header] *)
Record perf_event_header : Type := {
  h_type : Z;
  h_misc : Z;
  h_size : Z
}.
Definition sizeof_perf_event_header : Z := 8.

(** [struct perf_file_section] *)
Record perf_file_section : Type := {
  sec_offset : Z;
  sec_size : Z
}.
Definition sizeof_perf_file_section : Z := 16.

(** [struct perf_file_header]; [perf_pipe_file_header] is its first two
    fields, and the reader keeps both in one union.  [adds_features] is
    the 256-bit bitmap as four 64-bit words. *)
Record perf_file_header : Type := {
  hdr_magic : Z;
  hdr_size : Z;
  hdr_attr_size : Z;
  hdr_attrs : perf_file_section;
  hdr_data : perf_file_section;
  hdr_event_types : perf_file_section;
  hdr_adds_features : list Z
}.
Definition sizeof_perf_file_header : Z := 104.
Definition sizeof_perf_pipe_file_header : Z := 16.
Definition sizeof_adds_features : Z := 32.
Definition sizeof_perf_trace_event_type : Z := 72.
Definition MAX_EVENT_NAME : Z := 64.

(** "PERFILE2" little-endian *)
Definition kPerfMagic : Z := 0x32454c4946524550.

(** The feature bits of kernel/perf_internals.h. *)
Definition HEADER_RESERVED : Z := 0.
Definition HEADER_FIRST_FEATURE : Z := 1.
Definition HEADER_TRACING_DATA : Z := 1.
Definition HEADER_BUILD_ID : Z := 2.
Definition HEADER_HOSTNAME : Z := 3.
Definition HEADER_OSRELEASE : Z := 4.
Definition HEADER_VERSION : Z := 5.
Definition HEADER_ARCH : Z := 6.
Definition HEADER_NRCPUS : Z := 7.
Definition HEADER_CPUDESC : Z := 8.
Definition HEADER_CPUID : Z := 9.
Definition HEADER_TOTAL_MEM : Z := 10.
Definition HEADER_CMDLINE : Z := 11.
Definition HEADER_EVENT_DESC : Z := 12.
Definition HEADER_CPU_TOPOLOGY : Z := 13.
Definition HEADER_NUMA_TOPOLOGY : Z := 14.
Definition HEADER_BRANCH_STACK : Z := 15.
Definition HEADER_PMU_MAPPINGS : Z := 16.
Definition HEADER_GROUP_DESC : Z := 17.
Definition HEADER_LAST_FEATURE : Z := 18.

(** [kSupportedMetadataMask] *)
Definition kSupportedMetadataMask : Z :=
  fold_right Z.lor 0
    (map (Z.shiftl 1)
       [HEADER_TRACING_DATA; HEADER_BUILD_ID; HEADER_HOSTNAME;
        HEADER_OSRELEASE; HEADER_VERSION; HEADER_ARCH; HEADER_NRCPUS;
        HEADER_CPUDESC; HEADER_CPUID; HEADER_TOTAL_MEM; HEADER_CMDLINE;
        HEADER_EVENT_DESC; HEADER_CPU_TOPOLOGY; HEADER_NUMA_TOPOLOGY;
        HEADER_BRANCH_STACK; HEADER_PMU_MAPPINGS; HEADER_GROUP_DESC]).

(** The user record types of kernel/perf_internals.h. *)
Definition PERF_RECORD_HEADER_ATTR : Z := 64.
Definition PERF_RECORD_HEADER_EVENT_TYPE : Z := 65.
Definition PERF_RECORD_HEADER_TRACING_DATA : Z := 66.
Definition PERF_RECORD_HEADER_BUILD_ID : Z := 67.
Definition PERF_RECORD_FINISHED_ROUND : Z := 68.
Definition PERF_RECORD_ID_INDEX : Z := 69.
Definition PERF_RECORD_AUXTRACE_INFO : Z := 70.
Definition PERF_RECORD_AUXTRACE : Z := 71.
Definition PERF_RECORD_AUXTRACE_ERROR : Z := 72.
Definition PERF_RECORD_THREAD_MAP : Z := 73.
Definition PERF_RECORD_CPU_MAP : Z := 74.
Definition PERF_RECORD_STAT_CONFIG : Z := 75.
Definition PERF_RECORD_STAT : Z := 76.
Definition PERF_RECORD_STAT_ROUND : Z := 77.
Definition PERF_RECORD_EVENT_UPDATE : Z := 78.
Definition PERF_RECORD_TIME_CONV : Z := 79.
Definition PERF_RECORD_HEADER_FEATURE : Z := 80.

(** The kernel record types and [misc] bits, declared in
    [kernel/perf_event.h], which is not among the sources: a parameter of
    the functions that switch on them. *)
Record RecordABI : Type := {
  PERF_RECORD_MMAP : Z;
  PERF_RECORD_LOST : Z;
  PERF_RECORD_COMM : Z;
  PERF_RECORD_EXIT : Z;
  PERF_RECORD_THROTTLE : Z;
  PERF_RECORD_UNTHROTTLE : Z;
  PERF_RECORD_FORK : Z;
  PERF_RECORD_SAMPLE : Z;
  PERF_RECORD_MMAP2 : Z;
  PERF_RECORD_AUX : Z;
  PERF_RECORD_ITRACE_START : Z;
  PERF_RECORD_LOST_SAMPLES : Z;
  PERF_RECORD_SWITCH : Z;
  PERF_RECORD_SWITCH_CPU_WIDE : Z;
  PERF_RECORD_NAMESPACES : Z;
  PERF_RECORD_CGROUP : Z;
  PERF_RECORD_MISC_PROC_MAP_PARSE_TIMEOUT : Z
}.

(** The values of the Linux perf ABI. *)
Definition linux_records : RecordABI := {|
  PERF_RECORD_MMAP := 1;
  PERF_RECORD_LOST := 2;
  PERF_RECORD_COMM := 3;
  PERF_RECORD_EXIT := 4;
  PERF_RECORD_THROTTLE := 5;
  PERF_RECORD_UNTHROTTLE := 6;
  PERF_RECORD_FORK := 7;
  PERF_RECORD_SAMPLE := 9;
  PERF_RECORD_MMAP2 := 10;
  PERF_RECORD_AUX := 11;
  PERF_RECORD_ITRACE_START := 12;
  PERF_RECORD_LOST_SAMPLES := 13;
  PERF_RECORD_SWITCH := 14;
  PERF_RECORD_SWITCH_CPU_WIDE := 15;
  PERF_RECORD_NAMESPACES := 16;
  PERF_RECORD_CGROUP := 19;
  PERF_RECORD_MISC_PROC_MAP_PARSE_TIMEOUT := 4096
|}.

End Kernel.

(* --------------------------------------------------------------------- *)
(** ** perf_serializer.cc                                                 *)
(* --------------------------------------------------------------------- *)

Module Serializer.
Import Kernel.

(** The fields of [struct perf_event_attr] that the modelled code reads. *)
Record perf_event_attr : Type := {
  attr_type : Z;
  attr_config : Z;
  sample_type : Z;
  sample_id_all : bool;
  exclude_kernel : bool
}.

(** [PerfFileAttr]: an attribute and the IDs bound to it. *)
Record PerfFileAttr : Type := {
  attr : perf_event_attr;
  ids : list Z
}.

(** [enum EventIdPosition] of perf_serializer.h: two negative sentinels next
    to the positions, which are counts of u64 fields. *)
Definition Uninitialized : Z := -2.
Definition NotPresent : Z := -1.

(** [std::map<u64, std::unique_ptr<SampleInfoReader>>]: an association list
    kept in increasing key order, so that [begin()] is its head.  A reader
    is represented by the attribute it was built from. *)
Definition reader_map : Type := list (Z * perf_event_attr).

(** [map[id].reset(new SampleInfoReader(attr, ...))] *)
Fixpoint reader_map_set (id : Z) (a : perf_event_attr) (m : reader_map)
  : reader_map :=
  match m with
  | [] => [(id, a)]
  | (k, v) :: rest =>
      if id <? k then (id, a) :: (k, v) :: rest
      else if id =? k then (id, a) :: rest
      else (k, v) :: reader_map_set id a rest
  end.

Record PerfSerializer : Type := {
  sample_info_reader_map_ : reader_map;
  sample_event_id_pos_ : Z;
  other_event_id_pos_ : Z
}.

(** A serializer as its constructor leaves it. *)
Definition new_serializer : PerfSerializer := {|
  sample_info_reader_map_ := [];
  sample_event_id_pos_ := Uninitialized;
  other_event_id_pos_ := Uninitialized
|}.

(** The local [new_sample_event_id_pos] of [UpdateEventIdPositions], when
    the function reaches its consistency checks. *)
Definition new_sample_event_id_pos (F : SampleFormat) (st : Z) : Z :=
  if has_bits st (PERF_SAMPLE_IDENTIFIER F) then 0
  else if has_bits st (PERF_SAMPLE_ID F) then
    0 + incr_if (has_bits st (PERF_SAMPLE_IP F))
      + incr_if (has_bits st (PERF_SAMPLE_TID F))
      + incr_if (has_bits st (PERF_SAMPLE_TIME F))
      + incr_if (has_bits st (PERF_SAMPLE_ADDR F))
  else NotPresent.

(** The local [new_other_event_id_pos] at the same point. *)
Definition new_other_event_id_pos (F : SampleFormat) (st : Z) : Z :=
  if has_bits st (PERF_SAMPLE_IDENTIFIER F) then 1
  else if has_bits st (PERF_SAMPLE_ID F) then
    1 + incr_if (has_bits st (PERF_SAMPLE_CPU F))
      + incr_if (has_bits st (PERF_SAMPLE_STREAM_ID F))
  else NotPresent.

(** [PerfSerializer::UpdateEventIdPositions]: the result and the serializer
    afterwards.  A mismatch on the sample position returns before the other
    position is looked at; a mismatch on the other position returns after
    the sample position may have been stored. *)
Definition UpdateEventIdPositions (F : SampleFormat) (s : PerfSerializer)
    (a : perf_event_attr) : bool * PerfSerializer :=
  let new_sample := new_sample_event_id_pos F (sample_type a) in
  let new_other := new_other_event_id_pos F (sample_type a) in
  let after_sample : option PerfSerializer :=
    if sample_event_id_pos_ s =? Uninitialized then
      Some {| sample_info_reader_map_ := sample_info_reader_map_ s;
              sample_event_id_pos_ := new_sample;
              other_event_id_pos_ := other_event_id_pos_ s |}
    else if negb (new_sample =? sample_event_id_pos_ s) then None
    else Some s in
  match after_sample with
  | None => (false, s)
  | Some s1 =>
      if other_event_id_pos_ s1 =? Uninitialized then
        (true, {| sample_info_reader_map_ := sample_info_reader_map_ s1;
                  sample_event_id_pos_ := sample_event_id_pos_ s1;
                  other_event_id_pos_ := new_other |})
      else if negb (new_other =? other_event_id_pos_ s1) then (false, s1)
      else (true, s1)
  end.

(** [PerfSerializer::CreateSampleInfoReader]: one reader per ID of the
    attribute, or one under ID 0 when it has none, then the positions. *)
Definition CreateSampleInfoReader (F : SampleFormat) (s : PerfSerializer)
    (fa : PerfFileAttr) : bool * PerfSerializer :=
  let keys := match ids fa with [] => [0] | _ => ids fa end in
  let m := fold_left (fun m id => reader_map_set id (attr fa) m) keys
                     (sample_info_reader_map_ s) in
  UpdateEventIdPositions F
    {| sample_info_reader_map_ := m;
       sample_event_id_pos_ := sample_event_id_pos_ s;
       other_event_id_pos_ := other_event_id_pos_ s |}
    (attr fa).

(** [case A: case B: ... return true;] over a record type. *)
Definition one_of (ty : Z) (cases : list Z) : bool :=
  existsb (Z.eqb ty) cases.

(** [PerfSerializer::IsSupportedKernelEventType] *)
Definition IsSupportedKernelEventType (K : RecordABI) (ty : Z) : bool :=
  one_of ty
    [PERF_RECORD_MMAP K; PERF_RECORD_LOST K; PERF_RECORD_COMM K;
     PERF_RECORD_EXIT K; PERF_RECORD_THROTTLE K; PERF_RECORD_UNTHROTTLE K;
     PERF_RECORD_FORK K; PERF_RECORD_SAMPLE K; PERF_RECORD_MMAP2 K;
     PERF_RECORD_AUX K; PERF_RECORD_ITRACE_START K;
     PERF_RECORD_LOST_SAMPLES K; PERF_RECORD_SWITCH K;
     PERF_RECORD_SWITCH_CPU_WIDE K; PERF_RECORD_NAMESPACES K;
     PERF_RECORD_CGROUP K].

(** [PerfSerializer::IsSupportedUserEventType] *)
Definition IsSupportedUserEventType (ty : Z) : bool :=
  one_of ty
    [PERF_RECORD_FINISHED_ROUND; PERF_RECORD_AUXTRACE_INFO;
     PERF_RECORD_AUXTRACE; PERF_RECORD_AUXTRACE_ERROR;
     PERF_RECORD_THREAD_MAP; PERF_RECORD_STAT_CONFIG; PERF_RECORD_STAT;
     PERF_RECORD_STAT_ROUND; PERF_RECORD_TIME_CONV].

(** [PerfSerializer::IsSupportedHeaderEventType] *)
Definition IsSupportedHeaderEventType (ty : Z) : bool :=
  one_of ty
    [PERF_RECORD_HEADER_ATTR; PERF_RECORD_HEADER_EVENT_TYPE;
     PERF_RECORD_HEADER_TRACING_DATA; PERF_RECORD_HEADER_BUILD_ID;
     PERF_RECORD_HEADER_FEATURE].

(** [PerfSerializer::ContainsSampleInfo].  [IsSupportedEventType] is
    [SampleInfoReader::IsSupportedEventType] (sample_info_reader.cc is not
    among the sources), taken as a parameter.  Other records than SAMPLE
    carry a trailer when the first reader's attribute has [sample_id_all]. *)
Definition ContainsSampleInfo (K : RecordABI)
    (IsSupportedEventType : Z -> bool) (s : PerfSerializer) (ty : Z) : bool :=
  if ty =? PERF_RECORD_SAMPLE K then true
  else if negb (IsSupportedEventType ty) then false
  else match sample_info_reader_map_ s with
       | [] => false
       | (_, a) :: _ => sample_id_all a
       end.

(** The number of the listed [sample_type] bits that are present. *)
Definition count_present (st : Z) (masks : list Z) : Z :=
  fold_right (fun m n => incr_if (has_bits st m) + n) 0 masks.

(** The sample-record position as the specification words it for the
    [SAMPLE_ID] case: [1 + count(IP, TID, TIME, ADDR present)]. *)
Definition spec_sample_id_pos (F : SampleFormat) (st : Z) : Z :=
  1 + count_present st
        [PERF_SAMPLE_IP F; PERF_SAMPLE_TID F; PERF_SAMPLE_TIME F;
         PERF_SAMPLE_ADDR F].

(** [std::map::find] on the reader map. *)
Definition reader_map_find (id : Z) (m : reader_map) : option perf_event_attr :=
  match List.find (fun kv => fst kv =? id) m with
  | Some kv => Some (snd kv)
  | None => None
  end.

(** [PerfSerializer::GetSampleInfoReaderForId]: [None] is [nullptr]; ID 0
    stands for "no ID" and gets the reader at [begin()]. *)
Definition GetSampleInfoReaderForId (s : PerfSerializer) (id : Z)
  : option perf_event_attr :=
  if negb (id =? 0) then reader_map_find id (sample_info_reader_map_ s)
  else match sample_info_reader_map_ s with
       | [] => None
       | (_, a) :: _ => Some a
       end.

(** What [UpdateEventIdPositions] can store in the two positions: a
    sentinel, or an index from 0 for SAMPLE records and a distance from
    the end, from 1, for the others. *)
Definition positions_ok (s : PerfSerializer) : Prop :=
  (sample_event_id_pos_ s = Uninitialized
   \/ sample_event_id_pos_ s = NotPresent
   \/ 0 <= sample_event_id_pos_ s)
  /\ (other_event_id_pos_ s = Uninitialized
      \/ other_event_id_pos_ s = NotPresent
      \/ 1 <= other_event_id_pos_ s).

(** The serializer after [CreateSampleInfoReader] was called for each of
    [attrs] in turn, whatever the calls returned. *)
Definition after_attrs (F : SampleFormat) (attrs : list PerfFileAttr)
  : PerfSerializer :=
  fold_left (fun s fa => snd (CreateSampleInfoReader F s fa)) attrs
    new_serializer.

(** An attribute for the examples: it samples IP and TID, with the given
    [sample_id_all] and IDs. *)
Definition example_file_attr (id_all : bool) (l : list Z) : PerfFileAttr :=
  {| attr := {| attr_type := 0; attr_config := 7; sample_type := 3;
                sample_id_all := id_all; exclude_kernel := false |};
     ids := l |}.

End Serializer.

(* --------------------------------------------------------------------- *)
(** ** perf_reader.cc: data model                                         *)
(* --------------------------------------------------------------------- *)

Module Reader.
Import Kernel Serializer.

(** [event_t] as the reader holds it while a record is read: the header
    and the bytes that follow it. *)
Record event_t : Type := {
  e_header : perf_event_header;
  e_data : list Z
}.

(** [PerfDataProto_PerfEvent]: the header, the timestamp taken from the
    sample info (0 when the record has none) and the rest of the message. *)
Record PerfEvent : Type := {
  ev_header : perf_event_header;
  ev_timestamp : Z;
  ev_fields : list Z
}.

(** [PerfDataProto_PerfEventType] *)
Record PerfEventType : Type := {
  et_id : Z;
  et_name : list Z
}.

(** The messages of the feature sections, with the fields that the size
    functions of the writer look at.  Strings are their bytes. *)
Record PerfBuildID : Type := {
  bid_misc : Z;
  bid_pid : Z;
  bid_build_id_hash : list Z;
  bid_filename : list Z
}.

Record StringMetadata : Type := {
  hostname : option (list Z);
  kernel_version : option (list Z);
  perf_version : option (list Z);
  architecture : option (list Z);
  cpu_description : option (list Z);
  cpu_id : option (list Z);
  perf_command_line_token : list (list Z)
}.

Record PerfUintMetadata : Type := {
  um_type : Z;
  um_data : list Z
}.

Record PerfCPUTopologyMetadata : Type := {
  core_siblings : list (list Z);
  thread_siblings : list (list Z);
  available_cpus : list (Z * Z)
}.

Record PerfNodeTopologyMetadata : Type := {
  node_id : Z;
  total_memory : Z;
  free_memory : Z;
  cpu_list : list Z
}.

Record PerfPMUMappingsMetadata : Type := {
  pmu_type : Z;
  pmu_name : list Z
}.

Record PerfGroupDescMetadata : Type := {
  group_name : list Z;
  leader_idx : Z;
  num_members : Z
}.

Record Metadata : Type := {
  tracing_data : list Z;
  build_ids : list PerfBuildID;
  string_metadata : StringMetadata;
  uint32_metadata : list PerfUintMetadata;
  uint64_metadata : list PerfUintMetadata;
  cpu_topology : PerfCPUTopologyMetadata;
  numa_topology : list PerfNodeTopologyMetadata;
  pmu_mappings : list PerfPMUMappingsMetadata;
  group_desc : list PerfGroupDescMetadata
}.

(** [PerfDataProto]: the parsed model.  [metadata_mask] is word 0 of the
    repeated field, the only one the reader uses; [metadata] groups the
    messages of the feature sections. *)
Record PerfDataProto : Type := {
  file_attrs : list PerfFileAttr;
  events : list PerfEvent;
  event_types : list PerfEventType;
  metadata_mask : Z;
  metadata : Metadata
}.

Record PerfReader : Type := {
  proto_ : PerfDataProto;
  header_ : perf_file_header;
  serializer_ : PerfSerializer;
  is_cross_endian_ : bool;
  file_attrs_seen_ : gset Z;
  file_attr_configs_seen_ : gset Z;
  filenames_with_build_id_ : gset string;
  event_types_to_skip_when_serializing_ : gset Z
}.

Definition empty_section : perf_file_section :=
  {| sec_offset := 0; sec_size := 0 |}.

Definition empty_metadata : Metadata := {|
  tracing_data := [];
  build_ids := [];
  string_metadata :=
    {| hostname := None; kernel_version := None; perf_version := None;
       architecture := None; cpu_description := None; cpu_id := None;
       perf_command_line_token := [] |};
  uint32_metadata := [];
  uint64_metadata := [];
  cpu_topology :=
    {| core_siblings := []; thread_siblings := []; available_cpus := [] |};
  numa_topology := [];
  pmu_mappings := [];
  group_desc := []
|}.

Definition empty_proto : PerfDataProto := {|
  file_attrs := [];
  events := [];
  event_types := [];
  metadata_mask := 0;
  metadata := empty_metadata
|}.

(** [PerfReader::PerfReader()]: an empty model whose metadata mask is 0. *)
Definition new_reader : PerfReader := {|
  proto_ := empty_proto;
  header_ := {| hdr_magic := 0; hdr_size := 0; hdr_attr_size := 0;
                hdr_attrs := empty_section; hdr_data := empty_section;
                hdr_event_types := empty_section;
                hdr_adds_features := [0; 0; 0; 0] |};
  serializer_ := new_serializer;
  is_cross_endian_ := false;
  file_attrs_seen_ := ∅;
  file_attr_configs_seen_ := ∅;
  filenames_with_build_id_ := ∅;
  event_types_to_skip_when_serializing_ := ∅
|}.

(** Modelled from the spec: the [DataReader] / [BufferReader] classes
    (data_reader.h, buffer_reader.h are not among the sources), after
    section 4.1: a cursor over a contiguous buffer with a cross-endian
    flag; reads beyond [size()] fail; [SeekSet] is absolute. *)
Record DataReader : Type := {
  buffer : list Z;
  offset : Z;
  is_cross_endian : bool
}.

(** [BufferReader buffer(data, size)] *)
Definition BufferReader (bytes : list Z) : DataReader :=
  {| buffer := bytes; offset := 0; is_cross_endian := false |}.

(** The state the reading functions work on: [*this] and [*data]. *)
Record State : Type := {
  this : PerfReader;
  data : DataReader
}.

Definition set_this (f : PerfReader -> PerfReader) (s : State) : State :=
  {| this := f (this s); data := data s |}.
Definition set_data (f : DataReader -> DataReader) (s : State) : State :=
  {| this := this s; data := f (data s) |}.

Definition set_proto (f : PerfDataProto -> PerfDataProto) (r : PerfReader)
  : PerfReader :=
  {| proto_ := f (proto_ r); header_ := header_ r;
     serializer_ := serializer_ r; is_cross_endian_ := is_cross_endian_ r;
     file_attrs_seen_ := file_attrs_seen_ r;
     file_attr_configs_seen_ := file_attr_configs_seen_ r;
     filenames_with_build_id_ := filenames_with_build_id_ r;
     event_types_to_skip_when_serializing_ :=
       event_types_to_skip_when_serializing_ r |}.

Definition set_header (f : perf_file_header -> perf_file_header)
    (r : PerfReader) : PerfReader :=
  {| proto_ := proto_ r; header_ := f (header_ r);
     serializer_ := serializer_ r; is_cross_endian_ := is_cross_endian_ r;
     file_attrs_seen_ := file_attrs_seen_ r;
     file_attr_configs_seen_ := file_attr_configs_seen_ r;
     filenames_with_build_id_ := filenames_with_build_id_ r;
     event_types_to_skip_when_serializing_ :=
       event_types_to_skip_when_serializing_ r |}.

Definition set_serializer (sz : PerfSerializer) (r : PerfReader)
  : PerfReader :=
  {| proto_ := proto_ r; header_ := header_ r;
     serializer_ := sz; is_cross_endian_ := is_cross_endian_ r;
     file_attrs_seen_ := file_attrs_seen_ r;
     file_attr_configs_seen_ := file_attr_configs_seen_ r;
     filenames_with_build_id_ := filenames_with_build_id_ r;
     event_types_to_skip_when_serializing_ :=
       event_types_to_skip_when_serializing_ r |}.

Definition set_is_cross_endian_ (b : bool) (r : PerfReader) : PerfReader :=
  {| proto_ := proto_ r; header_ := header_ r;
     serializer_ := serializer_ r; is_cross_endian_ := b;
     file_attrs_seen_ := file_attrs_seen_ r;
     file_attr_configs_seen_ := file_attr_configs_seen_ r;
     filenames_with_build_id_ := filenames_with_build_id_ r;
     event_types_to_skip_when_serializing_ :=
       event_types_to_skip_when_serializing_ r |}.

Definition set_seen (ids configs : gset Z) (r : PerfReader) : PerfReader :=
  {| proto_ := proto_ r; header_ := header_ r;
     serializer_ := serializer_ r; is_cross_endian_ := is_cross_endian_ r;
     file_attrs_seen_ := ids;
     file_attr_configs_seen_ := configs;
     filenames_with_build_id_ := filenames_with_build_id_ r;
     event_types_to_skip_when_serializing_ :=
       event_types_to_skip_when_serializing_ r |}.

Definition set_metadata_mask (m : Z) (p : PerfDataProto) : PerfDataProto :=
  {| file_attrs := file_attrs p; events := events p;
     event_types := event_types p; metadata_mask := m;
     metadata := metadata p |}.
Definition set_file_attrs (l : list PerfFileAttr) (p : PerfDataProto)
  : PerfDataProto :=
  {| file_attrs := l; events := events p;
     event_types := event_types p; metadata_mask := metadata_mask p;
     metadata := metadata p |}.
Definition set_events (l : list PerfEvent) (p : PerfDataProto)
  : PerfDataProto :=
  {| file_attrs := file_attrs p; events := l;
     event_types := event_types p; metadata_mask := metadata_mask p;
     metadata := metadata p |}.
Definition set_event_types (l : list PerfEventType) (p : PerfDataProto)
  : PerfDataProto :=
  {| file_attrs := file_attrs p; events := events p;
     event_types := l; metadata_mask := metadata_mask p;
     metadata := metadata p |}.

(** [get_metadata_mask_bit] and [set_metadata_mask_bit] of perf_reader.h *)
Definition get_metadata_mask_bit (r : PerfReader) (bit : Z) : bool :=
  Z.testbit (metadata_mask (proto_ r)) bit.
Definition set_metadata_mask_bit (bit : Z) (r : PerfReader) : PerfReader :=
  set_proto (fun p =>
    set_metadata_mask (Z.lor (metadata_mask p) (Z.shiftl 1 bit)) p) r.

(** *** The cursor operations *)

Definition data_size (d : DataReader) : Z := Z.of_nat (length (buffer d)).
Definition Tell (d : DataReader) : Z := offset d.

Definition SeekSet (off : Z) : M State unit :=
  fun s =>
    let d := data s in
    if (0 <=? off) && (off <=? data_size d) then
      (Done tt, set_data (fun _ => {| buffer := buffer d; offset := off;
                                      is_cross_endian := is_cross_endian d |})
                  s)
    else (Failed, s).

(** [ReadData] and [ReadDataValue]: [n] bytes at the cursor, or failure
    when fewer are left. *)
Definition ReadData (n : Z) : M State (list Z) :=
  fun s =>
    let d := data s in
    if (0 <=? n) && (offset d + n <=? data_size d) then
      (Done (take (Z.to_nat n) (drop (Z.to_nat (offset d)) (buffer d))),
       set_data (fun _ => {| buffer := buffer d; offset := offset d + n;
                             is_cross_endian := is_cross_endian d |}) s)
    else (Failed, s).

(** [ReadUint32], [ReadUint64]: the value, byte-swapped when the data is
    cross-endian. *)
Definition ReadUint (n : nat) : M State Z :=
  let* bs := ReadData (Z.of_nat n) in
  let* s := get in
  ret (if is_cross_endian (data s) then bswap n (le_decode bs)
       else le_decode bs).
Definition ReadUint32 : M State Z := ReadUint 4.
Definition ReadUint64 : M State Z := ReadUint 8.

(** [ReadString(size, &str)]: [size] bytes, of which the string is the
    part before the first NUL. *)
Fixpoint until_nul (bs : list Z) : list Z :=
  match bs with
  | [] => []
  | b :: rest => if b mod 256 =? 0 then [] else b :: until_nul rest
  end.
Definition ReadString (n : Z) : M State (list Z) :=
  let* bs := ReadData n in ret (until_nul bs).

(* --------------------------------------------------------------------- *)
(** ** perf_reader.cc: reading                                            *)
(* --------------------------------------------------------------------- *)

(** What the reading functions use of code that is not among the sources:
    the kernel ABI constants, the layout of [perf_event_attr], the helpers
    of perf_data_utils.cc and sample_info_reader.cc, and, as whole steps,
    the parts of the reader that are not modelled in detail. *)
Record Env : Type := {
  sample_format : SampleFormat;
  records : RecordABI;
  (** [sizeof(perf_event_attr)] *)
  sizeof_perf_event_attr : Z;
  (** the attribute held by the bytes [ReadEventAttr] gathered, given the
      cross-endian flag, [type], [size] and the bytes after them *)
  decode_perf_event_attr : bool -> Z -> Z -> list Z -> perf_event_attr;
  (** [PerfSerializer::SampleInfoReaderAvailable] (perf_serializer.h) *)
  SampleInfoReaderAvailable : PerfSerializer -> bool;
  (** [SampleInfoReader::IsSupportedEventType] *)
  IsSupportedEventType : Z -> bool;
  (** [GetEventDataFixedPayloadSize(type, &size)]: [None] is [false] *)
  GetEventDataFixedPayloadSize : Z -> option Z;
  (** [GetEventDataVariablePayloadSize(event, remaining, &size)] *)
  GetEventDataVariablePayloadSize : event_t -> Z -> option Z;
  (** what the two byte-swapping functions do to the bytes of an event *)
  swap_fixed_payload : event_t -> event_t;
  swap_variable_payload : event_t -> event_t;
  (** the rest of [ReadNonHeaderEventDataWithoutHeader] after its size
      checks (the MMAP special cases, the serialization into the model,
      the trace data of AUXTRACE), given the event and [*read_size];
      its result is the final [*read_size] *)
  StoreEvent : event_t -> Z -> M State Z;
  (** the readers of the supported feature sections, by type and size *)
  ReadSupportedMetadata : Z -> Z -> M State unit;
  (** [PerfReader::ReadPipedData] *)
  ReadPipedData : M State unit
}.

(** [ReadPerfEventHeader] *)
Definition ReadPerfEventHeader : M State perf_event_header :=
  let* bs := ReadData sizeof_perf_event_header in
  let* s := get in
  let sw := fun (n : nat) (v : Z) =>
    if is_cross_endian (data s) then bswap n v else v in
  let header :=
    {| h_type := sw 4%nat (le_decode (take 4 bs));
       h_misc := sw 2%nat (le_decode (take 2 (drop 4 bs)));
       h_size := sw 2%nat (le_decode (take 2 (drop 6 bs))) |} in
  do* require (negb (h_size header <? sizeof_perf_event_header)) in
  let remaining_size := data_size (data s) - Tell (data s) in
  do* require (negb (h_size header - sizeof_perf_event_header
                     >? remaining_size)) in
  ret header.

(** [ReadPerfFileSection] *)
Definition ReadPerfFileSection : M State perf_file_section :=
  let* bs := ReadData sizeof_perf_file_section in
  let* s := get in
  let sw := fun (v : Z) =>
    if is_cross_endian (data s) then bswap 8 v else v in
  let section :=
    {| sec_offset := sw (le_decode (take 8 bs));
       sec_size := sw (le_decode (take 8 (drop 8 bs))) |} in
  do* require (negb (sec_offset section >? data_size (data s))) in
  let remaining_size := data_size (data s) - sec_offset section in
  do* require (negb (sec_size section >? remaining_size)) in
  ret section.

(** [CompareEventTimes] *)
Definition CompareEventTimes (e1 e2 : PerfEvent) : bool :=
  ev_timestamp e1 <? ev_timestamp e2.

(** [std::stable_sort(first, last, comp)]: the sorted permutation in which
    elements that [comp] does not order keep their relative order.  An
    element goes before the first element of the sorted tail that is not
    smaller than it. *)
Fixpoint stable_insert {A : Type} (comp : A -> A -> bool) (x : A)
    (l : list A) : list A :=
  match l with
  | [] => [x]
  | y :: rest =>
      if comp y x then y :: stable_insert comp x rest else x :: y :: rest
  end.

Definition stable_sort {A : Type} (comp : A -> A -> bool) (l : list A)
  : list A :=
  fold_right (stable_insert comp) [] l.

(** [PerfReader::MaybeSortEventsByTime] *)
Definition MaybeSortEventsByTime (F : SampleFormat) (r : PerfReader)
  : PerfReader :=
  if forallb (fun fa => has_bits (sample_type (attr fa)) (PERF_SAMPLE_TIME F))
       (file_attrs (proto_ r))
  then set_proto (fun p => set_events (stable_sort CompareEventTimes
                                         (events p)) p) r
  else r.

(** [IsProcMapTimeoutMmap] *)
Definition IsProcMapTimeoutMmap (K : RecordABI) (header : perf_event_header)
  : bool :=
  ((h_type header =? PERF_RECORD_MMAP K)
   || (h_type header =? PERF_RECORD_MMAP2 K))
  && has_bits (h_misc header) (PERF_RECORD_MISC_PROC_MAP_PARSE_TIMEOUT K).

(** The result of [ByteSwapEventDataFixedPayloadFields]: [true] for the
    types its switch lists. *)
Definition ByteSwapEventDataFixedPayloadFields_ok (K : RecordABI) (ty : Z)
  : bool :=
  one_of ty
    [PERF_RECORD_MMAP K; PERF_RECORD_MMAP2 K; PERF_RECORD_FORK K;
     PERF_RECORD_EXIT K; PERF_RECORD_COMM K; PERF_RECORD_LOST K;
     PERF_RECORD_THROTTLE K; PERF_RECORD_UNTHROTTLE K; PERF_RECORD_AUX K;
     PERF_RECORD_ITRACE_START K; PERF_RECORD_LOST_SAMPLES K;
     PERF_RECORD_SWITCH_CPU_WIDE K; PERF_RECORD_NAMESPACES K;
     PERF_RECORD_AUXTRACE_INFO; PERF_RECORD_AUXTRACE;
     PERF_RECORD_THREAD_MAP; PERF_RECORD_STAT_CONFIG; PERF_RECORD_STAT;
     PERF_RECORD_STAT_ROUND; PERF_RECORD_AUXTRACE_ERROR;
     PERF_RECORD_TIME_CONV; PERF_RECORD_SAMPLE K; PERF_RECORD_SWITCH K;
     PERF_RECORD_FINISHED_ROUND].

(** The result of [ByteSwapEventDataVariablePayloadFields]. *)
Definition ByteSwapEventDataVariablePayloadFields_ok (K : RecordABI)
    (ty : Z) : bool :=
  one_of ty
    [PERF_RECORD_NAMESPACES K; PERF_RECORD_AUXTRACE_INFO;
     PERF_RECORD_THREAD_MAP; PERF_RECORD_STAT_CONFIG; PERF_RECORD_CGROUP K;
     PERF_RECORD_TIME_CONV; PERF_RECORD_MMAP K; PERF_RECORD_MMAP2 K;
     PERF_RECORD_FORK K; PERF_RECORD_EXIT K; PERF_RECORD_COMM K;
     PERF_RECORD_LOST K; PERF_RECORD_THROTTLE K; PERF_RECORD_UNTHROTTLE K;
     PERF_RECORD_SAMPLE K; PERF_RECORD_AUX K; PERF_RECORD_ITRACE_START K;
     PERF_RECORD_LOST_SAMPLES K; PERF_RECORD_SWITCH K;
     PERF_RECORD_SWITCH_CPU_WIDE K; PERF_RECORD_FINISHED_ROUND;
     PERF_RECORD_AUXTRACE; PERF_RECORD_STAT; PERF_RECORD_STAT_ROUND;
     PERF_RECORD_AUXTRACE_ERROR].

(** [data->SeekSet(data->Tell() + n)] *)
Definition skip_forward (n : Z) : M State unit :=
  let* s := get in SeekSet (u64 (Tell (data s) + n)).

(** The two ways in which a record is passed over: the cursor moves past
    it and [*read_size] is its payload size. *)
Definition skip_record (header : perf_event_header) : M State Z :=
  let skip_or_read_size := u64 (h_size header - sizeof_perf_event_header) in
  (do* skip_forward skip_or_read_size in ret skip_or_read_size).

(** [PerfReader::ReadNonHeaderEventDataWithoutHeader]; the result is
    [*read_size]. *)
Definition ReadNonHeaderEventDataWithoutHeader (E : Env)
    (header : perf_event_header) : M State Z :=
  let K := records E in
  let skip_or_read_size := u64 (h_size header - sizeof_perf_event_header) in
  if negb (IsSupportedKernelEventType K (h_type header))
     && negb (IsSupportedUserEventType (h_type header))
  then skip_record header
  else
    let* s := get in
    do* require (SampleInfoReaderAvailable E (serializer_ (this s))) in
    match GetEventDataFixedPayloadSize E (h_type header) with
    | None => failed
    | Some fixed_payload_size =>
        do* require (negb (h_size header <? fixed_payload_size)) in
        if IsProcMapTimeoutMmap K header
        then skip_record header
        else
          let* bytes := ReadData skip_or_read_size in
          let event := {| e_header := header; e_data := bytes |} in
          let cross := is_cross_endian (data s) in
          do* require (negb cross
                       || ByteSwapEventDataFixedPayloadFields_ok K
                            (h_type header)) in
          let event := if cross then swap_fixed_payload E event else event in
          match GetEventDataVariablePayloadSize E event
                  (u64 (h_size header - fixed_payload_size)) with
          | None => failed
          | Some variable_payload_size =>
              do* require (negb cross
                           || ByteSwapEventDataVariablePayloadFields_ok K
                                (h_type header)) in
              let event :=
                if cross then swap_variable_payload E event else event in
              let expected_event_data_size :=
                fixed_payload_size + variable_payload_size in
              do* require
                    (negb (negb (ContainsSampleInfo K
                                   (IsSupportedEventType E)
                                   (serializer_ (this s)) (h_type header))
                           && negb (h_size header
                                    =? expected_event_data_size))) in
              StoreEvent E event skip_or_read_size
          end
    end.

(** [PerfReader::ReadDataSection].  Every turn of the loop reads a record
    header, so the loop of the source ends; the model's loop counts its
    turns down from [fuel]. *)
Fixpoint ReadDataSection_loop (E : Env) (fuel : nat)
    (data_remaining_bytes : Z) : M State unit :=
  if data_remaining_bytes =? 0 then ret tt
  else match fuel with
       | O => crashed OutOfFuel
       | S k =>
           let* header := ReadPerfEventHeader in
           let* read_size := ReadNonHeaderEventDataWithoutHeader E header in
           ReadDataSection_loop E k
             (u64 (data_remaining_bytes
                   - (sizeof_perf_event_header + read_size)))
       end.

Definition ReadDataSection (E : Env) : M State unit :=
  let* s := get in
  let h := header_ (this s) in
  do* SeekSet (sec_offset (hdr_data h)) in
  ReadDataSection_loop E (S (length (buffer (data s))))
    (sec_size (hdr_data h)).

(** The [i]-th 64-bit word of a byte array, as the host reads it. *)
Definition word_at (i : nat) (bs : list Z) : Z :=
  le_decode (take 8 (drop (8 * i) bs)).

(** [ByteSwap] applied to each 32-bit half of a 64-bit word in place. *)
Definition bswap_halves (w : Z) : Z :=
  bswap 4 (w mod 2 ^ 32) + 2 ^ 32 * bswap 4 (w / 2 ^ 32 mod 2 ^ 32).

Definition with_magic_size (magic size : Z) (h : perf_file_header)
  : perf_file_header :=
  {| hdr_magic := magic; hdr_size := size;
     hdr_attr_size := hdr_attr_size h; hdr_attrs := hdr_attrs h;
     hdr_data := hdr_data h; hdr_event_types := hdr_event_types h;
     hdr_adds_features := hdr_adds_features h |}.

(** [PerfReader::ReadHeader].  The source reads [attr_size] and the three
    sections straight into [header_]; here they are stored together when
    the function reaches its end, so the header of a reader whose
    [ReadHeader] failed half-way holds fewer of the values read than in
    the source. *)
Definition ReadHeader : M State unit :=
  let* s := get in
  do* CHECK (Tell (data s) =? 0) in
  let* magic := ReadUint64 in
  do* modify (set_this (set_header (fun h =>
                with_magic_size magic (hdr_size h) h))) in
  do* require ((magic =? kPerfMagic) || (magic =? bswap 8 kPerfMagic)) in
  let cross := negb (magic =? kPerfMagic) in
  do* modify (fun s =>
        set_data (fun d => {| buffer := buffer d; offset := offset d;
                              is_cross_endian := cross |})
          (set_this (set_is_cross_endian_ cross) s)) in
  let* size := ReadUint64 in
  do* modify (set_this (set_header (with_magic_size magic size))) in
  let* s := get in
  do* CHECK (Tell (data s) =? sizeof_perf_pipe_file_header) in
  if size =? sizeof_perf_pipe_file_header then ret tt
  else
    let* attr_size := ReadUint64 in
    let* attrs := ReadPerfFileSection in
    let* data_section := ReadPerfFileSection in
    let* event_types_section := ReadPerfFileSection in
    let* s := get in
    do* CHECK (Tell (data s)
               =? sizeof_perf_file_header - sizeof_adds_features) in
    let* fb := ReadData sizeof_adds_features in
    let words := [word_at 0 fb; word_at 1 fb; word_at 2 fb; word_at 3 fb] in
    let features64 := bswap 8 (word_at 0 fb) in
    let adds_features :=
      if cross then
        if has_bits features64 (Z.shiftl 1 HEADER_HOSTNAME)
        then map (bswap 8) words
        else map bswap_halves words
      else words in
    modify (set_this (fun r =>
      set_proto (set_metadata_mask (word_at 0 fb))
        (set_header (fun _ =>
           {| hdr_magic := magic; hdr_size := size;
              hdr_attr_size := attr_size; hdr_attrs := attrs;
              hdr_data := data_section;
              hdr_event_types := event_types_section;
              hdr_adds_features := adds_features |}) r))).

(** [PerfReader::ReadUniqueIDs] *)
Fixpoint ReadUniqueIDs (num_ids : nat) : M State (list Z) :=
  match num_ids with
  | O => ret []
  | S k =>
      let* id := ReadUint64 in
      let* rest := ReadUniqueIDs k in
      ret (id :: rest)
  end.

(** [PerfReader::ReadEventAttr] *)
Definition ReadEventAttr (E : Env) : M State perf_event_attr :=
  let* type := ReadUint32 in
  let* size := ReadUint32 in
  let attr_offset := 8 in
  let attr_readable_size := Z.min size (sizeof_perf_event_attr E) in
  let* rest := ReadData (u64 (attr_readable_size - attr_offset)) in
  do* skip_forward (size - attr_readable_size) in
  let* s := get in
  ret (decode_perf_event_attr E (is_cross_endian (data s)) type size rest).

(** [PerfReader::AddPerfFileAttr] *)
Definition AddPerfFileAttr (E : Env) (fa : PerfFileAttr) : M State unit :=
  do* modify (set_this (set_proto (fun p =>
                set_file_attrs (file_attrs p ++ [fa]) p))) in
  let* s := get in
  let created :=
    CreateSampleInfoReader (sample_format E) (serializer_ (this s)) fa in
  do* modify (set_this (set_serializer (snd created))) in
  do* require (fst created) in
  modify (set_this (fun r =>
    set_seen
      (match ids fa with
       | [] => file_attrs_seen_ r
       | id0 :: _ => {[ id0 ]} ∪ file_attrs_seen_ r
       end)
      ({[ attr_config (attr fa) ]} ∪ file_attr_configs_seen_ r) r)).

(** [PerfReader::ReadAttr] *)
Definition ReadAttr (E : Env) : M State unit :=
  let* a := ReadEventAttr E in
  let* ids_section := ReadPerfFileSection in
  let* s := get in
  let saved_offset := Tell (data s) in
  do* SeekSet (sec_offset ids_section) in
  let num_ids := sec_size ids_section / 8 in
  let* l := ReadUniqueIDs (Z.to_nat num_ids) in
  do* SeekSet saved_offset in
  AddPerfFileAttr E {| attr := a; ids := l |}.

(** [PerfReader::ReadAttrsSection] *)
Definition ReadAttrsSection (E : Env) : M State unit :=
  let* s := get in
  let h := header_ (this s) in
  if hdr_attr_size h =? 0 then failed
  else
    let* num_attrs := udiv (sec_size (hdr_attrs h)) (hdr_attr_size h) in
    do* SeekSet (sec_offset (hdr_attrs h)) in
    repeatM (Z.to_nat num_attrs) (ReadAttr E).

(** [PerfReader::ReadEventType] *)
Definition ReadEventType (attr_idx : nat) (event_size : Z) : M State unit :=
  let* event_id := ReadUint64 in
  let event_name_len :=
    if event_size =? 0 then MAX_EVENT_NAME
    else u64 (event_size - sizeof_perf_event_header - 8) in
  let* name := ReadString event_name_len in
  let* s := get in
  match nth_error (file_attrs (proto_ (this s))) attr_idx with
  | None => failed
  | Some fa =>
      do* require (event_id =? attr_config (attr fa)) in
      modify (set_this (set_proto (fun p =>
        set_event_types
          (event_types p ++ [{| et_id := attr_config (attr fa);
                                et_name := name |}]) p)))
  end.

(** [for (int i = 0; i < n; ++i) if (!ReadEventType(data, i, 0)) ...] *)
Fixpoint ReadEventTypes_from (i n : nat) : M State unit :=
  match n with
  | O => ret tt
  | S k => do* ReadEventType i 0 in ReadEventTypes_from (S i) k
  end.

(** [PerfReader::ReadEventTypesSection] *)
Definition ReadEventTypesSection : M State unit :=
  let* s := get in
  let h := header_ (this s) in
  let num_event_types :=
    to_int (sec_size (hdr_event_types h) / sizeof_perf_trace_event_type) in
  if num_event_types =? 0 then ret tt
  else
    do* require (Z.of_nat (length (file_attrs (proto_ (this s))))
                 =? num_event_types) in
    let calc_size := u64 (sizeof_perf_trace_event_type * num_event_types) in
    do* require (calc_size =? sec_size (hdr_event_types h)) in
    do* SeekSet (sec_offset (hdr_event_types h)) in
    ReadEventTypes_from 0 (Z.to_nat num_event_types).

(** The feature types that the switch of [ReadMetadataWithoutHeader]
    lists. *)
Definition is_supported_metadata (ty : Z) : bool :=
  one_of ty
    [HEADER_TRACING_DATA; HEADER_BUILD_ID; HEADER_HOSTNAME;
     HEADER_OSRELEASE; HEADER_VERSION; HEADER_ARCH; HEADER_CPUDESC;
     HEADER_CPUID; HEADER_CMDLINE; HEADER_NRCPUS; HEADER_TOTAL_MEM;
     HEADER_EVENT_DESC; HEADER_CPU_TOPOLOGY; HEADER_NUMA_TOPOLOGY;
     HEADER_BRANCH_STACK; HEADER_PMU_MAPPINGS; HEADER_GROUP_DESC].

(** [PerfReader::ReadMetadataWithoutHeader].  The bit of a supported type
    is set whether or not its reader succeeded; what a successful reader
    left of the declared size is skipped. *)
Definition ReadMetadataWithoutHeader (E : Env) (ty size : Z)
  : M State unit :=
  let* s := get in
  let remaining_size := data_size (data s) - Tell (data s) in
  do* require (negb (size >? remaining_size)) in
  let begin_offset := Tell (data s) in
  let is_supported := is_supported_metadata ty in
  let reader : M State unit :=
    if negb is_supported then ret tt
    else if ty =? HEADER_BRANCH_STACK then ret tt
    else ReadSupportedMetadata E ty size in
  fun s0 =>
    let '(isRead, s1) := reader s0 in
    match isRead with
    | Crashed c => (Crashed c, s1)
    | _ =>
        let s2 :=
          if is_supported then set_this (set_metadata_mask_bit ty) s1
          else s1 in
        match isRead with
        | Done _ =>
            if negb (size =? u64 (Tell (data s2) - begin_offset)) then
              let skip_size := size - (Tell (data s2) - begin_offset) in
              skip_forward skip_size s2
            else (Done tt, s2)
        | _ => (Failed, s2)
        end
    end.

(** [std::vector<perf_file_section> sections(n)], each read in turn. *)
Fixpoint ReadSections (n : nat) : M State (list perf_file_section) :=
  match n with
  | O => ret []
  | S k =>
      let* section := ReadPerfFileSection in
      let* rest := ReadSections k in
      ret (section :: rest)
  end.

(** The second loop of [ReadMetadata], over the feature types still to
    visit and the sections that [section_iter] has not passed. *)
Fixpoint ReadMetadata_loop (E : Env) (types : list Z)
    (sections : list perf_file_section) : M State unit :=
  match types with
  | [] => ret tt
  | ty :: rest =>
      let* s := get in
      if negb (get_metadata_mask_bit (this s) ty)
      then ReadMetadata_loop E rest sections
      else match sections with
           | [] => crashed OutOfBounds
           | section :: later =>
               do* SeekSet (sec_offset section) in
               do* ReadMetadataWithoutHeader E ty (sec_size section) in
               ReadMetadata_loop E rest later
           end
  end.

(** [HEADER_FIRST_FEATURE .. HEADER_LAST_FEATURE - 1] *)
Definition feature_types : list Z :=
  map Z.of_nat (seq (Z.to_nat HEADER_FIRST_FEATURE)
                  (Z.to_nat (HEADER_LAST_FEATURE - HEADER_FIRST_FEATURE))).

(** [PerfReader::ReadMetadata] *)
Definition ReadMetadata (E : Env) : M State unit :=
  let* s := get in
  let h := header_ (this s) in
  do* SeekSet (u64 (sec_offset (hdr_data h) + sec_size (hdr_data h))) in
  let* sections :=
    ReadSections (GetNumBits (metadata_mask (proto_ (this s)))) in
  ReadMetadata_loop E feature_types sections.

(** [PerfReader::ReadFileData] *)
Definition ReadFileData (E : Env) : M State unit :=
  let* s := get in
  let h := header_ (this s) in
  let within := fun (sec : perf_file_section) =>
    negb (u64 (sec_offset sec + sec_size sec) >? data_size (data s)) in
  do* require (within (hdr_attrs h)) in
  do* require (within (hdr_data h)) in
  do* require (within (hdr_event_types h)) in
  do* (if negb (get_metadata_mask_bit (this s) HEADER_EVENT_DESC)
       then do* ReadAttrsSection E in ReadEventTypesSection
       else ret tt) in
  do* ReadMetadata E in
  do* ReadDataSection E in
  let* s := get in
  match event_types (proto_ (this s)) with
  | [] => ret tt
  | _ :: _ => modify (set_this (set_metadata_mask_bit HEADER_EVENT_DESC))
  end.

(** [PerfReader::ReadFromData] *)
Definition ReadFromData (E : Env) : M State unit :=
  let* s := get in
  if data_size (data s) =? 0 then failed
  else
    do* ReadHeader in
    let* s := get in
    if hdr_size (header_ (this s)) =? sizeof_perf_file_header
    then ReadFileData E
    else
      do* require (hdr_size (header_ (this s))
                   =? sizeof_perf_pipe_file_header) in
      ReadPipedData E.

(** [PerfReader::ReadFromPointer]: the result ([true] for [Done]) and the
    reader afterwards. *)
Definition ReadFromPointer (E : Env) (r : PerfReader) (bytes : list Z)
  : res unit * PerfReader :=
  let '(result, s) :=
    ReadFromData E {| this := r; data := BufferReader bytes |} in
  (result, this s).

(** [PerfReader::ReadFromString] and [PerfReader::ReadFromVector] pass
    their characters on. *)
Definition ReadFromString (E : Env) (r : PerfReader) (str : list Z)
  : res unit * PerfReader := ReadFromPointer E r str.
Definition ReadFromVector (E : Env) (r : PerfReader) (v : list Z)
  : res unit * PerfReader := ReadFromPointer E r v.

(** [GetUint64AlignedStringLength]: room for the string and its NUL,
    rounded up to a multiple of 8. *)
Definition GetUint64AlignedStringLength (len : Z) : Z :=
  (len + 1 + 7) / 8 * 8.

(* --------------------------------------------------------------------- *)
(** ** perf_reader.cc: writing                                            *)
(* --------------------------------------------------------------------- *)

(** Modelled from the spec: the [DataWriter] / [BufferWriter] classes
    (data_writer.h, buffer_writer.h are not among the sources), after
    section 4.1: a cursor over a buffer of fixed size; a write that does
    not fit fails and leaves the buffer as it was; [SeekSet] is absolute
    and moves the cursor only to a position within the buffer. *)
Record DataWriter : Type := {
  w_buffer : list Z;
  w_offset : Z
}.

(** [BufferWriter data(buffer, size)] *)
Definition BufferWriter (bytes : list Z) : DataWriter :=
  {| w_buffer := bytes; w_offset := 0 |}.

Definition writer_size (w : DataWriter) : Z := Z.of_nat (length (w_buffer w)).
Definition WriterTell (w : DataWriter) : Z := w_offset w.

(** [data->WriteDataValue(src, size, name)] *)
Definition WriteDataValue (src : list Z) : M DataWriter unit :=
  fun w =>
    let n := Z.of_nat (length src) in
    if (0 <=? w_offset w) && (w_offset w + n <=? writer_size w) then
      (Done tt,
       {| w_buffer := take (Z.to_nat (w_offset w)) (w_buffer w) ++ src
                      ++ drop (Z.to_nat (w_offset w + n)) (w_buffer w);
          w_offset := w_offset w + n |})
    else (Failed, w).

(** [data->SeekSet(offset);] as a statement: the writer does not look at
    its result. *)
Definition WriterSeekSet (off : Z) : M DataWriter unit :=
  fun w =>
    (Done tt,
     if (0 <=? off) && (off <=? writer_size w)
     then {| w_buffer := w_buffer w; w_offset := off |}
     else w).

(** The first [n] bytes of an object whose bytes start with [bs]; what
    lies beyond [bs] is taken as zero. *)
Definition fit (n : Z) (bs : list Z) : list Z :=
  take (Z.to_nat n) (bs ++ repeat 0 (Z.to_nat n)).

(** What the writing functions use of code that is not among the sources:
    perf_data_utils.cc, the deserializing half of the serializer and the
    writers of the feature sections. *)
Record WriterEnv : Type := {
  (** [GetUint64AlignedStringLength] *)
  aligned_string_length : Z -> Z;
  (** the bytes of [attr.attr] after [DeserializePerfFileAttr] *)
  encode_perf_event_attr : perf_event_attr -> list Z;
  (** [PerfSerializer::GetEventSize] *)
  GetEventSize : PerfSerializer -> PerfEvent -> Z;
  (** [PerfSerializer::DeserializeEvent]: [None] is [false] *)
  DeserializeEvent : PerfSerializer -> PerfEvent -> option event_t;
  (** [event.auxtrace_event().size()] *)
  auxtrace_event_size : PerfEvent -> Z;
  (** [PerfSerializer::DeserializeAuxtraceEventTraceData] *)
  DeserializeAuxtraceEventTraceData : PerfEvent -> option (list Z);
  (** the writer of a feature section other than the tracing data
      ([WriteBuildIDMetadata], [WriteSingleStringMetadata], ...): the
      values it passes to [WriteDataValue], in order, and whether it
      goes on to the end when all of them fit *)
  WriteSupportedMetadata : Z -> PerfReader -> list (list Z) * bool
}.

(** The bytes of a [perf_file_section], a [perf_event_header], an
    [event_t] and a [perf_file_header] in memory. *)
Definition encode_section (sec : perf_file_section) : list Z :=
  le_encode 8 (sec_offset sec) ++ le_encode 8 (sec_size sec).

Definition encode_event_header (h : perf_event_header) : list Z :=
  le_encode 4 (h_type h) ++ le_encode 2 (h_misc h) ++ le_encode 2 (h_size h).

Definition encode_event (event : event_t) : list Z :=
  encode_event_header (e_header event) ++ e_data event.

Definition encode_perf_file_header (h : perf_file_header) : list Z :=
  le_encode 8 (hdr_magic h) ++ le_encode 8 (hdr_size h)
  ++ le_encode 8 (hdr_attr_size h)
  ++ encode_section (hdr_attrs h) ++ encode_section (hdr_data h)
  ++ encode_section (hdr_event_types h)
  ++ le_encode 8 (nth 0 (hdr_adds_features h) 0)
  ++ le_encode 8 (nth 1 (hdr_adds_features h) 0)
  ++ le_encode 8 (nth 2 (hdr_adds_features h) 0)
  ++ le_encode 8 (nth 3 (hdr_adds_features h) 0).

(** [sizeof(perf_file_attr)], [sizeof(build_id_event)] and the size of
    an element of [PerfFileAttr::ids] *)
Definition sizeof_perf_file_attr (E : Env) : Z :=
  sizeof_perf_event_attr E + sizeof_perf_file_section.
Definition sizeof_build_id_event : Z := 36.
Definition sizeof_id : Z := 8.

Definition sum_of (l : list Z) : Z := fold_right Z.add 0 l.

(** The sums below are taken in [Z]; the 64-bit wrap-around of the
    source is applied to each value where it is stored or returned, which
    gives the same value as wrapping at every addition. *)

(** [attr.ids_size() * sizeof(...)] summed over the attributes *)
Definition ids_size_total (p : PerfDataProto) : Z :=
  sum_of (map (fun fa => sizeof_id * Z.of_nat (length (ids fa)))
            (file_attrs p)).

(** [PerfReader::GenerateHeader].  Its checks ([CheckNoEventHeaderPadding],
    [HEADER_LAST_FEATURE <= 64]) compare constants and hold. *)
Definition GenerateHeader (E : Env) (W : WriterEnv) (r : PerfReader)
  : perf_file_header :=
  let p := proto_ r in
  let attr_size := sizeof_perf_file_attr E in
  let attrs_size := u64 (attr_size * Z.of_nat (length (file_attrs p))) in
  let data_size :=
    u64 (sum_of (map (fun ev =>
                h_size (ev_header ev)
                + (if h_type (ev_header ev) =? PERF_RECORD_AUXTRACE
                   then auxtrace_event_size W ev else 0))
              (events p))) in
  let event_types_size := 0 in
  let current_offset := u64 (sizeof_perf_file_header + ids_size_total p) in
  let attrs_offset := current_offset in
  let current_offset := u64 (current_offset + attrs_size) in
  let event_types_offset := current_offset in
  let current_offset := u64 (current_offset + event_types_size) in
  {| hdr_magic := kPerfMagic;
     hdr_size := sizeof_perf_file_header;
     hdr_attr_size := attr_size;
     hdr_attrs := {| sec_offset := attrs_offset; sec_size := attrs_size |};
     hdr_data := {| sec_offset := current_offset; sec_size := data_size |};
     hdr_event_types := {| sec_offset := event_types_offset;
                           sec_size := event_types_size |};
     hdr_adds_features :=
       [Z.lor 0 (Z.land (metadata_mask p) kSupportedMetadataMask); 0; 0; 0]
  |}.

(** [PerfReader::GetNumSupportedMetadata] *)
Definition GetNumSupportedMetadata (r : PerfReader) : nat :=
  GetNumBits (Z.land (metadata_mask (proto_ r)) kSupportedMetadataMask).

(** [ExpectedStorageSizeOf]: the length field and the padded string. *)
Definition ExpectedStorageSizeOf (W : WriterEnv) (str : list Z) : Z :=
  4 + aligned_string_length W (Z.of_nat (length str)).

(** [PerfReader::GetEventDescMetadataSize] *)
Definition GetEventDescMetadataSize (E : Env) (W : WriterEnv)
    (r : PerfReader) : Z :=
  let p := proto_ r in
  if (length (event_types p) <? length (file_attrs p))%nat then 0
  else if get_metadata_mask_bit r HEADER_EVENT_DESC then
    4 + 4
    + sum_of (map (fun '(fa, et) =>
                  sizeof_perf_event_attr E + 4
                  + ExpectedStorageSizeOf W (et_name et)
                  + Z.of_nat (length (ids fa)) * sizeof_id)
             (combine (file_attrs p) (event_types p)))
  else 0.

(** [PerfReader::GetBuildIDMetadataSize] *)
Definition GetBuildIDMetadataSize (W : WriterEnv) (m : Metadata) : Z :=
  sum_of (map (fun b =>
              sizeof_build_id_event
              + aligned_string_length W (Z.of_nat (length (bid_filename b))))
         (build_ids m)).

(** [PerfReader::GetStringMetadataSize] *)
Definition GetStringMetadataSize (W : WriterEnv) (m : Metadata) : Z :=
  let sm := string_metadata m in
  let opt := fun (o : option (list Z)) =>
    match o with Some v => ExpectedStorageSizeOf W v | None => 0 end in
  opt (hostname sm) + opt (kernel_version sm) + opt (perf_version sm)
  + opt (architecture sm) + opt (cpu_description sm) + opt (cpu_id sm)
  + match perf_command_line_token sm with
    | [] => 0
    | tokens => 4 + sum_of (map (ExpectedStorageSizeOf W) tokens)
    end.

(** [PerfReader::GetUint32MetadataSize], [PerfReader::GetUint64MetadataSize] *)
Definition GetUint32MetadataSize (m : Metadata) : Z :=
  sum_of (map (fun u => Z.of_nat (length (um_data u)) * 4) (uint32_metadata m)).
Definition GetUint64MetadataSize (m : Metadata) : Z :=
  sum_of (map (fun u => Z.of_nat (length (um_data u)) * 8) (uint64_metadata m)).

(** [PerfReader::GetCPUTopologyMetadataSize] *)
Definition GetCPUTopologyMetadataSize (W : WriterEnv) (m : Metadata) : Z :=
  let t := cpu_topology m in
  4 + sum_of (map (ExpectedStorageSizeOf W) (core_siblings t))
  + 4 + sum_of (map (ExpectedStorageSizeOf W) (thread_siblings t))
  + Z.of_nat (length (available_cpus t)) * 2 * 4.

(** [PerfReader::GetNUMATopologyMetadataSize]: the node's id is a 32-bit
    field and its two memory sizes are 64-bit fields. *)
Definition GetNUMATopologyMetadataSize (W : WriterEnv) (m : Metadata) : Z :=
  4 + sum_of (map (fun node => 4 + (8 + 8)
                            + ExpectedStorageSizeOf W (cpu_list node))
             (numa_topology m)).

(** [PerfReader::GetPMUMappingsMetadataSize] *)
Definition GetPMUMappingsMetadataSize (W : WriterEnv) (m : Metadata) : Z :=
  4 + sum_of (map (fun node => 4 + ExpectedStorageSizeOf W (pmu_name node))
             (pmu_mappings m)).

(** [PerfReader::GetGroupDescMetadataSize] *)
Definition GetGroupDescMetadataSize (W : WriterEnv) (m : Metadata) : Z :=
  4 + sum_of (map (fun group => ExpectedStorageSizeOf W (group_name group)
                             + 4 + 4)
             (group_desc m)).

(** [PerfReader::GetSize] *)
Definition GetSize (E : Env) (W : WriterEnv) (r : PerfReader) : Z :=
  let header := GenerateHeader E W r in
  let m := metadata (proto_ r) in
  u64 (hdr_size header
       + sec_size (hdr_attrs header)
       + sec_size (hdr_event_types header)
       + sec_size (hdr_data header)
       + ids_size_total (proto_ r)
       + Z.of_nat (GetNumSupportedMetadata r) * sizeof_perf_file_section
       + Z.of_nat (length (tracing_data m))
       + GetBuildIDMetadataSize W m
       + GetStringMetadataSize W m
       + GetUint32MetadataSize m
       + GetUint64MetadataSize m
       + GetEventDescMetadataSize E W r
       + GetCPUTopologyMetadataSize W m
       + GetNUMATopologyMetadataSize W m
       + GetPMUMappingsMetadataSize W m
       + GetGroupDescMetadataSize W m).

(** [PerfReader::WriteHeader] *)
Definition WriteHeader (header : perf_file_header) : M DataWriter unit :=
  WriteDataValue (encode_perf_file_header header).

(** Values written one after the other, up to the first that does not
    fit. *)
Fixpoint WriteValues (values : list (list Z)) : M DataWriter unit :=
  match values with
  | [] => ret tt
  | v :: rest => do* WriteDataValue v in WriteValues rest
  end.

(** The first loop of [WriteAttrs]: the ID section of each attribute is
    noted and its IDs are written. *)
Fixpoint WriteIdSections (attrs : list PerfFileAttr)
  : M DataWriter (list perf_file_section) :=
  match attrs with
  | [] => ret []
  | fa :: rest =>
      let* w := get in
      let section :=
        {| sec_offset := WriterTell w;
           sec_size := u64 (Z.of_nat (length (ids fa)) * sizeof_id) |} in
      do* WriteValues (map (le_encode 8) (ids fa)) in
      let* later := WriteIdSections rest in
      ret (section :: later)
  end.

(** The second loop of [WriteAttrs], over the attributes from [i] on and
    [id_sections] from its [i]-th element on. *)
Fixpoint WriteAttrEntries (E : Env) (W : WriterEnv)
    (attrs : list PerfFileAttr) (id_sections : list perf_file_section)
  : M DataWriter unit :=
  match attrs with
  | [] => ret tt
  | fa :: rest =>
      match id_sections with
      | [] => crashed OutOfBounds
      | id_section :: later =>
          do* WriteDataValue
                (fit (sizeof_perf_event_attr E)
                   (encode_perf_event_attr W (attr fa))) in
          do* WriteDataValue (encode_section id_section) in
          WriteAttrEntries E W rest later
      end
  end.

(** [PerfReader::WriteAttrs] *)
Definition WriteAttrs (E : Env) (W : WriterEnv) (r : PerfReader)
    (header : perf_file_header) : M DataWriter unit :=
  let id_offset := hdr_size header in
  let* w := get in
  do* CHECK (id_offset =? WriterTell w) in
  let* id_sections := WriteIdSections (file_attrs (proto_ r)) in
  let* w := get in
  do* CHECK (sec_offset (hdr_attrs header) =? WriterTell w) in
  WriteAttrEntries E W (file_attrs (proto_ r)) id_sections.

(** The loop of [WriteData]. *)
Fixpoint WriteEvents (W : WriterEnv) (sz : PerfSerializer)
    (evs : list PerfEvent) : M DataWriter unit :=
  match evs with
  | [] => ret tt
  | proto_event :: rest =>
      let expected_size := GetEventSize W sz proto_event in
      do* require (negb (expected_size =? 0)) in
      do* require (h_size (ev_header proto_event) =? expected_size) in
      match DeserializeEvent W sz proto_event with
      | None => failed
      | Some event =>
          do* WriteDataValue
                (fit (h_size (e_header event)) (encode_event event)) in
          do* (if (h_type (ev_header proto_event) =? PERF_RECORD_AUXTRACE)
                  && (auxtrace_event_size W proto_event >? 0)
               then match DeserializeAuxtraceEventTraceData W proto_event with
                    | None => failed
                    | Some trace_data => WriteDataValue trace_data
                    end
               else ret tt) in
          WriteEvents W sz rest
      end
  end.

(** [PerfReader::WriteData] *)
Definition WriteData (E : Env) (W : WriterEnv) (r : PerfReader)
    (header : perf_file_header) : M DataWriter unit :=
  match events (proto_ r) with
  | [] => ret tt
  | _ :: _ =>
      do* CHECK (SampleInfoReaderAvailable E (serializer_ r)) in
      let* w := get in
      do* CHECK (sec_offset (hdr_data header) =? WriterTell w) in
      WriteEvents W (serializer_ r) (events (proto_ r))
  end.

(** The switch of [WriteMetadata]. *)
Definition WriteFeature (W : WriterEnv) (r : PerfReader) (ty : Z)
  : M DataWriter unit :=
  if ty =? HEADER_TRACING_DATA
  then WriteDataValue (tracing_data (metadata (proto_ r)))
  else if ty =? HEADER_BRANCH_STACK then ret tt
  else if is_supported_metadata ty then
    do* WriteValues (fst (WriteSupportedMetadata W ty r)) in
    require (snd (WriteSupportedMetadata W ty r))
  else failed.

(** The loop of [WriteMetadata] over the feature types still to visit;
    the result is what it appends to [metadata_sections]. *)
Fixpoint WriteMetadata_loop (W : WriterEnv) (r : PerfReader)
    (header : perf_file_header) (types : list Z)
  : M DataWriter (list perf_file_section) :=
  match types with
  | [] => ret []
  | ty :: rest =>
      if Z.land (nth 0 (hdr_adds_features header) 0) (Z.shiftl 1 ty) =? 0
      then WriteMetadata_loop W r header rest
      else
        let* w := get in
        let entry_offset := WriterTell w in
        do* WriteFeature W r ty in
        let* w' := get in
        let header_entry :=
          {| sec_offset := entry_offset;
             sec_size := u64 (WriterTell w' - entry_offset) |} in
        let* later := WriteMetadata_loop W r header rest in
        ret (header_entry :: later)
  end.

(** [PerfReader::WriteMetadata] *)
Definition WriteMetadata (W : WriterEnv) (r : PerfReader)
    (header : perf_file_header) : M DataWriter unit :=
  let header_offset :=
    u64 (sec_offset (hdr_data header) + sec_size (hdr_data header)) in
  let* w := get in
  do* CHECK (header_offset =? WriterTell w) in
  let headers_size :=
    u64 (Z.of_nat (GetNumSupportedMetadata r) * sizeof_perf_file_section) in
  let metadata_offset := u64 (header_offset + headers_size) in
  do* WriterSeekSet metadata_offset in
  let* metadata_sections := WriteMetadata_loop W r header feature_types in
  do* CHECK (Z.of_nat (GetNumSupportedMetadata r)
             =? Z.of_nat (length metadata_sections)) in
  let* w := get in
  let old_offset := WriterTell w in
  do* WriterSeekSet header_offset in
  do* WriteDataValue (fit headers_size
                        (flat_map encode_section metadata_sections)) in
  let* w := get in
  do* CHECK (metadata_offset =? WriterTell w) in
  WriterSeekSet old_offset.

(** [PerfReader::WriteToPointerWithoutCheckingSize]: the result and the
    buffer afterwards. *)
Definition WriteToPointerWithoutCheckingSize (E : Env) (W : WriterEnv)
    (r : PerfReader) (bytes : list Z) : res unit * list Z :=
  let header := GenerateHeader E W r in
  let '(result, w) :=
    (do* WriteHeader header in
     do* WriteAttrs E W r header in
     do* WriteData E W r header in
     WriteMetadata W r header) (BufferWriter bytes) in
  (result, w_buffer w).

(** [PerfReader::WriteToPointer] *)
Definition WriteToPointer (E : Env) (W : WriterEnv) (r : PerfReader)
    (bytes : list Z) : res unit * list Z :=
  if Z.of_nat (length bytes) <? GetSize E W r then (Failed, bytes)
  else WriteToPointerWithoutCheckingSize E W r bytes.

(** [PerfReader::WriteToString]: [str] is resized to [GetSize()], which
    keeps what it held and fills up with zero bytes; [str->at(0)] throws
    on an empty string. *)
Definition WriteToString (E : Env) (W : WriterEnv) (r : PerfReader)
    (str : list Z) : res unit * list Z :=
  let resized := fit (GetSize E W r) str in
  match resized with
  | [] => (Crashed OutOfBounds, resized)
  | _ :: _ => WriteToPointerWithoutCheckingSize E W r resized
  end.

(** The mask has supported bits only. *)
Definition only_supported_bits (r : PerfReader) : Prop :=
  forall bit : Z,
    get_metadata_mask_bit r bit = true ->
    Z.testbit kSupportedMetadataMask bit = true.

(** A property of the metadata mask, as a property of the state. *)
Definition mask_inv (P : Z -> Prop) (s : State) : Prop :=
  P (metadata_mask (proto_ (this s))).

(** What a successful read leaves: the cursor moved past the bytes. *)
Definition advance (n : Z) (s : State) : State :=
  set_data (fun d => {| buffer := buffer d; offset := offset d + n;
                        is_cross_endian := is_cross_endian d |}) s.

(** The state of a writer over a buffer of [n] bytes whose first [lo]
    bytes are [prefix] and whose cursor is at or after [lo]. *)
Definition writer_inv (n : nat) (lo : Z) (prefix : list Z) (w : DataWriter)
  : Prop :=
  length (w_buffer w) = n
  /\ take (Z.to_nat lo) (w_buffer w) = prefix
  /\ lo <= w_offset w <= Z.of_nat n.

(** [c] does not touch the metadata mask. *)
Definition keeps_metadata_mask {A : Type} (c : M State A) : Prop :=
  forall s : State,
    metadata_mask (proto_ (this (snd (c s))))
    = metadata_mask (proto_ (this s)).

(** An instance of [Env] for the examples: the constants of the Linux ABI;
    [perf_event_attr] in its 112-byte layout ([config] at byte 8,
    [sample_type] at byte 24, the flag word at byte 40 with
    [exclude_kernel] as bit 5 and [sample_id_all] as bit 18); the fixed
    sizes of MMAP, COMM, FORK, EXIT, LOST, SAMPLE and FINISHED_ROUND after
    the structs of kernel/perf_internals.h, with the padded file name as
    the variable part of MMAP; events stored as their bytes; the payload of
    a supported feature section read as raw bytes; no piped input. *)
Definition example_env : Env := {|
  sample_format := linux_sample_format;
  records := linux_records;
  sizeof_perf_event_attr := 112;
  decode_perf_event_attr := fun _ type _ rest =>
    {| attr_type := type;
       attr_config := le_decode (take 8 rest);
       sample_type := le_decode (take 8 (drop 16 rest));
       sample_id_all := Z.testbit (le_decode (take 8 (drop 32 rest))) 18;
       exclude_kernel := Z.testbit (le_decode (take 8 (drop 32 rest))) 5 |};
  SampleInfoReaderAvailable := fun sz =>
    match sample_info_reader_map_ sz with [] => false | _ :: _ => true end;
  IsSupportedEventType := IsSupportedKernelEventType linux_records;
  GetEventDataFixedPayloadSize := fun ty =>
    if ty =? 1 then Some 40
    else if ty =? 3 then Some 16
    else if (ty =? 4) || (ty =? 7) then Some 32
    else if ty =? 2 then Some 24
    else if (ty =? 9) || (ty =? PERF_RECORD_FINISHED_ROUND) then Some 8
    else None;
  GetEventDataVariablePayloadSize := fun event remaining =>
    if h_type (e_header event) =? 1 then
      let name := until_nul (drop 32 (e_data event)) in
      if Z.of_nat (length name) <? remaining
      then Some (GetUint64AlignedStringLength (Z.of_nat (length name)))
      else None
    else Some 0;
  swap_fixed_payload := fun event => event;
  swap_variable_payload := fun event => event;
  StoreEvent := fun event read_size =>
    do* modify (set_this (set_proto (fun p =>
          set_events
            (events p ++ [{| ev_header := e_header event;
                             ev_timestamp := 0;
                             ev_fields := e_data event |}]) p))) in
    ret read_size;
  ReadSupportedMetadata := fun _ size => do* ReadData size in ret tt;
  ReadPipedData := failed
|}.

(** An instance of [WriterEnv] for the examples, the inverse of
    [example_env]: [perf_event_attr] in the same 112-byte layout, events
    held as their bytes, no trace data, feature sections without payload. *)
Definition example_writer_env : WriterEnv := {|
  aligned_string_length := GetUint64AlignedStringLength;
  encode_perf_event_attr := fun a =>
    le_encode 4 (attr_type a) ++ le_encode 4 112
    ++ le_encode 8 (attr_config a) ++ repeat 0 8
    ++ le_encode 8 (sample_type a) ++ repeat 0 8
    ++ le_encode 8 ((if exclude_kernel a then 2 ^ 5 else 0)
                    + (if sample_id_all a then 2 ^ 18 else 0))
    ++ repeat 0 64;
  GetEventSize := fun _ ev => h_size (ev_header ev);
  DeserializeEvent := fun _ ev =>
    Some {| e_header := ev_header ev; e_data := ev_fields ev |};
  auxtrace_event_size := fun _ => 0;
  DeserializeAuxtraceEventTraceData := fun _ => None;
  WriteSupportedMetadata := fun _ _ => ([], true)
|}.

(** A perf.data file in normal mode with no attributes, no events and no
    feature sections, whose feature bitmap has the bits [features]: the
    104-byte header and one section entry for each of [entries]. *)
Definition bare_perf_data (features : Z) (entries : list perf_file_section)
  : list Z :=
  encode_perf_file_header
    {| hdr_magic := kPerfMagic;
       hdr_size := sizeof_perf_file_header;
       hdr_attr_size := sizeof_perf_file_attr example_env;
       hdr_attrs := {| sec_offset := 104; sec_size := 0 |};
       hdr_data := {| sec_offset := 104; sec_size := 0 |};
       hdr_event_types := {| sec_offset := 104; sec_size := 0 |};
       hdr_adds_features := [features; 0; 0; 0] |}
  ++ flat_map encode_section entries.

(** A file whose only feature bit is bit 18, [HEADER_LAST_FEATURE], which
    lies outside [kSupportedMetadataMask], with an empty section for it. *)
Definition perf_data_with_unsupported_feature : list Z :=
  bare_perf_data (Z.shiftl 1 HEADER_LAST_FEATURE)
    [{| sec_offset := 120; sec_size := 0 |}].

(** A serializer holding one reader, for an attribute that samples IP and
    TID and has [sample_id_all] as given. *)
Definition serializer_with_one_attr (id_all : bool) : PerfSerializer :=
  snd (CreateSampleInfoReader linux_sample_format new_serializer
         {| attr := {| attr_type := 0; attr_config := 0;
                       sample_type := 3; sample_id_all := id_all;
                       exclude_kernel := false |};
            ids := [] |}).

(** The 56 bytes after the header of a 64-byte MMAP record: pid 1001,
    tid 1001, start 0x1c1000, len 0x1000, pgoff 0, the file name "a"
    padded to 8 bytes, and 16 more bytes. *)
Definition mmap_record_body : list Z :=
  le_encode 4 1001 ++ le_encode 4 1001 ++ le_encode 8 0x1c1000
  ++ le_encode 8 0x1000 ++ le_encode 8 0
  ++ [97; 0; 0; 0; 0; 0; 0; 0] ++ repeat 0 16.

(* --------------------------------------------------------------------- *)
(** ** perf_reader.cc and perf_serializer.cc: helpers                     *)
(* --------------------------------------------------------------------- *)

Definition u8 (x : Z) : Z := x mod 2 ^ 8.

(** [ReverseByte]: the argument and every assignment to [x] are [u8]. *)
Definition ReverseByte (x : Z) : Z :=
  let x := u8 (Z.lor (Z.shiftr (Z.land x 0xf0) 4)
                     (Z.shiftl (Z.land x 0x0f) 4)) in
  let x := u8 (Z.lor (Z.shiftr (Z.land x 0xcc) 2)
                     (Z.shiftl (Z.land x 0x33) 2)) in
  let x := u8 (Z.lor (Z.shiftr (Z.land x 0xaa) 1)
                     (Z.shiftl (Z.land x 0x55) 1)) in
  x.

(** [SwapBitfieldOfBits(field, len)]: the first [len] bytes of [field],
    each reversed in place. *)
Definition SwapBitfieldOfBits (field : list Z) (len : nat) : list Z :=
  map ReverseByte (take len field) ++ drop len field.

(** [reinterpret_cast<const u64*>(&event)[i]]: the [i]-th 64-bit word of
    the memory of an event, which holds [header.size] bytes. *)
Definition event_word (event : event_t) (i : Z) : res Z :=
  let size := h_size (e_header event) in
  if (0 <=? i) && (8 * i + 8 <=? size) then
    Done (le_decode (take 8 (drop (Z.to_nat (8 * i))
                               (fit size (encode_event event)))))
  else Crashed OutOfBounds.

(** [PerfSerializer::GetSampleInfoReaderForEvent].  [GetEventDataSize] is
    of perf_data_utils.cc, which is not among the sources; [LOG(FATAL)]
    ends the program like a failed [CHECK]. *)
Definition GetSampleInfoReaderForEvent (K : RecordABI)
    (IsSupportedEventType : Z -> bool) (GetEventDataSize : event_t -> Z)
    (s : PerfSerializer) (event : event_t) : res (option perf_event_attr) :=
  let header := e_header event in
  let event_id_pos :=
    if h_type header =? PERF_RECORD_SAMPLE K then sample_event_id_pos_ s
    else if ContainsSampleInfo K IsSupportedEventType s (h_type header)
         then other_event_id_pos_ s
         else NotPresent in
  if event_id_pos =? Uninitialized then Crashed CheckFailed
  else if event_id_pos =? NotPresent
  then Done (GetSampleInfoReaderForId s 0)
  else
    let offset := u64 (GetEventDataSize event) in
    if offset =? 0 then Done None
    else if h_size header <=? offset then Done None
    else
      let array := offset / 8 in
      let array_size := (h_size header - offset) / 8 in
      let index :=
        if h_type header =? PERF_RECORD_SAMPLE K then
          if array_size <=? event_id_pos then None
          else Some (array + event_id_pos)
        else
          if array_size <? event_id_pos then None
          else Some (array + (array_size - event_id_pos)) in
      match index with
      | None => Done None
      | Some i =>
          match event_word event i with
          | Done event_id => Done (GetSampleInfoReaderForId s event_id)
          | Failed => Failed
          | Crashed c => Crashed c
          end
      end.

(** [c] reads forward: it leaves the input as it is and the cursor at or
    after the place where it was, within the input. *)
Definition reads_forward {A : Type} (c : M State A) : Prop :=
  forall s : State,
    0 <= offset (data s) <= data_size (data s) ->
    buffer (data (snd (c s))) = buffer (data s)
    /\ offset (data s) <= offset (data (snd (c s))) <= data_size (data s).

(** A section that lies within [n] bytes of input. *)
Definition section_within (n : Z) (sec : perf_file_section) : Prop :=
  0 <= sec_offset sec <= n /\ 0 <= sec_size sec <= n - sec_offset sec.

(** A header as it lies in a file of [n] bytes, [n] below [2 ^ 64]: in
    normal mode, in the byte order of the host, its fields 64-bit values
    and its sections within the file. *)
Definition header_of_file (n : Z) (h : perf_file_header) : Prop :=
  hdr_magic h = kPerfMagic
  /\ hdr_size h = sizeof_perf_file_header
  /\ 0 <= hdr_attr_size h < 2 ^ 64
  /\ section_within n (hdr_attrs h)
  /\ section_within n (hdr_data h)
  /\ section_within n (hdr_event_types h)
  /\ length (hdr_adds_features h) = 4%nat
  /\ Forall (fun w => 0 <= w < 2 ^ 64) (hdr_adds_features h).

(** An invariant of the reading state that does not look at the cursor. *)
Definition cursor_blind (I : State -> Prop) : Prop :=
  forall (s : State) (off : Z),
    I s ->
    I (set_data (fun d => {| buffer := buffer d; offset := off;
                             is_cross_endian := is_cross_endian d |}) s).

(** Both cross-endian flags, of the reader and of the data, are [b]. *)
Definition byte_order_is (b : bool) (s : State) : Prop :=
  is_cross_endian_ (this s) = b /\ is_cross_endian (data s) = b.


(** The outcome [run] of a piece of the writer started in [w] that has
    [n] bytes to write and nothing else that can go wrong: with room for
    them it returns [true], the cursor [n] bytes further in a buffer of
    the same size, and a result that satisfies [Q]; without room it
    returns [false]. *)
Definition wrote {A : Type} (Q : A -> Prop) (n : Z) (w : DataWriter)
    (run : res A * DataWriter) : Prop :=
  if w_offset w + n <=? writer_size w
  then exists (a : A) (w' : DataWriter),
         run = (Done a, w') /\ w_offset w' = w_offset w + n
         /\ writer_size w' = writer_size w /\ Q a
  else fst run = Failed.

(** The bytes that precede the data section: the file header, the IDs
    and the attributes. *)
Definition bytes_before_data (E : Env) (r : PerfReader) : Z :=
  sizeof_perf_file_header + ids_size_total (proto_ r)
  + sizeof_perf_file_attr E * Z.of_nat (length (file_attrs (proto_ r))).

(** [attr.ids_size() * sizeof(...)] summed over a list of attributes. *)
Definition ids_total (attrs : list PerfFileAttr) : Z :=
  sum_of (map (fun fa => sizeof_id * Z.of_nat (length (ids fa))) attrs).

(** The outcome [run] of a piece of the writer started in [w] that writes
    [n] bytes when it returns [true]: it came to a [return], and if it
    returned [true] the cursor is [n] bytes further in a buffer of the
    same size. *)
Definition moved {A : Type} (n : Z) (w : DataWriter)
    (run : res A * DataWriter) : Prop :=
  match fst run with
  | Done _ => w_offset (snd run) = w_offset w + n
              /\ writer_size (snd run) = writer_size w
  | Failed => True
  | Crashed _ => False
  end.

(** The bytes that [GenerateHeader] counts for an event of the model. *)
Definition event_bytes (W : WriterEnv) (ev : PerfEvent) : Z :=
  h_size (ev_header ev)
  + (if h_type (ev_header ev) =? PERF_RECORD_AUXTRACE
     then auxtrace_event_size W ev else 0).

(** The sizes that the model records for an event are those of what the
    serializer makes of it: the deserialized event has the size of the
    event's header, and the trace data of an AUXTRACE event has the size
    the event states. *)
Definition sizes_agree (W : WriterEnv) (sz : PerfSerializer) (ev : PerfEvent)
  : Prop :=
  0 <= h_size (ev_header ev)
  /\ 0 <= auxtrace_event_size W ev
  /\ (forall event : event_t,
        DeserializeEvent W sz ev = Some event ->
        h_size (e_header event) = h_size (ev_header ev))
  /\ (forall trace_data : list Z,
        DeserializeAuxtraceEventTraceData W ev = Some trace_data ->
        Z.of_nat (length trace_data) = auxtrace_event_size W ev).

(** A reader that holds one attribute with the ID 7, the sample info
    reader for it, and one 16-byte COMM record. *)
Definition reader_with_one_event : PerfReader :=
  set_serializer (serializer_with_one_attr false)
    (set_proto
       (fun p =>
          set_events
            [{| ev_header := {| h_type := 3; h_misc := 0; h_size := 16 |};
                ev_timestamp := 0;
                ev_fields := repeat 0 8 |}]
            (set_file_attrs [example_file_attr false [7]] p))
       new_reader).


(* --------------------------------------------------------------------- *)
(** ** perf_reader.cc: the integer feature sections                       *)
(* --------------------------------------------------------------------- *)

Definition set_metadata (f : Metadata -> Metadata) (p : PerfDataProto)
  : PerfDataProto :=
  {| file_attrs := file_attrs p; events := events p;
     event_types := event_types p; metadata_mask := metadata_mask p;
     metadata := f (metadata p) |}.

(** [proto_->add_uint32_metadata()] and [proto_->add_uint64_metadata()],
    filled by [SerializeSingleUint32Metadata] and
    [SerializeSingleUint64Metadata], which copy the type and the data. *)
Definition add_uint32_metadata (u : PerfUintMetadata) (m : Metadata)
  : Metadata :=
  {| tracing_data := tracing_data m; build_ids := build_ids m;
     string_metadata := string_metadata m;
     uint32_metadata := uint32_metadata m ++ [u];
     uint64_metadata := uint64_metadata m;
     cpu_topology := cpu_topology m; numa_topology := numa_topology m;
     pmu_mappings := pmu_mappings m; group_desc := group_desc m |}.

Definition add_uint64_metadata (u : PerfUintMetadata) (m : Metadata)
  : Metadata :=
  {| tracing_data := tracing_data m; build_ids := build_ids m;
     string_metadata := string_metadata m;
     uint32_metadata := uint32_metadata m;
     uint64_metadata := uint64_metadata m ++ [u];
     cpu_topology := cpu_topology m; numa_topology := numa_topology m;
     pmu_mappings := pmu_mappings m; group_desc := group_desc m |}.

(** The loop [while (size > 0)] of [ReadUint32Metadata] and
    [ReadUint64Metadata], for items of [width] bytes: [size] is a
    [size_t], so [size -= sizeof(item)] wraps around.  Every turn reads
    from the input, so the loop of the source ends; the model's loop
    counts its turns down from [fuel]. *)
Fixpoint ReadUintItems (width fuel : nat) (size : Z) : M State (list Z) :=
  if size >? 0 then
    match fuel with
    | O => crashed OutOfFuel
    | S k =>
        let* item := ReadUint width in
        let* rest := ReadUintItems width k (u64 (size - Z.of_nat width)) in
        ret (item :: rest)
    end
  else ret [].

(** What [ReadUint32Metadata] and [ReadUint64Metadata] have in common. *)
Definition ReadUintMetadata (width : nat)
    (add : PerfUintMetadata -> Metadata -> Metadata) (type size : Z)
  : M State unit :=
  let* s := get in
  let* items := ReadUintItems width (S (length (buffer (data s)))) size in
  do* require (negb (match items with [] => true | _ :: _ => false end)) in
  modify (set_this (set_proto (set_metadata
            (add {| um_type := type; um_data := items |})))).

(** [PerfReader::ReadUint32Metadata] *)
Definition ReadUint32Metadata (type size : Z) : M State unit :=
  ReadUintMetadata 4 add_uint32_metadata type size.

(** [PerfReader::ReadUint64Metadata] *)
Definition ReadUint64Metadata (type size : Z) : M State unit :=
  ReadUintMetadata 8 add_uint64_metadata type size.

(** What [WriteUint32Metadata] and [WriteUint64Metadata] have in common:
    the data of the first entry of the type, as one value. *)
Definition WriteUintMetadata (width : nat) (entries : list PerfUintMetadata)
    (type : Z) : M DataWriter unit :=
  match List.find (fun m => um_type m =? type) entries with
  | Some m => WriteDataValue (flat_map (le_encode width) (um_data m))
  | None => failed
  end.

(** [PerfReader::WriteUint32Metadata] *)
Definition WriteUint32Metadata (r : PerfReader) (type : Z)
  : M DataWriter unit :=
  WriteUintMetadata 4 (uint32_metadata (metadata (proto_ r))) type.

(** [PerfReader::WriteUint64Metadata] *)
Definition WriteUint64Metadata (r : PerfReader) (type : Z)
  : M DataWriter unit :=
  WriteUintMetadata 8 (uint64_metadata (metadata (proto_ r))) type.

(** The [n] integers of [width] bytes each that the bytes [bs] start
    with, byte-swapped when [cross]. *)
Fixpoint decode_uints (width : nat) (cross : bool) (n : nat) (bs : list Z)
  : list Z :=
  match n with
  | O => []
  | S k =>
      (let v := le_decode (take width bs) in
       if cross then bswap width v else v)
      :: decode_uints width cross k (drop width bs)
  end.

(** The bytes of the input from the cursor on. *)
Definition rest_of_input (s : State) : list Z :=
  drop (Z.to_nat (offset (data s))) (buffer (data s)).

(** A reader whose model has the two integers of [HEADER_NRCPUS] and the
    integer of [HEADER_TOTAL_MEM]. *)
Definition reader_with_uint_metadata : PerfReader :=
  set_proto
    (set_metadata (fun m =>
       add_uint64_metadata {| um_type := HEADER_TOTAL_MEM;
                              um_data := [16 * 2 ^ 30] |}
         (add_uint32_metadata {| um_type := HEADER_NRCPUS;
                                 um_data := [8; 4] |} m)))
    new_reader.


(* --------------------------------------------------------------------- *)
(** ** perf_reader.cc: attributes in piped data                           *)
(* --------------------------------------------------------------------- *)

(** [PerfReader::ReadAttrEventBlock] *)
Definition ReadAttrEventBlock (E : Env) (size : Z) : M State unit :=
  let* s0 := get in
  let initial_offset := Tell (data s0) in
  let* a := ReadEventAttr E in
  let* s1 := get in
  let actual_attr_size := u64 (Tell (data s1) - initial_offset) in
  let num_ids := u64 (size - actual_attr_size) / sizeof_id in
  let* l := ReadUniqueIDs (Z.to_nat num_ids) in
  let* s := get in
  let r := this s in
  if match l with
     | [] => bool_decide (attr_config a ∈ file_attr_configs_seen_ r)
     | _ :: _ => false
     end
  then ret tt
  else if match l with
          | [] => false
          | id0 :: _ => bool_decide (id0 ∈ file_attrs_seen_ r)
          end
  then ret tt
  else AddPerfFileAttr E {| attr := a; ids := l |}.

(** The key under which [ReadAttrEventBlock] looks for an attribute it
    has seen: the first ID, or the config when there are no IDs. *)
Definition attr_key_seen (r : PerfReader) (fa : PerfFileAttr) : Prop :=
  match ids fa with
  | [] => attr_config (attr fa) ∈ file_attr_configs_seen_ r
  | id0 :: _ => id0 ∈ file_attrs_seen_ r
  end.

(** The first IDs of the attributes that have IDs. *)
Definition first_ids (attrs : list PerfFileAttr) : list Z :=
  flat_map (fun fa => match ids fa with [] => [] | id0 :: _ => [id0] end)
    attrs.

(** Every attribute of the model has been noted as seen, and the
    attributes that have IDs differ in their first ID. *)
Definition attrs_noted (r : PerfReader) : Prop :=
  (forall fa : PerfFileAttr,
     In fa (file_attrs (proto_ r)) ->
     attr_key_seen r fa
     /\ attr_config (attr fa) ∈ file_attr_configs_seen_ r)
  /\ NoDup (first_ids (file_attrs (proto_ r))).

(** The bytes of a PERF_RECORD_HEADER_ATTR payload: an attribute of 112
    bytes with config 5, and the one ID 7. *)
Definition attr_block_bytes : list Z :=
  encode_perf_event_attr example_writer_env
    {| attr_type := 0; attr_config := 5; sample_type := 3;
       sample_id_all := false; exclude_kernel := false |}
  ++ le_encode 8 7.

(** The reader [r'] is the reader [r] with the attributes [added] at the
    end of the model, each noted as seen; the header and the events are
    those of [r]. *)
Definition attrs_added (added : list PerfFileAttr) (r r' : PerfReader)
  : Prop :=
  file_attrs (proto_ r') = file_attrs (proto_ r) ++ added
  /\ header_ r' = header_ r
  /\ events (proto_ r') = events (proto_ r)
  /\ file_attrs_seen_ r ⊆ file_attrs_seen_ r'
  /\ file_attr_configs_seen_ r ⊆ file_attr_configs_seen_ r'
  /\ Forall (fun fa => attr_key_seen r' fa
                       /\ attr_config (attr fa) ∈ file_attr_configs_seen_ r')
       added.

(** A reader at the start of an input that holds one attrs entry (the
    112 bytes of an attribute and the section of its IDs) followed by
    the one ID 7, with the header fields that say so. *)
Definition state_before_attrs : State :=
  {| this :=
       set_header (fun h =>
         {| hdr_magic := kPerfMagic; hdr_size := sizeof_perf_file_header;
            hdr_attr_size := 128;
            hdr_attrs := {| sec_offset := 0; sec_size := 128 |};
            hdr_data := {| sec_offset := 136; sec_size := 0 |};
            hdr_event_types := empty_section;
            hdr_adds_features := [0; 0; 0; 0] |}) new_reader;
     data :=
       BufferReader
         (encode_perf_event_attr example_writer_env
            {| attr_type := 0; attr_config := 5; sample_type := 3;
               sample_id_all := false; exclude_kernel := false |}
          ++ encode_section {| sec_offset := 128; sec_size := 8 |}
          ++ le_encode 8 7) |}.

(** Run in [s], [c] comes to a [return], leaves the input as it is and
    the cursor at or after the place where it was, within the input. *)
Definition steps_forward {A : Type} (c : M State A) (s : State) : Prop :=
  returns_normally (fst (c s))
  /\ buffer (data (snd (c s))) = buffer (data s)
  /\ offset (data s) <= offset (data (snd (c s))) <= data_size (data s).

(** A reader that has a sample info reader, before a data section of
    two records: a 12-byte record of the unknown type 1000 and an 8-byte
    FINISHED_ROUND record. *)
Definition state_before_data : State :=
  {| this :=
       set_serializer (serializer_with_one_attr false)
       (set_header (fun h =>
         {| hdr_magic := kPerfMagic; hdr_size := sizeof_perf_file_header;
            hdr_attr_size := 128;
            hdr_attrs := empty_section;
            hdr_data := {| sec_offset := 0; sec_size := 20 |};
            hdr_event_types := empty_section;
            hdr_adds_features := [0; 0; 0; 0] |}) new_reader);
     data :=
       BufferReader
         (encode_event_header {| h_type := 1000; h_misc := 0; h_size := 12 |}
          ++ [1; 2; 3; 4]
          ++ encode_event_header {| h_type := PERF_RECORD_FINISHED_ROUND;
                                    h_misc := 0; h_size := 8 |}) |}.

(** A reader that holds one attribute, with config 5, before an event
    types section of one entry for it, named "cycles". *)
Definition state_before_event_types : State :=
  {| this :=
       set_proto
         (set_file_attrs
            [{| attr := {| attr_type := 0; attr_config := 5; sample_type := 3;
                           sample_id_all := false; exclude_kernel := false |};
                ids := [7] |}])
         (set_header (fun h =>
            {| hdr_magic := kPerfMagic; hdr_size := sizeof_perf_file_header;
               hdr_attr_size := 128;
               hdr_attrs := empty_section;
               hdr_data := empty_section;
               hdr_event_types := {| sec_offset := 0; sec_size := 72 |};
               hdr_adds_features := [0; 0; 0; 0] |}) new_reader);
     data :=
       BufferReader
         (le_encode 8 5 ++ [99; 121; 99; 108; 101; 115] ++ repeat 0 58) |}.


(* --------------------------------------------------------------------- *)
(** ** perf_reader.cc: from a protobuf                                    *)
(* --------------------------------------------------------------------- *)

(** The loop of [PerfReader::Deserialize]: a sample info reader for each
    attribute in turn, up to the first for which
    [CreateSampleInfoReader] returns [false]. *)
Fixpoint CreateSampleInfoReaders (F : SampleFormat)
    (attrs : list PerfFileAttr) (sz : PerfSerializer)
  : bool * PerfSerializer :=
  match attrs with
  | [] => (true, sz)
  | fa :: rest =>
      let created := CreateSampleInfoReader F sz fa in
      if fst created then CreateSampleInfoReaders F rest (snd created)
      else (false, snd created)
  end.

(** [event.mutable_header()->set_size(size)]: the field has 32 bits. *)
Definition set_event_size (size : Z) (ev : PerfEvent) : PerfEvent :=
  {| ev_header := {| h_type := h_type (ev_header ev);
                     h_misc := h_misc (ev_header ev);
                     h_size := u32 size |};
     ev_timestamp := ev_timestamp ev;
     ev_fields := ev_fields ev |}.

(** The loop of [PerfReader::PopulateMissingEventSize]: whether it came
    to its end, and the events afterwards. *)
Fixpoint PopulateMissingEventSize_loop (W : WriterEnv) (sz : PerfSerializer)
    (evs : list PerfEvent) : bool * list PerfEvent :=
  match evs with
  | [] => (true, [])
  | ev :: rest =>
      if h_size (ev_header ev) >? 0 then
        let later := PopulateMissingEventSize_loop W sz rest in
        (fst later, ev :: snd later)
      else
        let size := GetEventSize W sz ev in
        if size =? 0 then (false, ev :: rest)
        else
          let later := PopulateMissingEventSize_loop W sz rest in
          (fst later, set_event_size size ev :: snd later)
  end.

(** [PerfReader::PopulateMissingEventSize] *)
Definition PopulateMissingEventSize (W : WriterEnv) : M PerfReader unit :=
  fun r =>
    let filled :=
      PopulateMissingEventSize_loop W (serializer_ r) (events (proto_ r)) in
    (if fst filled then Done tt else Failed,
     set_proto (set_events (snd filled)) r).

(** [PerfReader::Deserialize] *)
Definition Deserialize (E : Env) (W : WriterEnv)
    (perf_data_proto : PerfDataProto) : M PerfReader unit :=
  do* modify (set_proto (fun _ => perf_data_proto)) in
  let* r := get in
  let created :=
    CreateSampleInfoReaders (sample_format E) (file_attrs (proto_ r))
      (serializer_ r) in
  do* modify (set_serializer (snd created)) in
  do* require (fst created) in
  PopulateMissingEventSize W.

(** The event [ev'] is the event [ev] as [PopulateMissingEventSize]
    leaves it when it goes past it. *)
Definition size_filled_in (W : WriterEnv) (sz : PerfSerializer)
    (ev ev' : PerfEvent) : Prop :=
  if h_size (ev_header ev) >? 0 then ev' = ev
  else GetEventSize W sz ev <> 0
       /\ ev' = set_event_size (GetEventSize W sz ev) ev.

(** A model with two attributes that sample the same fields, and two
    events, of which the second has no size yet. *)
Definition proto_with_two_attrs : PerfDataProto :=
  set_events
    [{| ev_header := {| h_type := 3; h_misc := 0; h_size := 16 |};
        ev_timestamp := 0; ev_fields := repeat 0 8 |};
     {| ev_header := {| h_type := 3; h_misc := 0; h_size := 0 |};
        ev_timestamp := 0; ev_fields := repeat 0 8 |}]
    (set_file_attrs [example_file_attr false [7; 8];
                     example_file_attr false [9]] empty_proto).

(** A [WriterEnv] like [example_writer_env], for which the size of an
    event is that of its header and its bytes. *)
Definition sizing_writer_env : WriterEnv :=
  {| aligned_string_length := aligned_string_length example_writer_env;
     encode_perf_event_attr := encode_perf_event_attr example_writer_env;
     GetEventSize := fun _ ev => 8 + Z.of_nat (length (ev_fields ev));
     DeserializeEvent := DeserializeEvent example_writer_env;
     auxtrace_event_size := auxtrace_event_size example_writer_env;
     DeserializeAuxtraceEventTraceData :=
       DeserializeAuxtraceEventTraceData example_writer_env;
     WriteSupportedMetadata := WriteSupportedMetadata example_writer_env |}.


(** The IDs that [ReadAttr] reads for an attribute whose ID section is
    [sec], from the input [B]: its [SeekSet(ids.offset)] and
    [ReadUniqueIDs] with [ids.size / sizeof(u64)] IDs. *)
Definition ids_read_at (B : list Z) (sec : perf_file_section)
  : res (list Z) :=
  fst ((do* SeekSet (sec_offset sec) in
        ReadUniqueIDs (Z.to_nat (sec_size sec / sizeof_id)))
         {| this := new_reader; data := BufferReader B |}).

End Reader.

(* --------------------------------------------------------------------- *)
(** ** The parser's mapping table (perf_parser.cc is not among the sources) *)
(* --------------------------------------------------------------------- *)

Module Parser.

(** [mmap_event] of a MMAP or MMAP2 record, as the parser sees it. *)
Record MMapEvent : Type := {
  pid : Z;
  tid : Z;
  start : Z;
  len : Z;
  pgoff : Z;
  flags : Z;
  filename : string
}.

(** The events the parser acts on: mappings, samples (the process and
    thread of the sample info, and the IP) and all other records. *)
Inductive Event : Type :=
| MMAP (m : MMapEvent)
| SAMPLE (sample_pid sample_tid ip : Z)
| OTHER (record_type : Z).

(** [ParsedEvent::DSOAndOffset] *)
Record DSOAndOffset : Type := {
  dso_name : string;
  dso_offset : Z
}.

(** [ParsedEvent]: the event as rewritten and, for a sample that was
    mapped, where its IP lies. *)
Record ParsedEvent : Type := {
  event : Event;
  dso_and_offset : option DSOAndOffset
}.

(** [PerfParserOptions], the switches the claims are about. *)
Record PerfParserOptions : Type := {
  do_remap : bool;
  combine_mappings : bool;
  deduce_huge_page_mappings : bool;
  (** where remapped kernel addresses start *)
  quasi_kernel_base : Z
}.

(** The process ID that stands for the kernel. *)
Definition kKernelPid : Z := UINT32_MAX.



(** A live mapping of a process, with the start it has after remapping. *)
Record Mapping : Type := {
  m_start : Z;
  m_len : Z;
  m_pgoff : Z;
  m_name : string;
  m_remapped : Z
}.

Definition m_end (m : Mapping) : Z := m_start m + m_len m.

Definition covers (addr : Z) (m : Mapping) : bool :=
  (m_start m <=? addr) && (addr <? m_end m).

(** Modelled from the spec: [MappingTable::insert], section 4.5: "on
    overlap with an existing one the new mapping takes precedence over
    overlapping portions (older range is split/truncated)".  What is left
    of an older mapping on either side of the new range keeps its file and
    its place in the file. *)
Definition cut_out (lo hi : Z) (old : Mapping) : list Mapping :=
  if (m_end old <=? lo) || (hi <=? m_start old) then [old]
  else
    (if m_start old <? lo
     then [{| m_start := m_start old; m_len := lo - m_start old;
              m_pgoff := m_pgoff old; m_name := m_name old;
              m_remapped := m_remapped old |}]
     else [])
    ++
    (if hi <? m_end old
     then [{| m_start := hi; m_len := m_end old - hi;
              m_pgoff := m_pgoff old + (hi - m_start old);
              m_name := m_name old;
              m_remapped := m_remapped old + (hi - m_start old) |}]
     else []).

Definition insert_mapping (new : Mapping) (live : list Mapping)
  : list Mapping :=
  new :: flat_map (cut_out (m_start new) (m_end new)) live.

(** The per-process tables and, per process, the total length of the
    mappings remapped so far. *)
Record MappingTable : Type := {
  live : gmap Z (list Mapping);
  remapped_length : gmap Z Z
}.

Definition empty_table : MappingTable :=
  {| live := ∅; remapped_length := ∅ |}.

Definition mappings_of (t : MappingTable) (p : Z) : list Mapping :=
  default [] (live t !! p).

(** Modelled from the spec: [MappingTable::remap], section 4.5: the new
    start of a mapping is "the running cumulative length of previously
    remapped mappings" of its process, counted from 0, or from the
    quasi-kernel base for the kernel. *)
Definition next_remapped_start (o : PerfParserOptions) (t : MappingTable)
    (p : Z) : Z :=
  (if p =? kKernelPid then quasi_kernel_base o else 0)
  + default 0 (remapped_length t !! p).

(** Modelled from the spec: step 2 of section 4.6, "On MMAP/MMAP2 call
    insert"; a zero-length mapping is rejected. *)
Definition insert (o : PerfParserOptions) (t : MappingTable) (m : MMapEvent)
  : MappingTable :=
  if len m =? 0 then t
  else
    let new := {| m_start := start m; m_len := len m; m_pgoff := pgoff m;
                  m_name := filename m;
                  m_remapped := next_remapped_start o t (pid m) |} in
    {| live := <[pid m := insert_mapping new (mappings_of t (pid m))]>
                 (live t);
       remapped_length :=
         <[pid m := default 0 (remapped_length t !! pid m) + len m]>
           (remapped_length t) |}.

(** Modelled from the spec: [MappingTable::lookup], section 4.5, with the
    order of step 3 of section 4.6: the sample's TID, then its PID, then
    the kernel. *)
Definition lookup (t : MappingTable) (sample_pid sample_tid addr : Z)
  : option Mapping :=
  match List.find (covers addr) (mappings_of t sample_tid) with
  | Some m => Some m
  | None =>
      match List.find (covers addr) (mappings_of t sample_pid) with
      | Some m => Some m
      | None => List.find (covers addr) (mappings_of t kKernelPid)
      end
  end.

(** [offset_in_file = mapping.file_offset + (addr - mapping.start)] *)
Definition offset_in_file (m : Mapping) (addr : Z) : Z :=
  m_pgoff m + (addr - m_start m).

(** The next and the previous mapping of process [p] in a list of events
    (the list of the events before is kept newest first). *)
Definition first_mapping_of (p : Z) (evs : list Event) : option MMapEvent :=
  List.find (fun m => pid m =? p)
    (flat_map (fun e => match e with MMAP m => [m] | _ => [] end) evs).

Definition with_file (name : string) (off : Z) (m : MMapEvent) : MMapEvent :=
  {| pid := pid m; tid := tid m; start := start m; len := len m;
     pgoff := off; flags := flags m; filename := name |}.

(** Modelled from the spec: [deduce_huge_pages], section 4.5, for one
    anonymous mapping with its neighbours in the same process. *)
Definition deduce_one (prev next : option MMapEvent) (anon : MMapEvent)
  : MMapEvent :=
  match prev, next with
  | Some p, Some n =>
      if String.eqb (filename p) (filename n)
         && (start p + len p =? start anon)
         && (start anon + len anon =? start n)
         && (pgoff p + len p + len anon =? pgoff n)
      then with_file (filename p) (pgoff p + len p) anon
      else anon
  | None, Some n =>
      if start anon + len anon =? start n
      then with_file (filename n) (u64 (pgoff n - len anon)) anon
      else anon
  | _, None => anon
  end.

Fixpoint deduce_huge_pages_from (before : list Event) (evs : list Event)
  : list Event :=
  match evs with
  | [] => []
  | MMAP m :: rest =>
      let m' :=
        if String.eqb (filename m) "//anon"
        then deduce_one (first_mapping_of (pid m) before)
                        (first_mapping_of (pid m) rest) m
        else m in
      MMAP m' :: deduce_huge_pages_from (MMAP m :: before) rest
  | e :: rest => e :: deduce_huge_pages_from before rest
  end.

Definition deduce_huge_pages (evs : list Event) : list Event :=
  deduce_huge_pages_from [] evs.

(** Modelled from the spec: [combine_adjacent], section 4.5: a mapping is
    merged into the one before it in its process "with identical filename
    and flags when new.start == old.start + old.length AND
    new.file_offset == old.file_offset + old.length". *)
Definition combinable (old new : MMapEvent) : bool :=
  String.eqb (filename old) (filename new)
  && (flags old =? flags new)
  && (start new =? start old + len old)
  && (pgoff new =? pgoff old + len old).

Definition extend (old new : MMapEvent) : MMapEvent :=
  {| pid := pid old; tid := tid old; start := start old;
     len := len old + len new; pgoff := pgoff old; flags := flags old;
     filename := filename old |}.

(** [new] merged into the latest mapping of its process in [done] (the
    events already passed, newest first), when the two combine. *)
Fixpoint merge_into_latest (new : MMapEvent) (done : list Event)
  : option (list Event) :=
  match done with
  | [] => None
  | MMAP old :: earlier =>
      if pid old =? pid new then
        if combinable old new then Some (MMAP (extend old new) :: earlier)
        else None
      else option_map (cons (MMAP old)) (merge_into_latest new earlier)
  | e :: earlier => option_map (cons e) (merge_into_latest new earlier)
  end.

Fixpoint combine_adjacent_from (done : list Event) (evs : list Event)
  : list Event :=
  match evs with
  | [] => rev done
  | MMAP m :: rest =>
      match merge_into_latest m done with
      | Some done' => combine_adjacent_from done' rest
      | None => combine_adjacent_from (MMAP m :: done) rest
      end
  | e :: rest => combine_adjacent_from (e :: done) rest
  end.

Definition combine_adjacent (evs : list Event) : list Event :=
  combine_adjacent_from [] evs.

(** The IP that a remapping parse gives a sample that lies in no mapping.
    The specification does not say what it is;
    [PerfParserTest.MapsSampleEventIp] expects the IP with bit 63 set
    (0x1c2bad becomes 0x80000000001c2bad). *)
Definition unmapped_ip (ip : Z) : Z := Z.lor ip 0x8000000000000000.

(** Modelled from the spec: the walk of section 4.6 over the events, with
    the remapping of section 4.5 when it is enabled.  A mapping is inserted
    and, when remapping, gets its new start; "the kernel MMAP's
    file_offset is zeroed after remap", the kernel being the process
    [kKernelPid] of section 3, as it is for [lookup] and for
    [next_remapped_start].  A sample is resolved, and when remapping its
    IP is "rewritten using the original-to-remapped transform" of the
    mapping it lies in, or becomes [unmapped_ip] when it lies in none. *)
Definition parse_event (o : PerfParserOptions) (t : MappingTable)
    (e : Event) : MappingTable * ParsedEvent :=
  match e with
  | MMAP m =>
      let m' :=
        if do_remap o then
          {| pid := pid m; tid := tid m;
             start := next_remapped_start o t (pid m); len := len m;
             pgoff := if pid m =? kKernelPid then 0 else pgoff m;
             flags := flags m; filename := filename m |}
        else m in
      (insert o t m, {| event := MMAP m'; dso_and_offset := None |})
  | SAMPLE p td ip =>
      match lookup t p td ip with
      | Some m =>
          (t, {| event :=
                   SAMPLE p td
                     (if do_remap o then m_remapped m + (ip - m_start m)
                      else ip);
                 dso_and_offset :=
                   Some {| dso_name := m_name m;
                           dso_offset := offset_in_file m ip |} |})
      | None =>
          (t, {| event :=
                   SAMPLE p td (if do_remap o then unmapped_ip ip else ip);
                 dso_and_offset := None |})
      end
  | OTHER _ => (t, {| event := e; dso_and_offset := None |})
  end.

Fixpoint parse_events (o : PerfParserOptions) (t : MappingTable)
    (evs : list Event) : list ParsedEvent :=
  match evs with
  | [] => []
  | e :: rest =>
      let '(t', parsed) := parse_event o t e in
      parsed :: parse_events o t' rest
  end.

(** Modelled from the spec: [PerfParser::ParseRawEvents], with "deduce
    huge pages, then combine adjacent, then remap" as the order of the
    optional passes. *)
Definition ParseRawEvents (o : PerfParserOptions) (evs : list Event)
  : list ParsedEvent :=
  let evs1 := if deduce_huge_page_mappings o then deduce_huge_pages evs
              else evs in
  let evs2 := if combine_mappings o then combine_adjacent evs1 else evs1 in
  parse_events o empty_table evs2.

(** [ExampleMmapEvent(pid, start, len, pgoff, filename, ...)] of the
    tests. *)
Definition ExampleMmapEvent (p st ln off : Z) (name : string) : Event :=
  MMAP {| pid := p; tid := p; start := st; len := ln; pgoff := off;
          flags := 0; filename := name |}.

Definition default_options : PerfParserOptions :=
  {| do_remap := false; combine_mappings := true;
     deduce_huge_page_mappings := true; quasi_kernel_base := 0 |}.

Definition remap_options : PerfParserOptions :=
  {| do_remap := true; combine_mappings := true;
     deduce_huge_page_mappings := true; quasi_kernel_base := 0 |}.


(** The mappings and the sample of [PerfParserTest.MapsSampleEventIp] that
    C4 is about. *)
Definition maps_sample_event_ip : list Event :=
  [ ExampleMmapEvent 1001 0x1c1000 0x1000 0 "/usr/lib/foo.so";
    ExampleMmapEvent 1001 0x1c3000 0x2000 0x2000 "/usr/lib/bar.so";
    SAMPLE 1001 1001 0x1c3fff ].

(** All fourteen events of [PerfParserTest.MapsSampleEventIp] (the MMAP2
    records as mappings like the MMAP ones). *)
Definition maps_sample_event_ip_events : list Event :=
  [ ExampleMmapEvent 1001 0x1c1000 0x1000 0 "/usr/lib/foo.so";
    ExampleMmapEvent 1001 0x1c3000 0x2000 0x2000 "/usr/lib/bar.so";
    ExampleMmapEvent 1002 0x2c1000 0x2000 0 "/usr/lib/baz.so";
    ExampleMmapEvent 1002 0x2c3000 0x1000 0x3000 "/usr/lib/xyz.so";
    SAMPLE 1001 1001 0x1c1000;
    SAMPLE 1001 1001 0x1c100a;
    SAMPLE 1001 1001 0x1c3fff;
    SAMPLE 1001 1001 0x1c2bad;
    SAMPLE 1002 1002 0x2c100a;
    SAMPLE 1002 1002 0x2c5bad;
    SAMPLE 1002 1002 0x2c300b;
    SAMPLE 1002 1002 0x2c400b;
    ExampleMmapEvent 1002 0x2c4000 0x1000 0 "/usr/lib/new.so";
    SAMPLE 1002 1002 0x2c400b ].


(** The events of [PerfParserTest.MmapCoversEntireAddressSpace]. *)
Definition mmap_covers_entire_address_space : list Event :=
  [ ExampleMmapEvent kKernelPid 0 UINT64_MAX 0 "[kernel.kallsyms]_text";
    ExampleMmapEvent 1234 0x7f008e000000 0x2000000 0 "/usr/lib/libfoo.so";
    SAMPLE 1234 1235 0x7f008e123456;
    SAMPLE 1234 1235 0x8000819e;
    SAMPLE 1234 1235 0x7f008fdeadbe;
    SAMPLE 1234 1235 0xffffffff8100cafe ].

(** The events of [PerfParserTest.HugePagesMappings]. *)
Definition huge_pages_mappings : list Event :=
  [ ExampleMmapEvent 1234 0x40000000 0x18000 0 "/usr/lib/libfoo.so";
    SAMPLE 1234 1235 0x40000100;
    ExampleMmapEvent 1234 0x40018000 0x1e8000 0 "/opt/google/chrome/chrome";
    ExampleMmapEvent 1234 0x40200000 0x1c00000 0 "//anon";
    ExampleMmapEvent 1234 0x41e00000 0x4000000 0x1de8000
      "/opt/google/chrome/chrome";
    ExampleMmapEvent 2345 0x45e00000 0x1e00000 0 "//anon";
    ExampleMmapEvent 2345 0x47c00000 0x4000000 0x1e00000
      "/opt/google/chrome/chrome";
    SAMPLE 1234 1235 0x40018300;
    SAMPLE 1234 1235 0x40020400;
    SAMPLE 1234 1235 0x41e20500;
    SAMPLE 1234 1235 0x40000700;
    SAMPLE 2345 2346 0x45e01300;
    SAMPLE 2345 2346 0x45e02f00 ].

End Parser.

(* ===================================================================== *)
(** * Part II. Lemmas and theorems                                        *)
(* ===================================================================== *)

(** ** C1: the positions of the event ID *)

Section EventIdPositions.
Import Kernel Serializer.
Variable F : SampleFormat.

Lemma UpdateEventIdPositions_stores (s s' : PerfSerializer)
    (a : perf_event_attr) :
  UpdateEventIdPositions F s a = (true, s') ->
  sample_event_id_pos_ s' = new_sample_event_id_pos F (sample_type a) /\
  other_event_id_pos_ s' = new_other_event_id_pos F (sample_type a).
Proof.
  unfold UpdateEventIdPositions.
  destruct (sample_event_id_pos_ s =? Uninitialized) eqn:Hs; cbn [negb].
  - destruct (other_event_id_pos_ s =? Uninitialized) eqn:Ho; cbn.
    + rewrite Ho. intros [= <-]. cbn. split; reflexivity.
    + rewrite Ho.
      destruct (new_other_event_id_pos F (sample_type a)
                =? other_event_id_pos_ s) eqn:He; cbn.
      * intros [= <-]. cbn. apply Z.eqb_eq in He. split; congruence.
      * discriminate.
  - destruct (new_sample_event_id_pos F (sample_type a)
              =? sample_event_id_pos_ s) eqn:Hn; cbn.
    + apply Z.eqb_eq in Hn.
      destruct (other_event_id_pos_ s =? Uninitialized) eqn:Ho.
      * intros [= <-]. cbn. split; congruence.
      * destruct (new_other_event_id_pos F (sample_type a)
                  =? other_event_id_pos_ s) eqn:He; cbn.
        -- intros [= <-]. apply Z.eqb_eq in He. split; congruence.
        -- discriminate.
    + discriminate.
Qed.

Lemma UpdateEventIdPositions_first (m : reader_map) (a : perf_event_attr) :
  fst (UpdateEventIdPositions F
         {| sample_info_reader_map_ := m;
            sample_event_id_pos_ := Uninitialized;
            other_event_id_pos_ := Uninitialized |} a) = true.
Proof. reflexivity. Qed.

Lemma new_sample_event_id_pos_count (st : Z) :
  has_bits st (PERF_SAMPLE_IDENTIFIER F) = false ->
  has_bits st (PERF_SAMPLE_ID F) = true ->
  new_sample_event_id_pos F st =
  count_present st [PERF_SAMPLE_IP F; PERF_SAMPLE_TID F;
                    PERF_SAMPLE_TIME F; PERF_SAMPLE_ADDR F].
Proof.
  intros Hi Hd. unfold new_sample_event_id_pos, count_present.
  rewrite Hi, Hd. cbn [fold_right]. lia.
Qed.

Lemma new_other_event_id_pos_count (st : Z) :
  has_bits st (PERF_SAMPLE_IDENTIFIER F) = false ->
  has_bits st (PERF_SAMPLE_ID F) = true ->
  new_other_event_id_pos F st =
  1 + count_present st [PERF_SAMPLE_CPU F; PERF_SAMPLE_STREAM_ID F].
Proof.
  intros Hi Hd. unfold new_other_event_id_pos, count_present.
  rewrite Hi, Hd. cbn [fold_right]. lia.
Qed.

(** C1, as amended.  Whenever [UpdateEventIdPositions] accepts an
    attribute, the serializer's two ID positions are the ones computed from
    that attribute's [sample_type] by these rules in order: with
    SAMPLE_IDENTIFIER set, the position within a SAMPLE record is 0 and the
    position counted from the end of other records is 1; else with
    SAMPLE_ID set, the SAMPLE position is the number of IP, TID, TIME and
    ADDR present (the count itself, with no 1 added) and the other
    position is 1 plus the number of CPU and STREAM_ID present; else both
    are [NotPresent]. *)
Theorem event_id_positions_follow_sample_type (s s' : PerfSerializer)
    (a : perf_event_attr) :
  UpdateEventIdPositions F s a = (true, s') ->
  let st := sample_type a in
  (has_bits st (PERF_SAMPLE_IDENTIFIER F) = true ->
     sample_event_id_pos_ s' = 0 /\ other_event_id_pos_ s' = 1) /\
  (has_bits st (PERF_SAMPLE_IDENTIFIER F) = false ->
   has_bits st (PERF_SAMPLE_ID F) = true ->
     sample_event_id_pos_ s' =
       count_present st [PERF_SAMPLE_IP F; PERF_SAMPLE_TID F;
                         PERF_SAMPLE_TIME F; PERF_SAMPLE_ADDR F] /\
     other_event_id_pos_ s' =
       1 + count_present st [PERF_SAMPLE_CPU F; PERF_SAMPLE_STREAM_ID F]) /\
  (has_bits st (PERF_SAMPLE_IDENTIFIER F) = false ->
   has_bits st (PERF_SAMPLE_ID F) = false ->
     sample_event_id_pos_ s' = NotPresent /\
     other_event_id_pos_ s' = NotPresent).
Proof.
  intros H st. apply UpdateEventIdPositions_stores in H as [-> ->].
  fold st. repeat split.
  - unfold new_sample_event_id_pos. now rewrite H.
  - unfold new_other_event_id_pos. now rewrite H.
  - now apply new_sample_event_id_pos_count.
  - now apply new_other_event_id_pos_count.
  - unfold new_sample_event_id_pos. now rewrite H, H0.
  - unfold new_other_event_id_pos. now rewrite H, H0.
Qed.

End EventIdPositions.

(** An attribute sampling IP, TID, ID and CPU, on a new serializer: the ID
    is the third u64 of a SAMPLE record (position 2) and the second from
    the end of other records. *)
Lemma event_id_positions_witness :
  let a := {| Serializer.attr_type := 0; Serializer.attr_config := 0;
              Serializer.sample_type := 1 + 2 + 64 + 128;
              Serializer.sample_id_all := true;
              Serializer.exclude_kernel := false |} in
  let s' := snd (Serializer.UpdateEventIdPositions
                   Kernel.linux_sample_format Serializer.new_serializer a) in
  Serializer.sample_event_id_pos_ s' = 2 /\
  Serializer.other_event_id_pos_ s' = 2.
Proof.
  intros a s'.
  destruct (event_id_positions_follow_sample_type
              Kernel.linux_sample_format Serializer.new_serializer s' a
              eq_refl) as (_ & H & _).
  exact (H eq_refl eq_refl).
Defined.

(** C1, as stated, fails: for an attribute sampling IP, TID and ID the
    code puts the ID of a SAMPLE record at position 2, where the claim's
    [1 + count(IP, TID, TIME, ADDR present)] gives 3. *)
Lemma sample_id_pos_is_not_one_plus_count :
  let a := {| Serializer.attr_type := 0; Serializer.attr_config := 0;
              Serializer.sample_type := 1 + 2 + 64;
              Serializer.sample_id_all := true;
              Serializer.exclude_kernel := false |} in
  let r := Serializer.UpdateEventIdPositions Kernel.linux_sample_format
             Serializer.new_serializer a in
  fst r = true /\
  Serializer.sample_event_id_pos_ (snd r) = 2 /\
  Serializer.spec_sample_id_pos Kernel.linux_sample_format
    (Serializer.sample_type a) = 3 /\
  Serializer.sample_event_id_pos_ (snd r) <>
  Serializer.spec_sample_id_pos Kernel.linux_sample_format
    (Serializer.sample_type a).
Proof. cbv zeta. repeat split. vm_compute. discriminate. Qed.

(** ** C7: sorting the events by time *)

Section StableSort.
Context {A : Type} (key : A -> Z).

Lemma stable_insert_perm (x : A) (l : list A) :
  Permutation (x :: l)
    (Reader.stable_insert (fun a b => key a <? key b) x l).
Proof.
  induction l as [|y l IH]; cbn.
  - apply Permutation_refl.
  - destruct (key y <? key x).
    + eapply Permutation_trans; [apply perm_swap|].
      now apply perm_skip.
    + apply Permutation_refl.
Qed.

Lemma stable_sort_perm (l : list A) :
  Permutation l (Reader.stable_sort (fun a b => key a <? key b) l).
Proof.
  induction l as [|x l IH]; cbn.
  - apply perm_nil.
  - eapply Permutation_trans; [|apply stable_insert_perm].
    now apply perm_skip.
Qed.

Lemma stable_insert_sorted (x : A) (l : list A) :
  StronglySorted (fun a b => key a <= key b) l ->
  StronglySorted (fun a b => key a <= key b)
    (Reader.stable_insert (fun a b => key a <? key b) x l).
Proof.
  induction 1 as [|y l Hs IH Hy]; cbn.
  - constructor; constructor.
  - destruct (key y <? key x) eqn:Hlt.
    + apply Z.ltb_lt in Hlt. constructor; [exact IH|].
      eapply Permutation_Forall; [apply stable_insert_perm|].
      constructor; [lia|exact Hy].
    + apply Z.ltb_ge in Hlt. constructor.
      * now constructor.
      * constructor; [exact Hlt|].
        eapply List.Forall_impl; [|exact Hy]. cbn. intros; lia.
Qed.

Lemma stable_sort_sorted (l : list A) :
  StronglySorted (fun a b => key a <= key b)
    (Reader.stable_sort (fun a b => key a <? key b) l).
Proof.
  induction l as [|x l IH]; cbn.
  - constructor.
  - now apply stable_insert_sorted.
Qed.

(** Inserting leaves the elements of any one key in the order of
    [x :: l]: what the insertion steps over is strictly smaller than [x]. *)
Lemma stable_insert_filter (k : Z) (x : A) (l : list A) :
  List.filter (fun e => key e =? k)
    (Reader.stable_insert (fun a b => key a <? key b) x l) =
  List.filter (fun e => key e =? k) (x :: l).
Proof.
  induction l as [|y l IH]; [reflexivity|].
  cbn [Reader.stable_insert].
  destruct (key y <? key x) eqn:Hlt; [|reflexivity].
  apply Z.ltb_lt in Hlt.
  cbn [List.filter] in *. rewrite IH.
  destruct (key y =? k) eqn:Hy, (key x =? k) eqn:Hx; try reflexivity.
  apply Z.eqb_eq in Hy, Hx. lia.
Qed.

Lemma stable_sort_filter (k : Z) (l : list A) :
  List.filter (fun e => key e =? k)
    (Reader.stable_sort (fun a b => key a <? key b) l) =
  List.filter (fun e => key e =? k) l.
Proof.
  induction l as [|x l IH]; [reflexivity|].
  cbn [Reader.stable_sort fold_right].
  rewrite stable_insert_filter. cbn [List.filter].
  unfold Reader.stable_sort in IH. now rewrite IH.
Qed.

Lemma StronglySorted_nth_error (R : A -> A -> Prop) (l : list A) :
  StronglySorted R l ->
  forall (i j : nat) (a b : A),
    (i < j)%nat -> nth_error l i = Some a -> nth_error l j = Some b ->
    R a b.
Proof.
  induction 1 as [|x l Hs IH Hx]; intros i j a b Hij Ha Hb.
  - destruct i; discriminate.
  - destruct j as [|j]; [lia|]. cbn in Hb.
    destruct i as [|i]; cbn in Ha.
    + injection Ha as <-. rewrite List.Forall_forall in Hx.
      apply Hx. eapply nth_error_In; eassumption.
    + eapply (IH i j); [lia|eassumption..].
Qed.

End StableSort.

Section SortEvents.
Import Kernel Serializer Reader.
Variable F : SampleFormat.

(** C7.  [MaybeSortEventsByTime] touches nothing but the order of the
    events, and that only when every attribute's [sample_type] has the TIME
    bit: if one attribute lacks it, the reader is returned as it is (the
    function has no failure result).  When every attribute has the bit, the
    events are a permutation of the old ones in which every earlier event
    has a timestamp no greater than every later one, and the events of any
    one timestamp stand in the order they had before. *)
Theorem sort_events_by_time_when_all_attrs_have_time (r : PerfReader) :
  let r' := MaybeSortEventsByTime F r in
  let has_time := fun fa : PerfFileAttr =>
    has_bits (sample_type (attr fa)) (PERF_SAMPLE_TIME F) in
  (forall fa, In fa (file_attrs (proto_ r)) -> has_time fa = false ->
     r' = r) /\
  (r' = set_proto (set_events (events (proto_ r'))) r) /\
  ((forall fa, In fa (file_attrs (proto_ r)) -> has_time fa = true) ->
     Permutation (events (proto_ r)) (events (proto_ r')) /\
     (forall (i j : nat) (e1 e2 : PerfEvent),
        (i < j)%nat ->
        nth_error (events (proto_ r')) i = Some e1 ->
        nth_error (events (proto_ r')) j = Some e2 ->
        ev_timestamp e1 <= ev_timestamp e2) /\
     (forall t : Z,
        List.filter (fun e => ev_timestamp e =? t) (events (proto_ r')) =
        List.filter (fun e => ev_timestamp e =? t) (events (proto_ r)))).
Proof.
  intros r' has_time. subst r'. unfold MaybeSortEventsByTime.
  destruct (forallb _ (file_attrs (proto_ r))) eqn:Hall.
  - rewrite forallb_forall in Hall. split; [|split].
    + intros fa Hin Hno. apply Hall in Hin. unfold has_time in Hno.
      congruence.
    + destruct r as [p h sz x s1 s2 s3 s4]. destruct p. reflexivity.
    + intros _. destruct r as [p h sz x s1 s2 s3 s4]. destruct p. cbn.
      unfold CompareEventTimes. split; [|split].
      * apply (stable_sort_perm ev_timestamp).
      * apply (StronglySorted_nth_error
                 (fun a b => ev_timestamp a <= ev_timestamp b)).
        apply (stable_sort_sorted ev_timestamp).
      * intros t. apply (stable_sort_filter ev_timestamp).
  - split; [|split].
    + reflexivity.
    + destruct r as [p h sz x s1 s2 s3 s4]. destruct p. reflexivity.
    + intros Hall'. exfalso.
      assert (forallb (fun fa => has_bits (sample_type (attr fa))
                                   (PERF_SAMPLE_TIME F))
                (file_attrs (proto_ r)) = true) as Habs
        by (apply forallb_forall; exact Hall').
      congruence.
Qed.

End SortEvents.

(** ** C9 and C10: the empty input and the attribute table *)

Section NoDivisionByZero.
Context {S : Type}.

Lemma ndz_ret {A : Type} (a : A) : never_divides_by_zero (@ret S A a).
Proof. intros s. discriminate. Qed.

Lemma ndz_failed {A : Type} : never_divides_by_zero (@failed S A).
Proof. intros s. discriminate. Qed.

Lemma ndz_get : never_divides_by_zero (@get S).
Proof. intros s. discriminate. Qed.

Lemma ndz_modify (f : S -> S) : never_divides_by_zero (modify f).
Proof. intros s. discriminate. Qed.

Lemma ndz_require (b : bool) : never_divides_by_zero (@require S b).
Proof. intros s. destruct b; discriminate. Qed.

Lemma ndz_CHECK (b : bool) : never_divides_by_zero (@CHECK S b).
Proof. intros s. destruct b; discriminate. Qed.

Lemma ndz_bind {A B : Type} (c : M S A) (k : A -> M S B) :
  never_divides_by_zero c ->
  (forall a, never_divides_by_zero (k a)) ->
  never_divides_by_zero (bind c k).
Proof.
  intros Hc Hk s. unfold bind. specialize (Hc s).
  destruct (c s) as [[a| |e] s']; cbn in *.
  - apply Hk.
  - discriminate.
  - intros [= ->]. now apply Hc.
Qed.

Lemma ndz_repeatM (n : nat) (c : M S unit) :
  never_divides_by_zero c -> never_divides_by_zero (repeatM n c).
Proof.
  intros Hc. induction n as [|n IH]; cbn.
  - apply ndz_ret.
  - apply ndz_bind; [exact Hc|intros _; exact IH].
Qed.

End NoDivisionByZero.

Create HintDb ndz.
#[local] Hint Resolve ndz_ret ndz_failed ndz_get ndz_modify ndz_require
  ndz_CHECK ndz_repeatM : ndz.

Ltac ndz_step :=
  first [ apply ndz_bind; [|intros ?]
        | solve [auto with ndz]
        | match goal with
          | |- never_divides_by_zero (if ?b then _ else _) => destruct b
          | |- never_divides_by_zero (match ?x with _ => _ end) =>
              destruct x
          end ].

Section AttrsSection.
Import Kernel Serializer Reader.
Variable E : Env.

Lemma ndz_SeekSet (off : Z) : never_divides_by_zero (SeekSet off).
Proof.
  intros s. unfold SeekSet.
  destruct ((0 <=? off) && (off <=? data_size (data s))); discriminate.
Qed.

Lemma ndz_ReadData (n : Z) : never_divides_by_zero (ReadData n).
Proof.
  intros s. unfold ReadData.
  destruct ((0 <=? n) && (offset (data s) + n <=? data_size (data s)));
    discriminate.
Qed.

#[local] Hint Resolve ndz_SeekSet ndz_ReadData : ndz.

Lemma ndz_ReadUint (n : nat) : never_divides_by_zero (ReadUint n).
Proof. unfold ReadUint. repeat ndz_step. Qed.

Lemma ndz_skip_forward (n : Z) : never_divides_by_zero (skip_forward n).
Proof. unfold skip_forward. repeat ndz_step. Qed.

Lemma ndz_ReadPerfFileSection : never_divides_by_zero ReadPerfFileSection.
Proof. unfold ReadPerfFileSection. repeat ndz_step. Qed.

#[local] Hint Resolve ndz_ReadUint ndz_skip_forward ndz_ReadPerfFileSection : ndz.

Lemma ndz_ReadUniqueIDs (n : nat) : never_divides_by_zero (ReadUniqueIDs n).
Proof.
  induction n as [|n IH]; cbn [ReadUniqueIDs].
  - auto with ndz.
  - unfold ReadUint64. repeat ndz_step.
Qed.

Lemma ndz_ReadEventAttr : never_divides_by_zero (ReadEventAttr E).
Proof. unfold ReadEventAttr, ReadUint32. repeat ndz_step. Qed.

Lemma ndz_AddPerfFileAttr (fa : PerfFileAttr) :
  never_divides_by_zero (AddPerfFileAttr E fa).
Proof. unfold AddPerfFileAttr. repeat ndz_step. Qed.

#[local] Hint Resolve ndz_ReadUniqueIDs ndz_ReadEventAttr ndz_AddPerfFileAttr : ndz.

Lemma ndz_ReadAttr : never_divides_by_zero (ReadAttr E).
Proof. unfold ReadAttr. repeat ndz_step. Qed.

(** C10.  [ReadAttrsSection] returns [false], leaving the reader and the
    cursor as they were, when the header's [attr_size] is zero; and
    whatever the header says, neither the division
    [attrs.size / attr_size] nor anything else in the function divides by
    zero. *)
Theorem ReadAttrsSection_never_divides_by_zero (s : State) :
  (hdr_attr_size (header_ (this s)) = 0 ->
     ReadAttrsSection E s = (Failed, s)) /\
  never_divides_by_zero (ReadAttrsSection E).
Proof.
  split.
  - intros H0. unfold ReadAttrsSection, bind, get. now rewrite H0.
  - unfold ReadAttrsSection. apply ndz_bind; [auto with ndz|]. intros s0.
    destruct (hdr_attr_size (header_ (this s0)) =? 0) eqn:Hz;
      [auto with ndz|].
    apply ndz_bind.
    + intros s1. unfold udiv. rewrite Hz. discriminate.
    + intros num_attrs. apply ndz_bind; [auto with ndz|]. intros _.
      apply ndz_repeatM, ndz_ReadAttr.
Qed.

(** C9.  On a zero-length input [ReadFromData] returns [false] at once:
    the reader, its header and the cursor are left untouched, whatever
    state they are in (even one in which [ReadHeader] would stop on its
    [CHECK]), so no header parsing has taken place.  The same holds for
    [ReadFromPointer], [ReadFromString] and [ReadFromVector] on an empty
    buffer, and a new reader's model is still empty afterwards. *)
Theorem ReadFromData_rejects_empty_input (r : PerfReader) :
  (forall s : State, data_size (data s) = 0 ->
     ReadFromData E s = (Failed, s)) /\
  ReadFromPointer E r [] = (Failed, r) /\
  ReadFromString E r [] = (Failed, r) /\
  ReadFromVector E r [] = (Failed, r) /\
  proto_ (snd (ReadFromPointer E new_reader [])) = empty_proto.
Proof.
  assert (forall s : State, data_size (data s) = 0 ->
            ReadFromData E s = (Failed, s)) as H.
  { intros s H0. unfold ReadFromData, bind, get. now rewrite H0. }
  repeat split; try exact H; reflexivity.
Qed.

End AttrsSection.

(** A state with an empty buffer whose cursor is not at 0: [ReadHeader]
    would abort on [CHECK_EQ(0U, data->Tell())], [ReadFromData] returns
    [false] before it gets there. *)
Example ReadFromData_empty_before_ReadHeader :
  let s := {| Reader.this := Reader.new_reader;
              Reader.data := {| Reader.buffer := []; Reader.offset := 1;
                                Reader.is_cross_endian := false |} |} in
  fst (Reader.ReadHeader s) = Crashed CheckFailed /\
  forall E, Reader.ReadFromData E s = (Failed, s).
Proof. split; reflexivity. Qed.

(** ** Runs that succeed

    What a run that ended in [Done] went through, step by step. *)

Section Runs.
Context {S : Type}.

Lemma bind_Done_inv {A B : Type} (c : M S A) (k : A -> M S B)
    (s s' : S) (b : B) :
  bind c k s = (Done b, s') ->
  exists (a : A) (s1 : S), c s = (Done a, s1) /\ k a s1 = (Done b, s').
Proof.
  unfold bind. destruct (c s) as [[a| |e] s1]; try discriminate.
  intros H. now exists a, s1.
Qed.

Lemma require_Done (b : bool) (s s' : S) (u : unit) :
  require b s = (Done u, s') -> b = true /\ s' = s.
Proof. destruct b; cbn; [intros [= _ <-]; auto | discriminate]. Qed.

Lemma get_Done (s a s' : S) : get s = (Done a, s') -> a = s /\ s' = s.
Proof. intros [= <- <-]. auto. Qed.

Lemma CHECK_Done (b : bool) (s s' : S) (u : unit) :
  CHECK b s = (Done u, s') -> b = true /\ s' = s.
Proof. destruct b; cbn; [intros [= _ <-]; auto | discriminate]. Qed.

Lemma modify_Done (f : S -> S) (s s' : S) (u : unit) :
  modify f s = (Done u, s') -> s' = f s.
Proof. now intros [= _ <-]. Qed.

End Runs.

Tactic Notation "inv_bind" hyp(H) "as" ident(a) ident(s) ident(Ha) :=
  apply bind_Done_inv in H as (a & s & Ha & H).

Ltac inv_get H :=
  let a := fresh "a" in
  let s := fresh "s" in
  let Ha := fresh "Hrun" in
  apply bind_Done_inv in H as (a & s & Ha & H);
  apply get_Done in Ha as [-> ->].

Tactic Notation "inv_CHECK" hyp(H) "as" ident(Ha) :=
  let a := fresh "a" in
  let s := fresh "s" in
  apply bind_Done_inv in H as (a & s & Ha & H);
  apply CHECK_Done in Ha as [Ha ->].

Tactic Notation "inv_require" hyp(H) "as" ident(Ha) :=
  let a := fresh "a" in
  let s := fresh "s" in
  apply bind_Done_inv in H as (a & s & Ha & H);
  apply require_Done in Ha as [Ha ->].

(** ** C8: the size checks on an event record *)

Section EventSizeChecks.
Import Kernel Serializer Reader.
Variable E : Env.

(** C8, as amended.  For a record of a supported type: (1) when
    [header.size] is below the type's fixed payload size the read returns
    [false]; (2) when the type carries no sample info and the record is not
    an MMAP or MMAP2 flagged PROC_MAP_PARSE_TIMEOUT, a read that succeeds
    had [header.size] equal to the fixed plus the variable payload size
    (the latter computed on the bytes read after the header);
    (3) a flagged MMAP or MMAP2 record of at least the fixed size is only
    skipped, whatever its variable part.  A record of an unsupported type
    is only skipped too. *)
Theorem event_record_size_checks (header : perf_event_header) (s : State) :
  let ty := h_type header in
  let K := records E in
  (IsSupportedKernelEventType K ty || IsSupportedUserEventType ty = true ->
   (forall fixed : Z,
      GetEventDataFixedPayloadSize E ty = Some fixed ->
      h_size header < fixed ->
      fst (ReadNonHeaderEventDataWithoutHeader E header s) = Failed) /\
   (ContainsSampleInfo K (IsSupportedEventType E) (serializer_ (this s)) ty
      = false ->
    IsProcMapTimeoutMmap K header = false ->
    forall read_size : Z,
      fst (ReadNonHeaderEventDataWithoutHeader E header s) = Done read_size ->
      exists (fixed variable : Z) (bytes : list Z),
        GetEventDataFixedPayloadSize E ty = Some fixed /\
        fst (ReadData (u64 (h_size header - sizeof_perf_event_header)) s)
          = Done bytes /\
        GetEventDataVariablePayloadSize E
          (let event := {| e_header := header; e_data := bytes |} in
           if is_cross_endian (data s) then swap_fixed_payload E event
           else event)
          (u64 (h_size header - fixed)) = Some variable /\
        h_size header = fixed + variable) /\
   (IsProcMapTimeoutMmap K header = true ->
    SampleInfoReaderAvailable E (serializer_ (this s)) = true ->
    forall fixed : Z,
      GetEventDataFixedPayloadSize E ty = Some fixed ->
      fixed <= h_size header ->
      ReadNonHeaderEventDataWithoutHeader E header s
      = skip_record header s)) /\
  (IsSupportedKernelEventType K ty || IsSupportedUserEventType ty = false ->
   ReadNonHeaderEventDataWithoutHeader E header s = skip_record header s).
Proof.
  intros ty K. subst ty K. split.
  - intros Hsup.
    assert (negb (IsSupportedKernelEventType (records E) (h_type header))
            && negb (IsSupportedUserEventType (h_type header)) = false)
      as Hns by (rewrite <- negb_orb, Hsup; reflexivity).
    split; [|split].
    + intros fixed Hf Hlt.
      unfold ReadNonHeaderEventDataWithoutHeader. rewrite Hns.
      unfold bind at 1, get. unfold bind at 1.
      destruct (SampleInfoReaderAvailable E (serializer_ (this s)));
        [|reflexivity].
      cbn [require ret]. rewrite Hf. unfold bind at 1.
      assert ((h_size header <? fixed) = true) as -> by now apply Z.ltb_lt.
      reflexivity.
    + intros Hno Hnt read_size Hrun.
      destruct (ReadNonHeaderEventDataWithoutHeader E header s)
        as [r sf] eqn:Hr.
      cbn in Hrun. subst r.
      unfold ReadNonHeaderEventDataWithoutHeader in Hr. rewrite Hns in Hr.
      apply bind_Done_inv in Hr as (s0 & s1 & Hget & Hr).
      injection Hget as <- <-.
      apply bind_Done_inv in Hr as (u & s1 & Hreq & Hr).
      apply require_Done in Hreq as [_ ->].
      destruct (GetEventDataFixedPayloadSize E (h_type header))
        as [fixed|] eqn:Hf; [|discriminate].
      apply bind_Done_inv in Hr as (u1 & s1 & Hreq & Hr).
      apply require_Done in Hreq as [_ ->].
      rewrite Hnt in Hr.
      apply bind_Done_inv in Hr as (bytes & s2 & Hrd & Hr).
      apply bind_Done_inv in Hr as (u2 & s3 & Hreq & Hr).
      apply require_Done in Hreq as [_ ->].
      match type of Hr with
      | context [GetEventDataVariablePayloadSize E ?ev _] => set (ev1 := ev) in *
      end.
      destruct (GetEventDataVariablePayloadSize E ev1
                  (u64 (h_size header - fixed))) as [variable|] eqn:Hv;
        [|discriminate].
      apply bind_Done_inv in Hr as (u3 & s3 & Hreq & Hr).
      apply require_Done in Hreq as [_ ->].
      apply bind_Done_inv in Hr as (u4 & s3 & Hreq & Hr).
      apply require_Done in Hreq as [Heq ->].
      rewrite Hno in Heq. cbn [negb andb] in Heq.
      exists fixed, variable, bytes. repeat split.
      * now rewrite Hrd.
      * exact Hv.
      * apply negb_true_iff, negb_false_iff, Z.eqb_eq in Heq. exact Heq.
    + intros Ht Hav fixed Hf Hle.
      unfold ReadNonHeaderEventDataWithoutHeader. rewrite Hns.
      unfold bind at 1, get. unfold bind at 1.
      rewrite Hav, Hf. cbn [require ret]. unfold bind at 1.
      assert ((h_size header <? fixed) = false) as -> by now apply Z.ltb_ge.
      cbn [negb require ret].
      rewrite Ht. reflexivity.
  - intros Hun. unfold ReadNonHeaderEventDataWithoutHeader.
    rewrite <- negb_orb, Hun. reflexivity.
Qed.

End EventSizeChecks.

(** A 16-byte MMAP record, below the 40 bytes of [mmap_event] before the
    file name: the read returns [false]. *)
Lemma event_record_size_checks_witness :
  let header := {| Kernel.h_type := 1; Kernel.h_misc := 0;
                   Kernel.h_size := 16 |} in
  let s := {| Reader.this :=
                Reader.set_serializer (Reader.serializer_with_one_attr false)
                  Reader.new_reader;
              Reader.data := Reader.BufferReader (repeat 0 8) |} in
  fst (Reader.ReadNonHeaderEventDataWithoutHeader Reader.example_env
         header s) = Failed.
Proof.
  intros header s.
  destruct (event_record_size_checks Reader.example_env header s)
    as [H _].
  destruct (H eq_refl) as (H1 & _ & _).
  apply (H1 40); [reflexivity|cbn; lia].
Defined.

(** C8, as stated, fails.  An MMAP record flagged PROC_MAP_PARSE_TIMEOUT,
    read for an attribute without [sample_id_all] (so MMAP carries no
    sample info): its [header.size] is 64, its fixed size 40 and its
    variable size 8, and the read succeeds, consuming the 56 bytes after
    the header.  The same record without the flag is refused. *)
Lemma timeout_mmap_read_without_exact_size :
  let E := Reader.example_env in
  let header := {| Kernel.h_type := 1; Kernel.h_misc := 4096;
                   Kernel.h_size := 64 |} in
  let s := {| Reader.this :=
                Reader.set_serializer (Reader.serializer_with_one_attr false)
                  Reader.new_reader;
              Reader.data := Reader.BufferReader Reader.mmap_record_body |} in
  Serializer.ContainsSampleInfo (Reader.records E)
    (Reader.IsSupportedEventType E)
    (Reader.serializer_ (Reader.this s)) (Kernel.h_type header) = false /\
  Reader.GetEventDataFixedPayloadSize E (Kernel.h_type header) = Some 40 /\
  Reader.GetEventDataVariablePayloadSize E
    {| Reader.e_header := header; Reader.e_data := Reader.mmap_record_body |}
    (Kernel.h_size header - 40) = Some 8 /\
  Kernel.h_size header <> 40 + 8 /\
  fst (Reader.ReadNonHeaderEventDataWithoutHeader E header s) = Done 56 /\
  fst (Reader.ReadNonHeaderEventDataWithoutHeader E
         {| Kernel.h_type := 1; Kernel.h_misc := 0; Kernel.h_size := 64 |} s)
  = Failed.
Proof. cbv zeta. repeat split; try (vm_compute; congruence). Qed.

(** ** C4, C5, C6: samples, mappings and remapping (model of the parser) *)

Section ParserScenarios.
Import Parser.

(** C4.  With the two mappings of process 1001, the sample at 0x1c3fff is
    resolved to "/usr/lib/bar.so" at offset 0x2fff; with remapping the
    second mapping becomes (0x1000, 0x2000, 0x2000) and the sample's IP
    0x1fff, the offset staying 0x2fff. *)
Theorem sample_maps_to_bar_so :
  ParseRawEvents default_options maps_sample_event_ip =
  [ {| event := ExampleMmapEvent 1001 0x1c1000 0x1000 0 "/usr/lib/foo.so";
       dso_and_offset := None |};
    {| event :=
         ExampleMmapEvent 1001 0x1c3000 0x2000 0x2000 "/usr/lib/bar.so";
       dso_and_offset := None |};
    {| event := SAMPLE 1001 1001 0x1c3fff;
       dso_and_offset := Some {| dso_name := "/usr/lib/bar.so";
                                 dso_offset := 0x2fff |} |} ] /\
  ParseRawEvents remap_options maps_sample_event_ip =
  [ {| event := ExampleMmapEvent 1001 0 0x1000 0 "/usr/lib/foo.so";
       dso_and_offset := None |};
    {| event := ExampleMmapEvent 1001 0x1000 0x2000 0x2000 "/usr/lib/bar.so";
       dso_and_offset := None |};
    {| event := SAMPLE 1001 1001 0x1fff;
       dso_and_offset := Some {| dso_name := "/usr/lib/bar.so";
                                 dso_offset := 0x2fff |} |} ].
Proof. split; vm_compute; reflexivity. Qed.




(** C6.  With huge-page deduction and combining on, the three mappings of
    process 1234 become the one mapping (0x40018000, 0x5de8000, 0) of
    "/opt/google/chrome/chrome", and a sample of that process at
    0x40020400 is resolved to that DSO at offset 0x8400. *)
Theorem huge_page_mappings_collapse :
  ParseRawEvents default_options
    [ ExampleMmapEvent 1234 0x40018000 0x1e8000 0 "/opt/google/chrome/chrome";
      ExampleMmapEvent 1234 0x40200000 0x1c00000 0 "//anon";
      ExampleMmapEvent 1234 0x41e00000 0x4000000 0x1de8000
        "/opt/google/chrome/chrome";
      SAMPLE 1234 1235 0x40020400 ] =
  [ {| event :=
         ExampleMmapEvent 1234 0x40018000 0x5de8000 0
           "/opt/google/chrome/chrome";
       dso_and_offset := None |};
    {| event := SAMPLE 1234 1235 0x40020400;
       dso_and_offset := Some {| dso_name := "/opt/google/chrome/chrome";
                                 dso_offset := 0x8400 |} |} ].
Proof. vm_compute. reflexivity. Qed.

End ParserScenarios.

(** The whole of [PerfParserTest.HugePagesMappings]: the ten events the
    test expects, with the DSO and offset of each of the seven samples. *)
Example huge_pages_mappings_as_the_test_expects :
  map (fun pe => (Parser.event pe, Parser.dso_and_offset pe))
    (Parser.ParseRawEvents Parser.default_options
       Parser.huge_pages_mappings) =
  let chrome := "/opt/google/chrome/chrome"%string in
  let libfoo := "/usr/lib/libfoo.so"%string in
  let at_ := fun (n : string) (off : Z) =>
    Some {| Parser.dso_name := n; Parser.dso_offset := off |} in
  [ (Parser.ExampleMmapEvent 1234 0x40000000 0x18000 0 libfoo, None);
    (Parser.SAMPLE 1234 1235 0x40000100, at_ libfoo 0x100);
    (Parser.ExampleMmapEvent 1234 0x40018000 0x5de8000 0 chrome, None);
    (Parser.ExampleMmapEvent 2345 0x45e00000 0x5e00000 0 chrome, None);
    (Parser.SAMPLE 1234 1235 0x40018300, at_ chrome 0x300);
    (Parser.SAMPLE 1234 1235 0x40020400, at_ chrome 0x8400);
    (Parser.SAMPLE 1234 1235 0x41e20500, at_ chrome 0x1e08500);
    (Parser.SAMPLE 1234 1235 0x40000700, at_ libfoo 0x700);
    (Parser.SAMPLE 2345 2346 0x45e01300, at_ chrome 0x1300);
    (Parser.SAMPLE 2345 2346 0x45e02f00, at_ chrome 0x2f00) ].
Proof. vm_compute. reflexivity. Qed.

(** The samples of [PerfParserTest.MmapCoversEntireAddressSpace]: library,
    kernel, library, kernel, at the offsets the test expects. *)
Example mmap_covers_entire_address_space_as_the_test_expects :
  map Parser.dso_and_offset
    (Parser.ParseRawEvents Parser.remap_options
       Parser.mmap_covers_entire_address_space) =
  let at_ := fun (n : string) (off : Z) =>
    Some {| Parser.dso_name := n; Parser.dso_offset := off |} in
  [ None; None;
    at_ "/usr/lib/libfoo.so"%string 0x123456;
    at_ "[kernel.kallsyms]_text"%string 0x8000819e;
    at_ "/usr/lib/libfoo.so"%string 0x1deadbe;
    at_ "[kernel.kallsyms]_text"%string 0xffffffff8100cafe ].
Proof. vm_compute. reflexivity. Qed.


(** The whole of [PerfParserTest.MapsSampleEventIp], parsed with
    remapping: the new places of the five mappings, and for each of the
    nine samples its new IP and, when it is mapped, its DSO and offset;
    the three samples that lie in no mapping get bit 63 set. *)
Example maps_sample_event_ip_as_the_test_expects :
  map (fun pe => (Parser.event pe, Parser.dso_and_offset pe))
    (Parser.ParseRawEvents Parser.remap_options
       Parser.maps_sample_event_ip_events) =
  let at_ := fun (n : string) (off : Z) =>
    Some {| Parser.dso_name := n; Parser.dso_offset := off |} in
  [ (Parser.ExampleMmapEvent 1001 0x0000 0x1000 0 "/usr/lib/foo.so", None);
    (Parser.ExampleMmapEvent 1001 0x1000 0x2000 0x2000 "/usr/lib/bar.so",
     None);
    (Parser.ExampleMmapEvent 1002 0x0000 0x2000 0 "/usr/lib/baz.so", None);
    (Parser.ExampleMmapEvent 1002 0x2000 0x1000 0x3000 "/usr/lib/xyz.so",
     None);
    (Parser.SAMPLE 1001 1001 0x0, at_ "/usr/lib/foo.so"%string 0x0);
    (Parser.SAMPLE 1001 1001 0xa, at_ "/usr/lib/foo.so"%string 0xa);
    (Parser.SAMPLE 1001 1001 0x1fff, at_ "/usr/lib/bar.so"%string 0x2fff);
    (Parser.SAMPLE 1001 1001 0x80000000001c2bad, None);
    (Parser.SAMPLE 1002 1002 0xa, at_ "/usr/lib/baz.so"%string 0xa);
    (Parser.SAMPLE 1002 1002 0x80000000002c5bad, None);
    (Parser.SAMPLE 1002 1002 0x200b, at_ "/usr/lib/xyz.so"%string 0x300b);
    (Parser.SAMPLE 1002 1002 0x80000000002c400b, None);
    (Parser.ExampleMmapEvent 1002 0x3000 0x1000 0 "/usr/lib/new.so", None);
    (Parser.SAMPLE 1002 1002 0x300b, at_ "/usr/lib/new.so"%string 0xb) ].
Proof. vm_compute. reflexivity. Qed.

(* --------------------------------------------------------------------- *)
(** ** The feature bitmap through a write and a read                      *)
(* --------------------------------------------------------------------- *)

(** *** Invariants of a computation *)

Section Preservation.
Context {S : Type} (I : S -> Prop).

Lemma preserves_ret {A : Type} (a : A) : preserves I (@ret S A a).
Proof. intros s H. exact H. Qed.

Lemma preserves_failed {A : Type} : preserves I (@failed S A).
Proof. intros s H. exact H. Qed.

Lemma preserves_crashed {A : Type} (c : crash) : preserves I (@crashed S A c).
Proof. intros s H. exact H. Qed.

Lemma preserves_get : preserves I (@get S).
Proof. intros s H. exact H. Qed.

Lemma preserves_require (b : bool) : preserves I (@require S b).
Proof. intros s H. destruct b; exact H. Qed.

Lemma preserves_CHECK (b : bool) : preserves I (@CHECK S b).
Proof. intros s H. destruct b; exact H. Qed.

Lemma preserves_modify (f : S -> S) :
  (forall s, I s -> I (f s)) -> preserves I (modify f).
Proof. intros Hf s H. now apply Hf. Qed.

Lemma preserves_bind {A B : Type} (c : M S A) (k : A -> M S B) :
  preserves I c -> (forall a, preserves I (k a)) -> preserves I (bind c k).
Proof.
  intros Hc Hk s H. unfold bind. specialize (Hc s H).
  destruct (c s) as [[a| |e] s1]; cbn in *; [now apply Hk|exact Hc..].
Qed.

(** What follows a [get] runs in the state it was given. *)
Lemma preserves_bind_get {B : Type} (k : S -> M S B) :
  (forall s0, I s0 -> preserves I (k s0)) -> preserves I (bind get k).
Proof. intros Hk s H. unfold bind, get. now apply Hk. Qed.

(** What follows a [CHECK] or a test runs only when it held. *)
Lemma preserves_bind_CHECK {B : Type} (b : bool) (k : M S B) :
  (b = true -> preserves I k) -> preserves I (do* CHECK b in k).
Proof.
  intros Hk s H. destruct b; cbn; [now apply Hk|exact H].
Qed.

Lemma preserves_repeatM (n : nat) (c : M S unit) :
  preserves I c -> preserves I (repeatM n c).
Proof.
  intros Hc. induction n as [|n IH]; cbn.
  - apply preserves_ret.
  - apply preserves_bind; [exact Hc|intros _; exact IH].
Qed.

End Preservation.

Create HintDb pres.
#[local] Hint Resolve preserves_ret preserves_failed preserves_crashed
  preserves_get preserves_require preserves_CHECK preserves_repeatM : pres.

Ltac pres_step :=
  first [ solve [auto with pres]
        | apply preserves_bind; [|intros ?]
        | match goal with
          | |- preserves _ (if ?b then _ else _) => destruct b
          | |- preserves _ (match ?x with _ => _ end) => destruct x
          end ].

(** *** The writer: the header stays where it was written *)

Section WriterLayout.
Import Kernel Serializer Reader.
Variables (E : Env) (W : WriterEnv).
Variables (n : nat) (lo : Z) (prefix : list Z).
Hypothesis lo_nonneg : 0 <= lo.

Lemma preserves_WriteDataValue (src : list Z) :
  preserves (writer_inv n lo prefix) (WriteDataValue src).
Proof.
  intros w (Hlen & Hpre & Hoff). unfold WriteDataValue, writer_size.
  destruct ((0 <=? w_offset w)
            && (w_offset w + Z.of_nat (length src)
                <=? Z.of_nat (length (w_buffer w)))) eqn:Hfit; cbn [snd].
  - apply andb_true_iff in Hfit as [_ Hfit%Z.leb_le].
    repeat split; cbn [w_buffer w_offset].
    + rewrite !length_app, length_take, length_drop. lia.
    + rewrite take_app_le by (rewrite length_take; lia).
      rewrite take_take. rewrite Nat.min_l by lia. exact Hpre.
    + lia.
    + lia.
  - now repeat split.
Qed.

Lemma preserves_WriterSeekSet (off : Z) :
  lo <= off -> preserves (writer_inv n lo prefix) (WriterSeekSet off).
Proof.
  intros Hlo w (Hlen & Hpre & Hoff). unfold WriterSeekSet, writer_size.
  destruct ((0 <=? off) && (off <=? Z.of_nat (length (w_buffer w))))
    eqn:Hfit; cbn [snd].
  - apply andb_true_iff in Hfit as [_ Hfit%Z.leb_le].
    repeat split; cbn [w_buffer w_offset]; try assumption; lia.
  - now repeat split.
Qed.

#[local] Hint Resolve preserves_WriteDataValue : pres.

Lemma preserves_WriteValues (values : list (list Z)) :
  preserves (writer_inv n lo prefix) (WriteValues values).
Proof.
  induction values as [|v rest IH]; cbn [WriteValues]; repeat pres_step.
Qed.

#[local] Hint Resolve preserves_WriteValues : pres.

Lemma preserves_WriteIdSections (attrs : list PerfFileAttr) :
  preserves (writer_inv n lo prefix) (WriteIdSections attrs).
Proof.
  induction attrs as [|fa rest IH]; cbn [WriteIdSections]; repeat pres_step.
Qed.

Lemma preserves_WriteAttrEntries (attrs : list PerfFileAttr)
    (id_sections : list perf_file_section) :
  preserves (writer_inv n lo prefix) (WriteAttrEntries E W attrs id_sections).
Proof.
  revert id_sections.
  induction attrs as [|fa rest IH]; intros id_sections;
    cbn [WriteAttrEntries]; repeat pres_step.
Qed.

#[local] Hint Resolve preserves_WriteIdSections preserves_WriteAttrEntries
  : pres.

Lemma preserves_WriteAttrs (r : PerfReader) (header : perf_file_header) :
  preserves (writer_inv n lo prefix) (WriteAttrs E W r header).
Proof. unfold WriteAttrs. repeat pres_step. Qed.

Lemma preserves_WriteEvents (sz : PerfSerializer) (evs : list PerfEvent) :
  preserves (writer_inv n lo prefix) (WriteEvents W sz evs).
Proof.
  induction evs as [|ev rest IH]; cbn [WriteEvents]; repeat pres_step.
Qed.

#[local] Hint Resolve preserves_WriteEvents : pres.

Lemma preserves_WriteData (r : PerfReader) (header : perf_file_header) :
  preserves (writer_inv n lo prefix) (WriteData E W r header).
Proof. unfold WriteData. repeat pres_step. Qed.

Lemma preserves_WriteFeature (r : PerfReader) (ty : Z) :
  preserves (writer_inv n lo prefix) (WriteFeature W r ty).
Proof. unfold WriteFeature. repeat pres_step. Qed.

#[local] Hint Resolve preserves_WriteFeature : pres.

Lemma preserves_WriteMetadata_loop (r : PerfReader)
    (header : perf_file_header) (types : list Z) :
  preserves (writer_inv n lo prefix) (WriteMetadata_loop W r header types).
Proof.
  induction types as [|ty rest IH]; cbn [WriteMetadata_loop];
    repeat pres_step.
Qed.

#[local] Hint Resolve preserves_WriteMetadata_loop : pres.

(** [WriteMetadata] keeps the first [lo] bytes when the place it seeks to
    for the first feature section lies after them. *)
Lemma preserves_WriteMetadata (r : PerfReader) (header : perf_file_header) :
  lo <= u64 (u64 (sec_offset (hdr_data header) + sec_size (hdr_data header))
             + u64 (Z.of_nat (GetNumSupportedMetadata r)
                    * sizeof_perf_file_section)) ->
  preserves (writer_inv n lo prefix) (WriteMetadata W r header).
Proof.
  intros Hmo. unfold WriteMetadata.
  apply preserves_bind_get. intros w0 (_ & _ & Hoff0).
  apply preserves_bind_CHECK. intros Hho%Z.eqb_eq.
  apply preserves_bind; [now apply preserves_WriterSeekSet|]. intros _.
  apply preserves_bind; [auto with pres|]. intros sections.
  apply preserves_bind; [auto with pres|]. intros _.
  apply preserves_bind_get. intros w1 (_ & _ & Hoff1).
  apply preserves_bind.
  { apply preserves_WriterSeekSet. rewrite Hho. unfold WriterTell. lia. }
  intros _. repeat pres_step.
  apply preserves_WriterSeekSet. unfold WriterTell. lia.
Qed.

End WriterLayout.

(** *** The writer: what a successful [WriteToString] produced *)

Section WriterOutput.
Import Kernel Serializer Reader.
Variables (E : Env) (W : WriterEnv).

Lemma WriteDataValue_Done (src : list Z) (w w' : DataWriter) (u : unit) :
  WriteDataValue src w = (Done u, w') ->
  w_offset w + Z.of_nat (length src) <= writer_size w
  /\ w' = {| w_buffer := take (Z.to_nat (w_offset w)) (w_buffer w) ++ src
                         ++ drop (Z.to_nat (w_offset w
                                            + Z.of_nat (length src)))
                              (w_buffer w);
             w_offset := w_offset w + Z.of_nat (length src) |}.
Proof.
  unfold WriteDataValue.
  destruct ((0 <=? w_offset w)
            && (w_offset w + Z.of_nat (length src) <=? writer_size w))
    eqn:Hfit; [|discriminate].
  apply andb_true_iff in Hfit as [_ Hfit%Z.leb_le].
  intros [= _ <-]. auto.
Qed.

Lemma length_fit (n : Z) (bs : list Z) :
  length (fit n bs) = Z.to_nat n.
Proof.
  unfold fit. rewrite length_take, length_app, repeat_length. lia.
Qed.

Lemma u64_range (x : Z) : 0 <= u64 x < 2 ^ 64.
Proof. unfold u64. apply Z.mod_pos_bound. lia. Qed.

(** When [WriteMetadata] succeeds, the section headers it wrote at
    [header_offset] fitted in the buffer. *)
Lemma WriteMetadata_Done (n : nat) (r : PerfReader)
    (header : perf_file_header) (w w' : DataWriter) :
  writer_inv n 0 [] w ->
  WriteMetadata W r header w = (Done tt, w') ->
  u64 (sec_offset (hdr_data header) + sec_size (hdr_data header))
  = w_offset w
  /\ w_offset w
     + u64 (Z.of_nat (GetNumSupportedMetadata r) * sizeof_perf_file_section)
     <= Z.of_nat n.
Proof.
  intros Hw Hrun. unfold WriteMetadata in Hrun.
  inv_get Hrun. inv_CHECK Hrun as Hho. apply Z.eqb_eq in Hho.
  inv_bind Hrun as u1 w1 Hseek.
  assert (writer_inv n 0 [] w1) as Hw1.
  { replace w1 with (snd (WriterSeekSet
      (u64 (u64 (sec_offset (hdr_data header) + sec_size (hdr_data header))
            + u64 (Z.of_nat (GetNumSupportedMetadata r)
                   * sizeof_perf_file_section))) w)) by now rewrite Hseek.
    apply preserves_WriterSeekSet; [apply u64_range|exact Hw]. }
  clear Hseek. inv_bind Hrun as sections w2 Hloop.
  assert (writer_inv n 0 [] w2) as Hw2.
  { replace w2 with (snd (WriteMetadata_loop W r header feature_types w1))
      by now rewrite Hloop.
    now apply preserves_WriteMetadata_loop. }
  clear Hloop. inv_CHECK Hrun as Hcount. inv_get Hrun.
  inv_bind Hrun as u2 w4 Hseek.
  destruct Hw as (_ & _ & Hoff). destruct Hw2 as (Hlen2 & _ & _).
  unfold WriterSeekSet, writer_size in Hseek. rewrite Hlen2, Hho in Hseek.
  unfold WriterTell in Hseek.
  replace ((0 <=? w_offset w) && (w_offset w <=? Z.of_nat n)) with true
    in Hseek by (symmetry; apply andb_true_iff; split; apply Z.leb_le; lia).
  injection Hseek as _ <-.
  inv_bind Hrun as u3 w5 Hwrite.
  apply WriteDataValue_Done in Hwrite as [Hfit _].
  unfold writer_size in Hfit. cbn [w_buffer w_offset] in Hfit.
  rewrite length_fit, Hlen2 in Hfit. split; [exact Hho|].
  pose proof (u64_range (Z.of_nat (GetNumSupportedMetadata r)
                         * sizeof_perf_file_section)).
  lia.
Qed.

Lemma length_encode_perf_file_header (h : perf_file_header) :
  length (encode_perf_file_header h) = 104%nat.
Proof. reflexivity. Qed.

(** A successful [WriteToString] gives [GetSize()] bytes that begin with
    the header of [GenerateHeader]. *)
Lemma WriteToString_Done (r : PerfReader) (str out : list Z) :
  WriteToString E W r str = (Done tt, out) ->
  length out = Z.to_nat (GetSize E W r)
  /\ take 104 out = encode_perf_file_header (GenerateHeader E W r).
Proof.
  unfold WriteToString.
  pose proof (length_fit (GetSize E W r) str) as Hlen.
  assert (0 <= GetSize E W r < 2 ^ 64) as Hsz
    by (unfold GetSize; apply u64_range).
  destruct (fit (GetSize E W r) str) as [|b0 bs] eqn:Hfit; [discriminate|].
  rewrite <- Hfit in *. clear Hfit b0 bs.
  generalize dependent (fit (GetSize E W r) str). intros buf Hlen.
  unfold WriteToPointerWithoutCheckingSize.
  generalize (GenerateHeader E W r). intros header.
  destruct (bind _ _ (BufferWriter buf)) as [result w] eqn:Hrun.
  intros [= -> <-].
  inv_bind Hrun as u0 w0 Hhdr. unfold WriteHeader in Hhdr.
  apply WriteDataValue_Done in Hhdr as [Hfit ->].
  rewrite length_encode_perf_file_header in *.
  unfold writer_size in Hfit. cbn [BufferWriter w_buffer w_offset] in *.
  change (Z.to_nat 0) with 0%nat in Hrun.
  change (0 + Z.of_nat 104) with 104 in *.
  change (Z.to_nat 104) with 104%nat in Hrun.
  match type of Hrun with
  | bind _ _ ?w0 = _ =>
      assert (writer_inv (length buf) 104 (encode_perf_file_header header) w0)
        as Hw0
  end.
  { split; [|split]; cbn [w_buffer w_offset].
    - rewrite !length_app, length_take, length_drop.
      rewrite length_encode_perf_file_header. lia.
    - change (Z.to_nat 104) with 104%nat. rewrite take_0. cbn [app].
      apply take_app_length'.
      symmetry. apply length_encode_perf_file_header.
    - lia. }
  inv_bind Hrun as u1 w1 Hattrs.
  apply (preserves_WriteAttrs E W _ 104 _ ltac:(lia) r header) in Hw0.
  rewrite Hattrs in Hw0. cbn [snd] in Hw0. clear Hattrs.
  inv_bind Hrun as u2 w2 Hdata.
  apply (preserves_WriteData E W _ 104 _ ltac:(lia) r header) in Hw0.
  rewrite Hdata in Hw0. cbn [snd] in Hw0. clear Hdata.
  assert (writer_inv (length buf) 0 [] w2) as Hw2.
  { destruct Hw0 as (? & ? & ?). repeat split; [assumption|lia|lia]. }
  pose proof (WriteMetadata_Done _ _ _ _ _ Hw2 Hrun) as [Hho Hbound].
  assert (writer_inv (length buf) 104 (encode_perf_file_header header) w)
    as (Hl & Hp & _).
  { replace w with (snd (WriteMetadata W r header w2)) by now rewrite Hrun.
    apply preserves_WriteMetadata; [lia| |exact Hw0].
    pose proof (u64_range (Z.of_nat (GetNumSupportedMetadata r)
                           * sizeof_perf_file_section)) as Hhs.
    destruct Hw0 as (_ & _ & Hoff).
    rewrite Hho. unfold u64 at 1. rewrite Z.mod_small; lia. }
  split.
  - rewrite Hl. exact Hlen.
  - exact Hp.
Qed.

End WriterOutput.

(** *** The reader: what happens to the mask after the header *)

Section ReaderMask.
Import Kernel Serializer Reader.
Variable E : Env.
Hypothesis StoreEvent_keeps_mask :
  forall event read_size, keeps_metadata_mask (StoreEvent E event read_size).
Hypothesis ReadSupportedMetadata_keeps_mask :
  forall ty size, keeps_metadata_mask (ReadSupportedMetadata E ty size).

(** [P] is a property of the mask that setting the bit of a supported
    feature does not break. *)
Variable P : Z -> Prop.
Hypothesis P_set_supported_bit :
  forall (ty m : Z),
    is_supported_metadata ty = true -> P m -> P (Z.lor m (Z.shiftl 1 ty)).

Lemma keeps_mask_preserves {A : Type} (c : M State A) :
  keeps_metadata_mask c -> preserves (mask_inv P) c.
Proof. intros Hc s H. unfold mask_inv in *. now rewrite Hc. Qed.

Lemma preserves_SeekSet (off : Z) : preserves (mask_inv P) (SeekSet off).
Proof.
  intros s H. unfold SeekSet.
  destruct ((0 <=? off) && (off <=? data_size (data s))); exact H.
Qed.

Lemma preserves_ReadData (n : Z) : preserves (mask_inv P) (ReadData n).
Proof.
  intros s H. unfold ReadData.
  destruct ((0 <=? n) && (offset (data s) + n <=? data_size (data s)));
    exact H.
Qed.

Lemma preserves_udiv (a b : Z) : preserves (mask_inv P) (udiv a b).
Proof. intros s H. unfold udiv. destruct (b =? 0); exact H. Qed.

Lemma preserves_set_metadata_mask_bit (ty : Z) :
  is_supported_metadata ty = true ->
  preserves (mask_inv P) (modify (set_this (set_metadata_mask_bit ty))).
Proof. intros Hty s Hs. now apply P_set_supported_bit. Qed.

#[local] Hint Resolve preserves_SeekSet preserves_ReadData preserves_udiv
  : pres.

Ltac mask_step :=
  first [ pres_step
        | apply preserves_modify; intros ? ?; assumption ].

Lemma preserves_ReadUint (n : nat) : preserves (mask_inv P) (ReadUint n).
Proof. unfold ReadUint. repeat mask_step. Qed.

Lemma preserves_skip_forward (n : Z) : preserves (mask_inv P) (skip_forward n).
Proof. unfold skip_forward. repeat mask_step. Qed.

Lemma preserves_ReadPerfFileSection :
  preserves (mask_inv P) ReadPerfFileSection.
Proof. unfold ReadPerfFileSection. repeat mask_step. Qed.

Lemma preserves_ReadPerfEventHeader :
  preserves (mask_inv P) ReadPerfEventHeader.
Proof. unfold ReadPerfEventHeader. repeat mask_step. Qed.

#[local] Hint Resolve preserves_ReadUint preserves_skip_forward
  preserves_ReadPerfFileSection preserves_ReadPerfEventHeader : pres.

Lemma preserves_ReadUniqueIDs (n : nat) :
  preserves (mask_inv P) (ReadUniqueIDs n).
Proof.
  induction n as [|n IH]; cbn [ReadUniqueIDs]; unfold ReadUint64;
    repeat mask_step.
Qed.

Lemma preserves_ReadEventAttr : preserves (mask_inv P) (ReadEventAttr E).
Proof. unfold ReadEventAttr, ReadUint32. repeat mask_step. Qed.

Lemma preserves_AddPerfFileAttr (fa : PerfFileAttr) :
  preserves (mask_inv P) (AddPerfFileAttr E fa).
Proof. unfold AddPerfFileAttr. repeat mask_step. Qed.

#[local] Hint Resolve preserves_ReadUniqueIDs preserves_ReadEventAttr
  preserves_AddPerfFileAttr : pres.

Lemma preserves_ReadAttr : preserves (mask_inv P) (ReadAttr E).
Proof. unfold ReadAttr. repeat mask_step. Qed.

#[local] Hint Resolve preserves_ReadAttr : pres.

Lemma preserves_ReadAttrsSection : preserves (mask_inv P) (ReadAttrsSection E).
Proof. unfold ReadAttrsSection. repeat mask_step. Qed.

Lemma preserves_ReadEventType (attr_idx : nat) (event_size : Z) :
  preserves (mask_inv P) (ReadEventType attr_idx event_size).
Proof. unfold ReadEventType, ReadUint64, ReadString. repeat mask_step. Qed.

#[local] Hint Resolve preserves_ReadEventType : pres.

Lemma preserves_ReadEventTypes_from (i n : nat) :
  preserves (mask_inv P) (ReadEventTypes_from i n).
Proof.
  revert i. induction n as [|n IH]; intros i; cbn [ReadEventTypes_from];
    repeat mask_step.
Qed.

#[local] Hint Resolve preserves_ReadEventTypes_from : pres.

Lemma preserves_ReadEventTypesSection :
  preserves (mask_inv P) ReadEventTypesSection.
Proof. unfold ReadEventTypesSection. repeat mask_step. Qed.

Lemma preserves_ReadMetadataWithoutHeader (ty size : Z) :
  preserves (mask_inv P) (ReadMetadataWithoutHeader E ty size).
Proof.
  unfold ReadMetadataWithoutHeader.
  apply preserves_bind_get. intros s0 _.
  apply preserves_bind; [auto with pres|]. intros _ s Hs.
  set (reader := if negb (is_supported_metadata ty) then ret tt
                 else if ty =? HEADER_BRANCH_STACK then ret tt
                 else ReadSupportedMetadata E ty size).
  assert (preserves (mask_inv P) reader) as Hreader.
  { subst reader. destruct (negb (is_supported_metadata ty));
      [auto with pres|].
    destruct (ty =? HEADER_BRANCH_STACK); [auto with pres|].
    apply keeps_mask_preserves, ReadSupportedMetadata_keeps_mask. }
  specialize (Hreader s Hs).
  destruct (reader s) as [isRead s1]. cbn [snd] in Hreader.
  assert (mask_inv P (if is_supported_metadata ty
                      then set_this (set_metadata_mask_bit ty) s1 else s1))
    as Hs2.
  { destruct (is_supported_metadata ty) eqn:Hty; [|exact Hreader].
    now apply P_set_supported_bit. }
  destruct isRead as [u| |c]; cbn [snd]; [|exact Hs2|exact Hreader].
  match goal with
  | |- context [if negb (size =? ?x) then _ else _] =>
      destruct (negb (size =? x))
  end; [|exact Hs2].
  now apply preserves_skip_forward.
Qed.

Lemma preserves_ReadSections (n : nat) :
  preserves (mask_inv P) (ReadSections n).
Proof. induction n as [|n IH]; cbn [ReadSections]; repeat mask_step. Qed.

#[local] Hint Resolve preserves_ReadMetadataWithoutHeader
  preserves_ReadSections : pres.

Lemma preserves_ReadMetadata_loop (types : list Z)
    (sections : list perf_file_section) :
  preserves (mask_inv P) (ReadMetadata_loop E types sections).
Proof.
  revert sections.
  induction types as [|ty rest IH]; intros sections;
    cbn [ReadMetadata_loop]; repeat mask_step.
Qed.

#[local] Hint Resolve preserves_ReadMetadata_loop : pres.

Lemma preserves_ReadMetadata : preserves (mask_inv P) (ReadMetadata E).
Proof. unfold ReadMetadata. repeat mask_step. Qed.

Lemma preserves_skip_record (header : perf_event_header) :
  preserves (mask_inv P) (skip_record header).
Proof. unfold skip_record. repeat mask_step. Qed.

#[local] Hint Resolve preserves_skip_record : pres.

Lemma preserves_ReadNonHeaderEventDataWithoutHeader
    (header : perf_event_header) :
  preserves (mask_inv P) (ReadNonHeaderEventDataWithoutHeader E header).
Proof.
  unfold ReadNonHeaderEventDataWithoutHeader. repeat mask_step.
  all: apply keeps_mask_preserves, StoreEvent_keeps_mask.
Qed.

#[local] Hint Resolve preserves_ReadNonHeaderEventDataWithoutHeader : pres.

Lemma preserves_ReadDataSection_loop (fuel : nat) (remaining : Z) :
  preserves (mask_inv P) (ReadDataSection_loop E fuel remaining).
Proof.
  revert remaining. induction fuel as [|fuel IH]; intros remaining;
    cbn [ReadDataSection_loop]; repeat mask_step.
Qed.

#[local] Hint Resolve preserves_ReadDataSection_loop : pres.

Lemma preserves_ReadDataSection : preserves (mask_inv P) (ReadDataSection E).
Proof. unfold ReadDataSection. repeat mask_step. Qed.

#[local] Hint Resolve preserves_ReadAttrsSection
  preserves_ReadEventTypesSection preserves_ReadMetadata
  preserves_ReadDataSection : pres.

Lemma preserves_ReadFileData : preserves (mask_inv P) (ReadFileData E).
Proof.
  unfold ReadFileData. repeat mask_step.
  now apply preserves_set_metadata_mask_bit.
Qed.

End ReaderMask.

(** *** The reader: the header of a written file *)

Section ReadBack.
Import Kernel Serializer Reader.

Lemma le_decode_le_encode (n : nat) (x : Z) :
  le_decode (le_encode n x) = x mod 256 ^ Z.of_nat n.
Proof.
  revert x. induction n as [|n IH]; intros x.
  - cbn. now rewrite Z.mod_1_r.
  - cbn [le_encode le_decode]. rewrite IH, Z.mod_mod by lia.
    rewrite Nat2Z.inj_succ, Z.pow_succ_r by lia.
    rewrite Z.rem_mul_r by lia. reflexivity.
Qed.

Lemma ReadData_Done (n : Z) (s s' : State) (bs : list Z) :
  ReadData n s = (Done bs, s') ->
  bs = take (Z.to_nat n) (drop (Z.to_nat (offset (data s))) (buffer (data s)))
  /\ s' = advance n s.
Proof.
  unfold ReadData.
  destruct ((0 <=? n) && (offset (data s) + n <=? data_size (data s)));
    [|discriminate].
  intros [= <- <-]. auto.
Qed.

Lemma ReadUint_Done (n : nat) (s s' : State) (v : Z) :
  ReadUint n s = (Done v, s') ->
  s' = advance (Z.of_nat n) s
  /\ (is_cross_endian (data s) = false ->
      v = le_decode (take n (drop (Z.to_nat (offset (data s)))
                               (buffer (data s))))).
Proof.
  unfold ReadUint. intros H.
  inv_bind H as bs s1 Hrd. apply ReadData_Done in Hrd as [-> ->].
  inv_get H. injection H as <- <-. split; [reflexivity|].
  cbn. intros ->. now rewrite Nat2Z.id.
Qed.

Lemma ReadPerfFileSection_Done (s s' : State) (sec : perf_file_section) :
  ReadPerfFileSection s = (Done sec, s') ->
  s' = advance sizeof_perf_file_section s.
Proof.
  unfold ReadPerfFileSection. intros H.
  inv_bind H as bs s1 Hrd. apply ReadData_Done in Hrd as [_ ->].
  inv_get H. inv_require H as H1. inv_require H as H2.
  now injection H as _ <-.
Qed.

Lemma written_header_words (h : perf_file_header) (rest : list Z) :
  take 8 (encode_perf_file_header h ++ rest) = le_encode 8 (hdr_magic h)
  /\ take 8 (drop 8 (encode_perf_file_header h ++ rest))
     = le_encode 8 (hdr_size h)
  /\ take 8 (take 32 (drop 72 (encode_perf_file_header h ++ rest)))
     = le_encode 8 (nth 0 (hdr_adds_features h) 0).
Proof. repeat split. Qed.

(** [ReadHeader] on bytes that begin with a header the writer made: the
    input is in normal mode and the mask of the model is the first
    feature word. *)
Lemma ReadHeader_written (r0 : PerfReader) (out : list Z)
    (h : perf_file_header) (s1 : State) :
  take 104 out = encode_perf_file_header h ->
  hdr_magic h = kPerfMagic ->
  hdr_size h = sizeof_perf_file_header ->
  ReadHeader {| this := r0; data := BufferReader out |} = (Done tt, s1) ->
  hdr_size (header_ (this s1)) = sizeof_perf_file_header
  /\ metadata_mask (proto_ (this s1)) = u64 (nth 0 (hdr_adds_features h) 0).
Proof.
  intros Hout Hmagic Hsize Hrun.
  rewrite <- (take_drop 104 out), Hout in Hrun.
  generalize dependent (drop 104 out). intros rest Hrun. clear Hout.
  destruct (written_header_words h rest) as (Hw0 & Hw1 & Hw2).
  unfold ReadHeader in Hrun.
  inv_get Hrun. inv_CHECK Hrun as Htell0.
  inv_bind Hrun as magic sa Hrd.
  apply ReadUint_Done in Hrd as [-> Hm]. specialize (Hm eq_refl).
  cbn [data BufferReader buffer offset] in Hm.
  change (Z.to_nat 0) with 0%nat in Hm. rewrite drop_0, Hw0 in Hm.
  rewrite le_decode_le_encode, Hmagic in Hm.
  change (kPerfMagic mod 256 ^ Z.of_nat 8) with kPerfMagic in Hm.
  subst magic.
  inv_bind Hrun as u1 sb Hmod. apply modify_Done in Hmod as ->.
  inv_require Hrun as Hreq. clear Hreq.
  inv_bind Hrun as u2 sc Hmod. apply modify_Done in Hmod as ->.
  inv_bind Hrun as size sd Hrd.
  apply ReadUint_Done in Hrd as [-> Hs]. specialize (Hs eq_refl).
  cbn [data set_data set_this advance BufferReader buffer offset] in Hs.
  change (Z.to_nat (0 + Z.of_nat 8)) with 8%nat in Hs.
  rewrite Hw1, le_decode_le_encode, Hsize in Hs.
  change (sizeof_perf_file_header mod 256 ^ Z.of_nat 8)
    with sizeof_perf_file_header in Hs.
  subst size.
  inv_bind Hrun as u3 se Hmod. apply modify_Done in Hmod as ->.
  inv_get Hrun. inv_CHECK Hrun as Htell16.
  change (sizeof_perf_file_header =? sizeof_perf_pipe_file_header)
    with false in Hrun. cbv iota in Hrun.
  inv_bind Hrun as attr_size sf Hrd. apply ReadUint_Done in Hrd as [-> _].
  inv_bind Hrun as attrs sg Hrd.
  apply ReadPerfFileSection_Done in Hrd as ->.
  inv_bind Hrun as data_section sh Hrd.
  apply ReadPerfFileSection_Done in Hrd as ->.
  inv_bind Hrun as event_types_section si Hrd.
  apply ReadPerfFileSection_Done in Hrd as ->.
  inv_get Hrun. inv_CHECK Hrun as Htell72.
  inv_bind Hrun as fb sj Hrd. apply ReadData_Done in Hrd as [-> ->].
  apply modify_Done in Hrun as ->.
  cbn [this set_this set_data advance header_ set_proto set_header proto_
       hdr_size metadata_mask set_metadata_mask data buffer offset
       BufferReader].
  split; [reflexivity|].
  unfold word_at.
  change (Z.to_nat sizeof_adds_features) with 32%nat.
  change (Z.to_nat (0 + Z.of_nat 8 + Z.of_nat 8 + Z.of_nat 8
                    + sizeof_perf_file_section + sizeof_perf_file_section
                    + sizeof_perf_file_section)) with 72%nat.
  change (8 * 0)%nat with 0%nat. rewrite drop_0, Hw2.
  now rewrite le_decode_le_encode.
Qed.

End ReadBack.

(** *** Writing and reading back *)

Section RoundTrip.
Import Kernel Serializer Reader.
Variables (E : Env) (W : WriterEnv).
Hypothesis StoreEvent_keeps_mask :
  forall event read_size, keeps_metadata_mask (StoreEvent E event read_size).
Hypothesis ReadSupportedMetadata_keeps_mask :
  forall ty size, keeps_metadata_mask (ReadSupportedMetadata E ty size).

Lemma supported_bits_fit_u64 (m : Z) :
  u64 (Z.land m kSupportedMetadataMask) = Z.land m kSupportedMetadataMask.
Proof.
  unfold u64. rewrite <- Z.land_ones by lia.
  now rewrite <- Z.land_assoc.
Qed.

Lemma supported_bit_is_in_mask (ty : Z) :
  is_supported_metadata ty = true ->
  Z.testbit kSupportedMetadataMask ty = true.
Proof.
  unfold is_supported_metadata, one_of. cbn [existsb]. intros Hty.
  repeat (apply orb_true_iff in Hty as [Hty|Hty];
          [apply Z.eqb_eq in Hty; subst ty; reflexivity|]).
  discriminate.
Qed.

Lemma testbit_set_bit (m ty bit : Z) :
  Z.testbit (Z.lor m (Z.shiftl 1 ty)) bit = true ->
  Z.testbit m bit = true \/ (bit = ty /\ 0 <= ty).
Proof.
  rewrite Z.lor_spec. intros [H|H]%orb_true_iff; [now left|right].
  destruct (Z.ltb_spec ty 0) as [Hneg|Hpos].
  - rewrite Z.shiftl_1_l, Z.pow_neg_r in H by lia.
    now rewrite Z.bits_0 in H.
  - rewrite Z.shiftl_1_l, Z.pow2_bits_eqb in H by lia.
    apply Z.eqb_eq in H. auto.
Qed.

(** What the reader does after the header keeps the mask within the
    supported bits, and keeps every bit that is set. *)
Lemma ReadFileData_only_supported_bits (s : State) :
  only_supported_bits (this s) ->
  only_supported_bits (this (snd (ReadFileData E s))).
Proof.
  apply (preserves_ReadFileData E StoreEvent_keeps_mask
           ReadSupportedMetadata_keeps_mask
           (fun m => forall bit, Z.testbit m bit = true ->
                       Z.testbit kSupportedMetadataMask bit = true)).
  intros ty m Hty Hm bit [Hbit|[-> _]]%testbit_set_bit.
  - now apply Hm.
  - now apply supported_bit_is_in_mask.
Qed.

Lemma ReadFileData_keeps_bits (s : State) (bit : Z) :
  get_metadata_mask_bit (this s) bit = true ->
  get_metadata_mask_bit (this (snd (ReadFileData E s))) bit = true.
Proof.
  apply (preserves_ReadFileData E StoreEvent_keeps_mask
           ReadSupportedMetadata_keeps_mask
           (fun m => Z.testbit m bit = true)).
  intros ty m _ Hm. now rewrite Z.lor_spec, Hm.
Qed.

(** The writer keeps of the feature bitmap the bits of
    [kSupportedMetadataMask], and only those.  Let the storing of an event
    and the readers of the feature sections leave the mask alone, as they
    do in the source.  Whenever [WriteToString] succeeds on a model and the
    bytes it produced are read back successfully (by a reader in any
    state): the output begins with the header of [GenerateHeader], whose
    first feature word is the model's mask restricted to the supported
    bits; the model read back has supported bits only, and has every
    supported bit that the written model had; so a model with a bit
    outside the supported ones does not come back equal. *)
Theorem written_feature_bits_are_supported (r r0 r' : PerfReader)
    (str out : list Z) :
  WriteToString E W r str = (Done tt, out) ->
  ReadFromString E r0 out = (Done tt, r') ->
  take 104 out = encode_perf_file_header (GenerateHeader E W r)
  /\ nth 0 (hdr_adds_features (GenerateHeader E W r)) 0
     = Z.land (metadata_mask (proto_ r)) kSupportedMetadataMask
  /\ only_supported_bits r'
  /\ (forall bit : Z,
        get_metadata_mask_bit r bit = true ->
        Z.testbit kSupportedMetadataMask bit = true ->
        get_metadata_mask_bit r' bit = true)
  /\ (~ only_supported_bits r -> proto_ r' <> proto_ r).
Proof.
  intros Hwrite Hread.
  apply WriteToString_Done in Hwrite as [Hlen Htake].
  unfold ReadFromString, ReadFromPointer in Hread.
  destruct (ReadFromData E _) as [result s] eqn:Hrun.
  injection Hread as -> <-.
  unfold ReadFromData in Hrun. inv_get Hrun.
  destruct (data_size _ =? 0); [discriminate|].
  inv_bind Hrun as u s1 Hhdr. destruct u.
  apply (ReadHeader_written _ _ _ _ Htake eq_refl eq_refl) in Hhdr
    as [Hsize Hmask].
  inv_get Hrun. rewrite Hsize, Z.eqb_refl in Hrun.
  replace s with (snd (ReadFileData E s1)) by now rewrite Hrun.
  cbn [GenerateHeader hdr_adds_features nth] in Hmask.
  rewrite Z.lor_0_l, supported_bits_fit_u64 in Hmask.
  assert (only_supported_bits (this (snd (ReadFileData E s1)))) as Hr'.
  { apply ReadFileData_only_supported_bits. intros bit.
    unfold get_metadata_mask_bit.
    rewrite Hmask, Z.land_spec. now intros [_ H]%andb_true_iff. }
  split; [exact Htake|]. split; [reflexivity|]. split; [exact Hr'|].
  split.
  - intros bit Hbit Hsup. apply ReadFileData_keeps_bits.
    unfold get_metadata_mask_bit in *.
    now rewrite Hmask, Z.land_spec, Hbit, Hsup.
  - intros Hr Heq. apply Hr. intros bit. unfold get_metadata_mask_bit.
    rewrite <- Heq. apply Hr'.
Qed.

End RoundTrip.

(** The file with feature bit 18, read, written and read back. *)
Lemma written_feature_bits_witness :
  let E := Reader.example_env in
  let W := Reader.example_writer_env in
  let r := snd (Reader.ReadFromString E Reader.new_reader
                  Reader.perf_data_with_unsupported_feature) in
  let out := snd (Reader.WriteToString E W r []) in
  let r' := snd (Reader.ReadFromString E Reader.new_reader out) in
  take 104 out
  = Reader.encode_perf_file_header (Reader.GenerateHeader E W r)
  /\ nth 0 (Kernel.hdr_adds_features (Reader.GenerateHeader E W r)) 0
     = Z.land (Reader.metadata_mask (Reader.proto_ r))
         Kernel.kSupportedMetadataMask
  /\ Reader.only_supported_bits r'
  /\ (forall bit : Z,
        Reader.get_metadata_mask_bit r bit = true ->
        Z.testbit Kernel.kSupportedMetadataMask bit = true ->
        Reader.get_metadata_mask_bit r' bit = true)
  /\ (~ Reader.only_supported_bits r ->
      Reader.proto_ r' <> Reader.proto_ r).
Proof.
  intros E W r out r'.
  apply (written_feature_bits_are_supported E W) with (r0 := Reader.new_reader)
    (str := []).
  - intros event read_size s. reflexivity.
  - intros ty size s. unfold E. cbn.
    unfold Reader.ReadData, bind.
    destruct ((0 <=? size) && _); reflexivity.
  - vm_compute. reflexivity.
  - vm_compute. reflexivity.
Defined.

(** A feature bit that the writer does not support is lost when a file is
    read, written and read again.  The 120-byte input of
    [perf_data_with_unsupported_feature] has
    feature bit 18 set; it reads successfully, the model is written
    successfully, the output reads successfully, and the model read back
    differs from the first one: its mask is 0 instead of [2 ^ 18]. *)
Lemma round_trip_drops_unsupported_feature_bit :
  let read := Reader.ReadFromString Reader.example_env Reader.new_reader in
  let write := fun r =>
    Reader.WriteToString Reader.example_env Reader.example_writer_env r [] in
  let bytes := Reader.perf_data_with_unsupported_feature in
  fst (read bytes) = Done tt
  /\ fst (write (snd (read bytes))) = Done tt
  /\ fst (read (snd (write (snd (read bytes))))) = Done tt
  /\ Reader.metadata_mask (Reader.proto_ (snd (read bytes))) = 2 ^ 18
  /\ Reader.metadata_mask
       (Reader.proto_ (snd (read (snd (write (snd (read bytes))))))) = 0
  /\ Reader.proto_ (snd (read (snd (write (snd (read bytes))))))
     <> Reader.proto_ (snd (read bytes)).
Proof.
  cbv zeta. repeat split; try (vm_compute; reflexivity).
  intros Heq. apply (f_equal Reader.metadata_mask) in Heq.
  vm_compute in Heq. discriminate.
Qed.

(** The output of [WriteToString] has [GetSize()] bytes, and [GetSize]
    counts the 8, 4, 4 and 4 bytes that the CPU topology, the NUMA
    topology, the PMU mappings and the group descriptions take when they
    are empty, whether or not the model has these sections: a file that
    is the 104-byte header alone, with no feature bit, is read and then
    written as these 104 bytes followed by 20 zero bytes. *)
Example header_only_file_is_written_with_20_more_bytes :
  let read := Reader.ReadFromString Reader.example_env Reader.new_reader in
  let write := fun r =>
    Reader.WriteToString Reader.example_env Reader.example_writer_env r [] in
  let bytes := Reader.bare_perf_data 0 [] in
  length bytes = 104%nat
  /\ fst (read bytes) = Done tt
  /\ write (snd (read bytes)) = (Done tt, bytes ++ repeat 0 20).
Proof. cbv zeta. repeat split; vm_compute; reflexivity. Qed.

(* ===================================================================== *)
(** * Part II, continued. Further properties of the code                  *)
(* ===================================================================== *)

(** ** Bit reversal *)

Section ReverseBits.
Import Reader.

Lemma byte_cases (x : Z) :
  0 <= x < 256 -> In x (map Z.of_nat (seq 0 256)).
Proof.
  intros Hx. apply in_map_iff. exists (Z.to_nat x). split; [lia|].
  apply in_seq. lia.
Qed.

Lemma bit_index_cases (i : Z) : 0 <= i < 8 -> In i [0; 1; 2; 3; 4; 5; 6; 7].
Proof. intros Hi. cbn. lia. Qed.

(** [ReverseByte] turns the bits of a byte round: bit [i] of the result is
    bit [7 - i] of the argument; the result is a byte, and reversing it
    gives the argument back.  [SwapBitfieldOfBits] applied twice to the
    first [len] bytes of a field that has them therefore restores the
    field. *)
Theorem ReverseByte_reverses_the_bits (x : Z) (field : list Z) (len : nat) :
  0 <= x < 256 ->
  Forall (fun b => 0 <= b < 256) field ->
  (len <= length field)%nat ->
  (forall i : Z, 0 <= i < 8 ->
     Z.testbit (ReverseByte x) i = Z.testbit x (7 - i))
  /\ 0 <= ReverseByte x < 256
  /\ ReverseByte (ReverseByte x) = x
  /\ SwapBitfieldOfBits (SwapBitfieldOfBits field len) len = field.
Proof.
  assert (forallb (fun x =>
            forallb (fun i => Bool.eqb (Z.testbit (ReverseByte x) i)
                                       (Z.testbit x (7 - i)))
              [0; 1; 2; 3; 4; 5; 6; 7]
            && (0 <=? ReverseByte x) && (ReverseByte x <? 256)
            && (ReverseByte (ReverseByte x) =? x))
          (map Z.of_nat (seq 0 256)) = true) as Hall
    by (vm_compute; reflexivity).
  rewrite forallb_forall in Hall.
  assert (forall b, 0 <= b < 256 -> ReverseByte (ReverseByte b) = b) as Hinv.
  { intros b Hb. specialize (Hall b (byte_cases b Hb)).
    apply andb_true_iff in Hall as [_ H]. now apply Z.eqb_eq. }
  intros Hx Hfield Hle. specialize (Hall x (byte_cases x Hx)).
  apply andb_true_iff in Hall as [Hall _].
  apply andb_true_iff in Hall as [Hall Hhi].
  apply andb_true_iff in Hall as [Hbits Hlo].
  rewrite forallb_forall in Hbits.
  split; [|split; [|split]].
  - intros i Hi. apply Bool.eqb_prop, Hbits, bit_index_cases, Hi.
  - apply Z.leb_le in Hlo. apply Z.ltb_lt in Hhi. lia.
  - now apply Hinv.
  - assert (forall l : list Z, Forall (fun b => 0 <= b < 256) l ->
              map ReverseByte (map ReverseByte l) = l) as Hmap.
    { intros l Hl. rewrite map_map. rewrite <- (map_id l) at 2.
      apply map_ext_Forall. eapply List.Forall_impl; [|exact Hl].
      intros b Hb. now apply Hinv. }
    unfold SwapBitfieldOfBits.
    assert (length (map ReverseByte (take len field)) = len) as Hlen
      by (rewrite length_map, length_take; lia).
    rewrite take_app_length' by now rewrite Hlen.
    rewrite drop_app_length' by now rewrite Hlen.
    rewrite Hmap by now apply Forall_take.
    apply take_drop.
Qed.

End ReverseBits.

Lemma ReverseByte_witness :
  (forall i : Z, 0 <= i < 8 ->
     Z.testbit (Reader.ReverseByte 0x12) i = Z.testbit 0x12 (7 - i))
  /\ 0 <= Reader.ReverseByte 0x12 < 256
  /\ Reader.ReverseByte (Reader.ReverseByte 0x12) = 0x12
  /\ Reader.SwapBitfieldOfBits
       (Reader.SwapBitfieldOfBits [0x12; 0x34; 0x56] 2) 2
     = [0x12; 0x34; 0x56].
Proof.
  apply (ReverseByte_reverses_the_bits 0x12 [0x12; 0x34; 0x56] 2).
  - lia.
  - repeat constructor; lia.
  - cbn. lia.
Defined.

(** ** The supported feature types *)

Section SupportedFeatures.
Import Kernel Reader.

Lemma is_supported_metadata_range (ty : Z) :
  is_supported_metadata ty = (1 <=? ty) && (ty <=? 17).
Proof.
  destruct (Z_lt_dec ty 1) as [Hlo|Hlo];
    [|destruct (Z_lt_dec 17 ty) as [Hhi|Hhi]].
  - replace ((1 <=? ty) && (ty <=? 17)) with false
      by (symmetry; apply andb_false_iff; left; apply Z.leb_gt; lia).
    unfold is_supported_metadata, Serializer.one_of. cbn [existsb].
    repeat (apply orb_false_iff; split;
            [apply Z.eqb_neq; unfold HEADER_TRACING_DATA, HEADER_BUILD_ID,
               HEADER_HOSTNAME, HEADER_OSRELEASE, HEADER_VERSION,
               HEADER_ARCH, HEADER_NRCPUS, HEADER_CPUDESC, HEADER_CPUID,
               HEADER_TOTAL_MEM, HEADER_CMDLINE, HEADER_EVENT_DESC,
               HEADER_CPU_TOPOLOGY, HEADER_NUMA_TOPOLOGY,
               HEADER_BRANCH_STACK, HEADER_PMU_MAPPINGS, HEADER_GROUP_DESC;
             lia|]).
    reflexivity.
  - replace ((1 <=? ty) && (ty <=? 17)) with false
      by (symmetry; apply andb_false_iff; right; apply Z.leb_gt; lia).
    unfold is_supported_metadata, Serializer.one_of. cbn [existsb].
    repeat (apply orb_false_iff; split;
            [apply Z.eqb_neq; unfold HEADER_TRACING_DATA, HEADER_BUILD_ID,
               HEADER_HOSTNAME, HEADER_OSRELEASE, HEADER_VERSION,
               HEADER_ARCH, HEADER_NRCPUS, HEADER_CPUDESC, HEADER_CPUID,
               HEADER_TOTAL_MEM, HEADER_CMDLINE, HEADER_EVENT_DESC,
               HEADER_CPU_TOPOLOGY, HEADER_NUMA_TOPOLOGY,
               HEADER_BRANCH_STACK, HEADER_PMU_MAPPINGS, HEADER_GROUP_DESC;
             lia|]).
    reflexivity.
  - assert (In ty (map Z.of_nat (seq 0 18))) as Hin.
    { apply in_map_iff. exists (Z.to_nat ty). split; [lia|].
      apply in_seq. lia. }
    assert (forallb (fun ty => Bool.eqb (is_supported_metadata ty)
                                 ((1 <=? ty) && (ty <=? 17)))
              (map Z.of_nat (seq 0 18)) = true) as Hall
      by (vm_compute; reflexivity).
    rewrite forallb_forall in Hall. apply Bool.eqb_prop, Hall, Hin.
Qed.

(** The bits of [kSupportedMetadataMask] are the feature types for which
    the switch of [ReadMetadataWithoutHeader] has a case, which are the
    types 1 to 17; for these and no others the switch of [WriteMetadata]
    has a case as well. *)
Theorem supported_mask_matches_the_switches (W : WriterEnv) (r : PerfReader)
    (ty : Z) :
  Z.testbit kSupportedMetadataMask ty = is_supported_metadata ty
  /\ is_supported_metadata ty = (1 <=? ty) && (ty <=? 17)
  /\ (is_supported_metadata ty = false -> WriteFeature W r ty = failed).
Proof.
  split; [|split].
  - rewrite is_supported_metadata_range.
    destruct (Z_lt_dec ty 0) as [Hneg|Hpos];
      [|destruct (Z_lt_dec ty 18) as [Hlo|Hhi]].
    + rewrite Z.testbit_neg_r by lia. symmetry.
      apply andb_false_iff. left. apply Z.leb_gt. lia.
    + assert (In ty (map Z.of_nat (seq 0 18))) as Hin.
      { apply in_map_iff. exists (Z.to_nat ty). split; [lia|].
        apply in_seq. lia. }
      assert (forallb (fun ty => Bool.eqb
                                   (Z.testbit kSupportedMetadataMask ty)
                                   ((1 <=? ty) && (ty <=? 17)))
                (map Z.of_nat (seq 0 18)) = true) as Hall
        by (vm_compute; reflexivity).
      rewrite forallb_forall in Hall. apply Bool.eqb_prop, Hall, Hin.
    + rewrite Z.bits_above_log2; [|vm_compute; discriminate|].
      * symmetry. apply andb_false_iff. right. apply Z.leb_gt. lia.
      * change (Z.log2 kSupportedMetadataMask) with 17. lia.
  - apply is_supported_metadata_range.
  - intros Hty. unfold WriteFeature. rewrite Hty.
    rewrite is_supported_metadata_range in Hty.
    destruct (ty =? HEADER_TRACING_DATA) eqn:H1.
    { apply Z.eqb_eq in H1. subst ty. discriminate. }
    destruct (ty =? HEADER_BRANCH_STACK) eqn:H2.
    { apply Z.eqb_eq in H2. subst ty. discriminate. }
    reflexivity.
Qed.

End SupportedFeatures.

(** ** The sample info readers of the serializer *)

Section SampleInfoReaders.
Import Kernel Serializer Reader.
Variable F : SampleFormat.

Lemma in_bounds_iff {A : Type} (r : res A) :
  r <> Crashed OutOfBounds -> in_bounds r.
Proof. destruct r as [a| |[]]; cbn; auto. Qed.

Lemma UpdateEventIdPositions_keeps_map (s : PerfSerializer)
    (a : perf_event_attr) :
  sample_info_reader_map_ (snd (UpdateEventIdPositions F s a))
  = sample_info_reader_map_ s.
Proof.
  unfold UpdateEventIdPositions.
  destruct (sample_event_id_pos_ s =? Uninitialized); cbn.
  - destruct (other_event_id_pos_ s =? Uninitialized); [reflexivity|].
    destruct (negb _); reflexivity.
  - destruct (negb _); [reflexivity|].
    destruct (other_event_id_pos_ s =? Uninitialized); [reflexivity|].
    destruct (negb _); reflexivity.
Qed.

Lemma reader_map_find_set (id k : Z) (a : perf_event_attr) (m : reader_map) :
  reader_map_find id (reader_map_set k a m)
  = if id =? k then Some a else reader_map_find id m.
Proof.
  unfold reader_map_find.
  induction m as [|[k0 v0] m IH]; cbn [reader_map_set List.find fst snd].
  - rewrite (Z.eqb_sym k id). now destruct (id =? k).
  - destruct (k <? k0) eqn:Hlt; [|destruct (k =? k0) eqn:Heq];
      cbn [List.find fst snd].
    + rewrite (Z.eqb_sym k id). now destruct (id =? k).
    + apply Z.eqb_eq in Heq. subst k0. rewrite (Z.eqb_sym k id).
      now destruct (id =? k).
    + destruct (k0 =? id) eqn:H0.
      * apply Z.eqb_eq in H0. subst k0.
        rewrite (Z.eqb_sym id k), Heq. reflexivity.
      * exact IH.
Qed.

Lemma reader_map_find_fold (id : Z) (a : perf_event_attr) (keys : list Z)
    (m : reader_map) :
  reader_map_find id
    (fold_left (fun m id => reader_map_set id a m) keys m)
  = if existsb (Z.eqb id) keys then Some a else reader_map_find id m.
Proof.
  revert m. induction keys as [|k keys IH]; intros m; cbn [fold_left existsb].
  - reflexivity.
  - rewrite IH, reader_map_find_set.
    destruct (id =? k); cbn [orb]; [|reflexivity].
    now destruct (existsb (Z.eqb id) keys).
Qed.

(** After [CreateSampleInfoReader] for an attribute, whatever it returned,
    [GetSampleInfoReaderForId] finds this attribute's reader under each of
    the attribute's IDs, and under every other ID (but 0) what it found
    before: a reader of another attribute is replaced only where an ID is
    shared, and an ID that no attribute has still gives [nullptr]. *)
Theorem reader_is_found_under_its_ids (s : PerfSerializer)
    (fa : PerfFileAttr) (id : Z) :
  id <> 0 ->
  GetSampleInfoReaderForId (snd (CreateSampleInfoReader F s fa)) id
  = if existsb (Z.eqb id) (ids fa) then Some (attr fa)
    else GetSampleInfoReaderForId s id.
Proof.
  intros Hid. apply Z.eqb_neq in Hid.
  unfold GetSampleInfoReaderForId, CreateSampleInfoReader.
  rewrite Hid. cbn [negb].
  rewrite UpdateEventIdPositions_keeps_map. cbn [sample_info_reader_map_].
  rewrite reader_map_find_fold.
  destruct (ids fa) as [|i0 l]; [|reflexivity].
  cbn [existsb orb]. now rewrite Hid.
Qed.

Lemma UpdateEventIdPositions_positions_ok (s : PerfSerializer)
    (a : perf_event_attr) :
  positions_ok s -> positions_ok (snd (UpdateEventIdPositions F s a)).
Proof.
  assert (new_sample_event_id_pos F (sample_type a) = NotPresent
          \/ 0 <= new_sample_event_id_pos F (sample_type a)) as Hs.
  { unfold new_sample_event_id_pos, incr_if.
    repeat match goal with
           | |- context [if ?b then _ else _] => destruct b
           end; auto; right; lia. }
  assert (new_other_event_id_pos F (sample_type a) = NotPresent
          \/ 1 <= new_other_event_id_pos F (sample_type a)) as Ho.
  { unfold new_other_event_id_pos, incr_if.
    repeat match goal with
           | |- context [if ?b then _ else _] => destruct b
           end; auto; right; lia. }
  intros [H1 H2]. unfold UpdateEventIdPositions, positions_ok.
  destruct (sample_event_id_pos_ s =? Uninitialized); cbn.
  - destruct (other_event_id_pos_ s =? Uninitialized); cbn;
      [tauto|].
    destruct (negb _); cbn; tauto.
  - destruct (negb _); cbn; [tauto|].
    destruct (other_event_id_pos_ s =? Uninitialized); cbn; [tauto|].
    destruct (negb _); cbn; tauto.
Qed.

Lemma after_attrs_positions_ok (attrs : list PerfFileAttr) :
  positions_ok (after_attrs F attrs).
Proof.
  unfold after_attrs.
  assert (positions_ok new_serializer) as H0 by (split; now left).
  revert H0. generalize new_serializer.
  induction attrs as [|fa attrs IH]; intros s Hs; cbn [fold_left].
  - exact Hs.
  - apply IH. unfold CreateSampleInfoReader.
    apply UpdateEventIdPositions_positions_ok.
    exact Hs.
Qed.

(** Whatever attributes the serializer was given, and whatever the event
    and the size that [GetEventDataSize] reports for it,
    [GetSampleInfoReaderForEvent] reads the event's ID inside the event:
    the word it takes from the sample info array lies within the
    [header.size] bytes of the event. *)
Theorem event_id_is_read_inside_the_event (K : RecordABI)
    (IsSupportedEventType : Z -> bool) (GetEventDataSize : event_t -> Z)
    (attrs : list PerfFileAttr) (event : event_t) :
  in_bounds
    (GetSampleInfoReaderForEvent K IsSupportedEventType GetEventDataSize
       (after_attrs F attrs) event).
Proof.
  apply in_bounds_iff.
  pose proof (after_attrs_positions_ok attrs) as [Hs Ho].
  generalize dependent (after_attrs F attrs). intros s Hs Ho.
  unfold GetSampleInfoReaderForEvent.
  set (pos := if h_type (e_header event) =? PERF_RECORD_SAMPLE K
              then sample_event_id_pos_ s
              else if ContainsSampleInfo K IsSupportedEventType s
                        (h_type (e_header event))
                   then other_event_id_pos_ s else NotPresent).
  destruct (pos =? Uninitialized) eqn:Hu; [discriminate|].
  destruct (pos =? NotPresent) eqn:Hn; [discriminate|].
  apply Z.eqb_neq in Hu, Hn.
  set (offset := u64 (GetEventDataSize event)).
  assert (0 <= offset) as Hoff by (apply Z.mod_pos_bound; lia).
  destruct (offset =? 0); [discriminate|].
  destruct (h_size (e_header event) <=? offset) eqn:Hsz; [discriminate|].
  apply Z.leb_gt in Hsz.
  pose proof (Z.mul_div_le offset 8 ltac:(lia)) as Hd1.
  pose proof (Z.mul_div_le (h_size (e_header event) - offset) 8 ltac:(lia))
    as Hd2.
  assert (0 <= offset / 8) as Hd3 by (apply Z.div_pos; lia).
  set (array_size := (h_size (e_header event) - offset) / 8) in *.
  assert (forall i, 0 <= i < array_size ->
            event_word event (offset / 8 + i) <> Crashed OutOfBounds) as Hw.
  { intros i Hi. unfold event_word.
    replace ((0 <=? offset / 8 + i)
             && (8 * (offset / 8 + i) + 8 <=? h_size (e_header event)))
      with true; [discriminate|].
    symmetry. apply andb_true_iff. split; apply Z.leb_le; lia. }
  subst pos.
  destruct (h_type (e_header event) =? PERF_RECORD_SAMPLE K).
  - destruct (array_size <=? sample_event_id_pos_ s) eqn:Hlt; [discriminate|].
    apply Z.leb_gt in Hlt.
    specialize (Hw (sample_event_id_pos_ s) ltac:(lia)).
    destruct (event_word event _) as [id| |c]; [discriminate..|].
    intros [= ->]. now apply Hw.
  - destruct (ContainsSampleInfo K IsSupportedEventType s _);
      [|now contradiction Hn].
    destruct (array_size <? other_event_id_pos_ s) eqn:Hlt; [discriminate|].
    apply Z.ltb_ge in Hlt.
    specialize (Hw (array_size - other_event_id_pos_ s) ltac:(lia)).
    destruct (event_word event _) as [id| |c]; [discriminate..|].
    intros [= ->]. now apply Hw.
Qed.

End SampleInfoReaders.

Lemma reader_is_found_under_its_ids_witness :
  Serializer.GetSampleInfoReaderForId
    (snd (Serializer.CreateSampleInfoReader Kernel.linux_sample_format
            Serializer.new_serializer
            (Serializer.example_file_attr false [11; 12]))) 12
  = Some (Serializer.attr (Serializer.example_file_attr false [11; 12])).
Proof.
  apply (reader_is_found_under_its_ids Kernel.linux_sample_format
           Serializer.new_serializer
           (Serializer.example_file_attr false [11; 12]) 12).
  lia.
Defined.

(** ** Sorting twice *)

Section SortTwice.
Import Kernel Serializer Reader.

Lemma stable_sort_of_sorted {A : Type} (key : A -> Z) (l : list A) :
  StronglySorted (fun a b => key a <= key b) l ->
  stable_sort (fun a b => key a <? key b) l = l.
Proof.
  induction 1 as [|x l Hs IH Hx]; [reflexivity|].
  cbn [stable_sort fold_right]. unfold stable_sort in IH. rewrite IH.
  destruct l as [|y l]; [reflexivity|]. cbn [stable_insert].
  replace (key y <? key x) with false; [reflexivity|].
  symmetry. apply Z.ltb_ge. now inversion Hx.
Qed.

(** [MaybeSortEventsByTime] applied to a reader that it has already
    sorted (or left alone) changes nothing. *)
Theorem MaybeSortEventsByTime_twice (F : SampleFormat) (r : PerfReader) :
  MaybeSortEventsByTime F (MaybeSortEventsByTime F r)
  = MaybeSortEventsByTime F r.
Proof.
  unfold MaybeSortEventsByTime.
  destruct (forallb _ (file_attrs (proto_ r))) eqn:Hall.
  - cbn [set_proto proto_ set_events file_attrs events]. rewrite Hall.
    unfold CompareEventTimes, set_proto, set_events.
    cbn [proto_ events file_attrs event_types metadata_mask metadata
         header_ serializer_ is_cross_endian_ file_attrs_seen_
         file_attr_configs_seen_ filenames_with_build_id_
         event_types_to_skip_when_serializing_].
    rewrite (stable_sort_of_sorted ev_timestamp)
      by apply stable_sort_sorted.
    reflexivity.
  - now rewrite Hall.
Qed.

End SortTwice.

(** ** The feature sections *)

Section CountingBits.
Import Kernel Reader.

Lemma land_pow2_testbit (x n : Z) :
  0 <= n ->
  negb (Z.land x (Z.shiftl 1 n) =? 0) = Z.testbit x n.
Proof.
  intros Hn. rewrite Z.shiftl_1_l.
  destruct (Z.testbit x n) eqn:Hb.
  - apply negb_true_iff, Z.eqb_neq. intros H0.
    assert (Z.testbit (Z.land x (2 ^ n)) n = true) as H1
      by (rewrite Z.land_spec, Hb, Z.pow2_bits_true by lia; reflexivity).
    rewrite H0, Z.bits_0 in H1. discriminate.
  - apply negb_false_iff, Z.eqb_eq. apply Z.bits_inj_0. intros i.
    rewrite Z.land_spec.
    destruct (Z.eq_dec n i) as [<-|Hi].
    + now rewrite Hb.
    + destruct (Z.ltb_spec i 0) as [Hneg|Hpos].
      * rewrite (Z.testbit_neg_r (2 ^ n)) by lia. apply andb_false_r.
      * rewrite Z.pow2_bits_false by lia. apply andb_false_r.
Qed.

Lemma filter_all_false {A : Type} (f : A -> bool) (l : list A) :
  forallb (fun a => negb (f a)) l = true -> List.filter f l = [].
Proof.
  induction l as [|a l IH]; cbn; [reflexivity|].
  intros [Ha Hl]%andb_true_iff. apply negb_true_iff in Ha.
  rewrite Ha. now apply IH.
Qed.

Lemma length_filter_map {A B : Type} (g : A -> B) (f : B -> bool)
    (l : list A) :
  length (List.filter f (map g l))
  = length (List.filter (fun a => f (g a)) l).
Proof.
  induction l as [|a l IH]; cbn; [reflexivity|].
  destruct (f (g a)); cbn; now rewrite IH.
Qed.

(** The bits that [GetNumBits] counts, by where they lie. *)
Lemma GetNumBits_split (x : Z) :
  GetNumBits x
  = (length (List.filter (fun i => Z.testbit x (Z.of_nat i)) (seq 0 1))
     + (length (List.filter (fun ty => Z.testbit x ty) feature_types)
        + length (List.filter (fun i => Z.testbit x (Z.of_nat i))
                    (seq 18 46))))%nat.
Proof.
  unfold GetNumBits, feature_types.
  change (seq 0 64) with (seq 0 1 ++ seq 1 17 ++ seq 18 46).
  rewrite !List.filter_app, !length_app, length_filter_map.
  reflexivity.
Qed.

Lemma GetNumBits_supported (m : Z) :
  GetNumBits (Z.land m kSupportedMetadataMask)
  = length (List.filter
              (fun ty => Z.testbit (Z.land m kSupportedMetadataMask) ty)
              feature_types).
Proof.
  assert (forall l : list nat,
            forallb (fun i => negb (Z.testbit kSupportedMetadataMask
                                      (Z.of_nat i))) l = true ->
            List.filter
              (fun i => Z.testbit (Z.land m kSupportedMetadataMask)
                          (Z.of_nat i)) l = []) as Hnone.
  { intros l Hl. apply filter_all_false, forallb_forall. intros i Hi.
    rewrite forallb_forall in Hl. specialize (Hl i Hi).
    apply negb_true_iff in Hl.
    now rewrite Z.land_spec, Hl, andb_false_r. }
  rewrite GetNumBits_split.
  rewrite (Hnone (seq 0 1)), (Hnone (seq 18 46))
    by (vm_compute; reflexivity).
  cbn [length]. lia.
Qed.

Lemma feature_types_nonneg : Forall (fun ty => 0 <= ty) feature_types.
Proof.
  unfold feature_types. apply List.Forall_forall.
  intros ty (i & <- & _)%in_map_iff. lia.
Qed.

End CountingBits.

Section WriteMetadataCount.
Import Kernel Reader.
Variables (E : Env) (W : WriterEnv).

Lemma WriteMetadata_loop_length (r : PerfReader) (header : perf_file_header)
    (types : list Z) (w w' : DataWriter)
    (sections : list perf_file_section) :
  Forall (fun ty => 0 <= ty) types ->
  WriteMetadata_loop W r header types w = (Done sections, w') ->
  length sections
  = length (List.filter
              (fun ty => Z.testbit (nth 0 (hdr_adds_features header) 0) ty)
              types).
Proof.
  intros Htypes. revert w w' sections.
  induction Htypes as [|ty types Hty Htypes IH]; intros w w' sections Hrun;
    cbn [WriteMetadata_loop List.filter] in *.
  - now injection Hrun as <- _.
  - rewrite <- (land_pow2_testbit _ ty Hty).
    destruct (Z.land _ (Z.shiftl 1 ty) =? 0); cbn [negb].
    + now apply IH in Hrun.
    + inv_get Hrun. inv_bind Hrun as u w1 Hfeat. inv_get Hrun.
      inv_bind Hrun as later w2 Hloop. injection Hrun as <- _.
      cbn [length]. f_equal. now apply IH in Hloop.
Qed.

(** The loop of [WriteMetadata], run on the header that [GenerateHeader]
    makes, records as many sections as [GetNumSupportedMetadata] counts
    whenever it comes to its end: the [CHECK_EQ] that follows it holds. *)
Theorem WriteMetadata_records_every_supported_feature (r : PerfReader)
    (w w' : DataWriter) (sections : list perf_file_section) :
  WriteMetadata_loop W r (GenerateHeader E W r) feature_types w
  = (Done sections, w') ->
  length sections = GetNumSupportedMetadata r.
Proof.
  intros Hrun.
  apply WriteMetadata_loop_length in Hrun; [|apply feature_types_nonneg].
  rewrite Hrun. unfold GetNumSupportedMetadata.
  now rewrite GetNumBits_supported.
Qed.

End WriteMetadataCount.

Lemma WriteMetadata_count_witness :
  let r := Reader.set_proto (Reader.set_metadata_mask 0x26) Reader.new_reader in
  length (match fst (Reader.WriteMetadata_loop Reader.example_writer_env r
                       (Reader.GenerateHeader Reader.example_env
                          Reader.example_writer_env r)
                       Reader.feature_types
                       (Reader.BufferWriter (repeat 0 200)))
          with Done sections => sections | _ => [] end)
  = Reader.GetNumSupportedMetadata r.
Proof.
  intros r.
  destruct (Reader.WriteMetadata_loop Reader.example_writer_env r
              (Reader.GenerateHeader Reader.example_env
                 Reader.example_writer_env r)
              Reader.feature_types (Reader.BufferWriter (repeat 0 200)))
    as [[sections| |c] w'] eqn:Hrun;
    [|vm_compute in Hrun; discriminate..].
  exact (WriteMetadata_records_every_supported_feature
           Reader.example_env Reader.example_writer_env r _ _ _ Hrun).
Defined.

Section ReadMetadataSections.
Import Kernel Reader.
Variable E : Env.
Hypothesis ReadSupportedMetadata_keeps_mask :
  forall ty size, keeps_metadata_mask (ReadSupportedMetadata E ty size).
Hypothesis ReadSupportedMetadata_in_bounds :
  forall ty size, never_out_of_bounds (ReadSupportedMetadata E ty size).

Lemma SeekSet_this (off : Z) (s : State) :
  this (snd (SeekSet off s)) = this s
  /\ fst (SeekSet off s) <> Crashed OutOfBounds.
Proof.
  unfold SeekSet.
  destruct ((0 <=? off) && (off <=? data_size (data s))); cbn; split;
    (reflexivity || discriminate).
Qed.

Lemma lor_set_bit (m ty : Z) :
  0 <= ty -> Z.testbit m ty = true -> Z.lor m (Z.shiftl 1 ty) = m.
Proof.
  intros Hty Hbit. apply Z.bits_inj. intros i.
  rewrite Z.lor_spec, Z.shiftl_1_l.
  destruct (Z.eq_dec ty i) as [<-|Hi].
  - now rewrite Hbit.
  - destruct (Z.ltb_spec i 0) as [Hneg|Hpos].
    + rewrite !Z.testbit_neg_r by lia. reflexivity.
    + rewrite Z.pow2_bits_false by lia. apply orb_false_r.
Qed.

(** [ReadMetadataWithoutHeader] after its size check, step by step. *)
Lemma ReadMetadataWithoutHeader_steps (ty size : Z) (s : State) :
  ReadMetadataWithoutHeader E ty size s
  = if negb (size >? data_size (data s) - Tell (data s)) then
      let reader : M State unit :=
        if negb (is_supported_metadata ty) then ret tt
        else if ty =? HEADER_BRANCH_STACK then ret tt
        else ReadSupportedMetadata E ty size in
      let s2 :=
        if is_supported_metadata ty
        then set_this (set_metadata_mask_bit ty) (snd (reader s))
        else snd (reader s) in
      match fst (reader s) with
      | Done _ =>
          if negb (size =? u64 (Tell (data s2) - Tell (data s)))
          then SeekSet (u64 (Tell (data s2)
                             + (size - (Tell (data s2) - Tell (data s)))))
                 s2
          else (Done tt, s2)
      | Failed => (Failed, s2)
      | Crashed c => (Crashed c, snd (reader s))
      end
    else (Failed, s).
Proof.
  unfold ReadMetadataWithoutHeader, bind, get.
  destruct (negb (size >? data_size (data s) - Tell (data s)));
    [|reflexivity].
  cbv beta iota delta [require].
  change (@ret State unit tt s) with (Done tt, s). cbv beta iota zeta.
  generalize ((if negb (is_supported_metadata ty) then ret tt
               else if ty =? HEADER_BRANCH_STACK then ret tt
                    else ReadSupportedMetadata E ty size) s).
  intros [[u| |c] s1]; reflexivity.
Qed.

(** Reading a feature whose bit is set leaves the mask as it is. *)
Lemma ReadMetadataWithoutHeader_set_bit (ty size : Z) (s : State) :
  0 <= ty ->
  get_metadata_mask_bit (this s) ty = true ->
  fst (ReadMetadataWithoutHeader E ty size s) <> Crashed OutOfBounds
  /\ metadata_mask (proto_ (this (snd (ReadMetadataWithoutHeader E ty size s))))
     = metadata_mask (proto_ (this s)).
Proof.
  intros Hty Hbit. rewrite ReadMetadataWithoutHeader_steps.
  destruct (negb (size >? data_size (data s) - Tell (data s)));
    [|split; [discriminate|reflexivity]].
  cbv zeta.
  set (reader := if negb (is_supported_metadata ty) then ret tt
                 else if ty =? HEADER_BRANCH_STACK then ret tt
                 else ReadSupportedMetadata E ty size).
  assert (fst (reader s) <> Crashed OutOfBounds
          /\ metadata_mask (proto_ (this (snd (reader s))))
             = metadata_mask (proto_ (this s))) as [Hres Hmask].
  { subst reader. destruct (negb (is_supported_metadata ty));
      [split; [discriminate|reflexivity]|].
    destruct (ty =? HEADER_BRANCH_STACK);
      [split; [discriminate|reflexivity]|].
    split; [apply ReadSupportedMetadata_in_bounds
           |apply ReadSupportedMetadata_keeps_mask]. }
  set (s2 := if is_supported_metadata ty
             then set_this (set_metadata_mask_bit ty) (snd (reader s))
             else snd (reader s)).
  assert (metadata_mask (proto_ (this s2)) = metadata_mask (proto_ (this s)))
    as Hs2.
  { subst s2. destruct (is_supported_metadata ty); [|exact Hmask].
    cbn [this set_this set_metadata_mask_bit set_proto proto_
         set_metadata_mask metadata_mask].
    rewrite Hmask. apply lor_set_bit; assumption. }
  destruct (fst (reader s)) as [u| |c].
  - destruct (negb (size =? u64 (Tell (data s2) - Tell (data s)))).
    + destruct (SeekSet_this
                  (u64 (Tell (data s2)
                        + (size - (Tell (data s2) - Tell (data s))))) s2)
        as [Hthis Hoob].
      split; [exact Hoob|]. now rewrite Hthis.
    + split; [discriminate|exact Hs2].
  - split; [discriminate|exact Hs2].
  - split; [exact Hres|exact Hmask].
Qed.

Lemma ReadPerfFileSection_in_bounds (s : State) :
  this (snd (ReadPerfFileSection s)) = this s
  /\ fst (ReadPerfFileSection s) <> Crashed OutOfBounds.
Proof.
  unfold ReadPerfFileSection, bind, get, ReadData.
  destruct ((0 <=? sizeof_perf_file_section) && _); cbn;
    [|split; [reflexivity|discriminate]].
  destruct (negb (_ >? _)); cbn; [|split; [reflexivity|discriminate]].
  destruct (negb (_ >? _)); cbn; split; (reflexivity || discriminate).
Qed.

Lemma ReadSections_length (n : nat) (s : State) :
  this (snd (ReadSections n s)) = this s
  /\ match fst (ReadSections n s) with
     | Done sections => length sections = n
     | Failed => True
     | Crashed c => c <> OutOfBounds
     end.
Proof.
  revert s. induction n as [|n IH]; intros s; cbn [ReadSections].
  - split; reflexivity.
  - unfold bind.
    destruct (ReadPerfFileSection_in_bounds s) as [Hthis Hres].
    destruct (ReadPerfFileSection s) as [[section| |c] s1];
      cbn [fst snd] in *; [|split; [exact Hthis|exact I]
                           |split; [exact Hthis|congruence]].
    destruct (IH s1) as [Hthis1 Hlen].
    destruct (ReadSections n s1) as [[rest| |c] s2];
      unfold ret; cbn [fst snd length] in *.
    + split; [congruence|]. now rewrite Hlen.
    + split; [congruence|exact I].
    + split; [congruence|exact Hlen].
Qed.

Lemma ReadMetadata_loop_in_bounds (types : list Z)
    (sections : list perf_file_section) (s : State) :
  Forall (fun ty => 0 <= ty) types ->
  (length (List.filter
             (fun ty => Z.testbit (metadata_mask (proto_ (this s))) ty)
             types)
   <= length sections)%nat ->
  fst (ReadMetadata_loop E types sections s) <> Crashed OutOfBounds.
Proof.
  intros Htypes. revert sections s.
  induction Htypes as [|ty types Hty Htypes IH]; intros sections s Hlen;
    cbn [ReadMetadata_loop].
  - discriminate.
  - unfold bind, get. cbn [List.filter] in Hlen.
    unfold get_metadata_mask_bit.
    destruct (Z.testbit (metadata_mask (proto_ (this s))) ty) eqn:Hbit;
      cbn [negb].
    + destruct sections as [|section later]; [cbn in Hlen; lia|].
      cbn [length] in Hlen.
      destruct (SeekSet_this (sec_offset section) s) as [Hthis Hres].
      destruct (SeekSet (sec_offset section) s) as [[u| |c] s1];
        cbn [fst snd] in *; [|discriminate|congruence].
      destruct (ReadMetadataWithoutHeader_set_bit ty (sec_size section) s1
                  Hty) as [Hres1 Hmask].
      { unfold get_metadata_mask_bit. now rewrite Hthis. }
      destruct (ReadMetadataWithoutHeader E ty (sec_size section) s1)
        as [[u1| |c] s2]; cbn [fst snd] in *; [|discriminate|congruence].
      apply IH. rewrite Hmask, Hthis. lia.
    + now apply IH.
Qed.

(** [ReadMetadata] never takes [section_iter] past the end of [sections]:
    it has read one section header for every bit of the mask, and its
    loop uses one for every bit among the feature types 1 to 17.  (The
    readers of the feature sections are assumed to leave the mask alone,
    as they do in the source, and to stay within bounds themselves.) *)
Theorem ReadMetadata_stays_within_sections :
  never_out_of_bounds (ReadMetadata E).
Proof.
  intros s. unfold ReadMetadata, bind, get.
  destruct (SeekSet_this
              (u64 (sec_offset (hdr_data (header_ (this s)))
                    + sec_size (hdr_data (header_ (this s))))) s)
    as [Hthis Hres].
  destruct (SeekSet _ s) as [[u| |c] s1]; cbn [fst snd] in *;
    [|discriminate|congruence].
  destruct (ReadSections_length
              (GetNumBits (metadata_mask (proto_ (this s)))) s1)
    as [Hthis1 Hlen].
  destruct (ReadSections _ s1) as [[sections| |c] s2]; cbn [fst snd] in *;
    [|discriminate|congruence].
  apply ReadMetadata_loop_in_bounds; [apply feature_types_nonneg|].
  rewrite Hthis1, Hthis, Hlen, GetNumBits_split. lia.
Qed.

End ReadMetadataSections.

Lemma ReadMetadata_within_sections_witness :
  in_bounds
    (fst (Reader.ReadMetadata Reader.example_env
            {| Reader.this :=
                 Reader.set_proto (Reader.set_metadata_mask 2)
                   Reader.new_reader;
               Reader.data :=
                 Reader.BufferReader
                   (Reader.encode_section
                      {| Kernel.sec_offset := 16; Kernel.sec_size := 0 |})
            |})).
Proof.
  apply in_bounds_iff. apply ReadMetadata_stays_within_sections.
  - intros ty size s. cbn. unfold Reader.ReadData, bind.
    destruct ((0 <=? size) && _); reflexivity.
  - intros ty size s. cbn. unfold Reader.ReadData, bind.
    destruct ((0 <=? size) && _); discriminate.
Defined.

Section MetadataCursor.
Import Kernel Reader.
Variable E : Env.

Lemma advance_zero (s : State) : advance 0 s = s.
Proof.
  destruct s as [r [b o c]]. unfold advance, set_data. cbn.
  now rewrite Z.add_0_r.
Qed.

Lemma SeekSet_Done (off : Z) (s : State) :
  0 <= off <= data_size (data s) ->
  SeekSet off s = (Done tt, advance (off - offset (data s)) s).
Proof.
  intros Hoff. unfold SeekSet, advance, set_data.
  replace ((0 <=? off) && (off <=? data_size (data s))) with true
    by (symmetry; apply andb_true_iff; split; apply Z.leb_le; lia).
  do 3 f_equal. lia.
Qed.

(** A feature of a type that the reader does not support is skipped:
    when its [size] bytes are there, [ReadMetadataWithoutHeader] returns
    [true], leaves the reader (mask and model) as it was, and moves the
    cursor [size] bytes on. *)
Theorem unsupported_feature_is_skipped (ty size : Z) (s : State) :
  is_supported_metadata ty = false ->
  0 <= size <= data_size (data s) - offset (data s) ->
  0 <= offset (data s) ->
  data_size (data s) < 2 ^ 64 ->
  ReadMetadataWithoutHeader E ty size s = (Done tt, advance size s).
Proof.
  intros Hty Hsize Hoff Hmax. rewrite ReadMetadataWithoutHeader_steps.
  unfold Tell.
  replace (negb (size >? data_size (data s) - offset (data s))) with true
    by (symmetry; rewrite Z.gtb_ltb; apply negb_true_iff, Z.ltb_ge; lia).
  rewrite Hty. cbn [negb fst snd ret]. cbv zeta.
  rewrite Z.sub_diag. change (u64 0) with 0.
  destruct (size =? 0) eqn:H0; cbn [negb].
  - apply Z.eqb_eq in H0. subst size. now rewrite advance_zero.
  - replace (offset (data s) + (size - 0)) with (offset (data s) + size)
      by lia.
    unfold u64. rewrite Z.mod_small by lia.
    rewrite SeekSet_Done by lia. do 2 f_equal. lia.
Qed.

Hypothesis ReadSupportedMetadata_reads_forward :
  forall ty size, reads_forward (ReadSupportedMetadata E ty size).

(** A successful [ReadMetadataWithoutHeader] has consumed the feature's
    section exactly: it leaves the cursor [size] bytes after the place
    where it started, whatever the feature's reader took of them.  (The
    readers of the feature sections are assumed to read forward.) *)
Theorem feature_section_is_consumed_exactly (ty size : Z) (s s' : State) :
  0 <= size ->
  0 <= offset (data s) <= data_size (data s) ->
  data_size (data s) < 2 ^ 64 ->
  ReadMetadataWithoutHeader E ty size s = (Done tt, s') ->
  offset (data s') = offset (data s) + size
  /\ buffer (data s') = buffer (data s).
Proof.
  intros Hsize Hoff Hmax. rewrite ReadMetadataWithoutHeader_steps.
  unfold Tell.
  destruct (negb (size >? data_size (data s) - offset (data s))) eqn:Hfit;
    [|discriminate].
  apply negb_true_iff in Hfit. rewrite Z.gtb_ltb in Hfit.
  apply Z.ltb_ge in Hfit. cbv zeta.
  set (reader := if negb (is_supported_metadata ty) then ret tt
                 else if ty =? HEADER_BRANCH_STACK then ret tt
                 else ReadSupportedMetadata E ty size).
  assert (reads_forward reader) as Hfwd.
  { subst reader. destruct (negb (is_supported_metadata ty));
      [intros s0 H0; cbn; split; [reflexivity|lia]|].
    destruct (ty =? HEADER_BRANCH_STACK);
      [intros s0 H0; cbn; split; [reflexivity|lia]|].
    apply ReadSupportedMetadata_reads_forward. }
  destruct (Hfwd s Hoff) as [Hbuf Hpos].
  set (s2 := if is_supported_metadata ty
             then set_this (set_metadata_mask_bit ty) (snd (reader s))
             else snd (reader s)).
  assert (data s2 = data (snd (reader s))) as Hdata
    by (subst s2; now destruct (is_supported_metadata ty)).
  rewrite Hdata.
  destruct (fst (reader s)) as [u| |c]; [|discriminate..].
  destruct (negb (size =? u64 (offset (data (snd (reader s)))
                               - offset (data s)))) eqn:Hskip.
  - replace (offset (data (snd (reader s)))
             + (size - (offset (data (snd (reader s))) - offset (data s))))
      with (offset (data s) + size) by lia.
    unfold u64. rewrite Z.mod_small by lia.
    rewrite SeekSet_Done
      by (unfold data_size in *; rewrite Hdata, Hbuf; lia).
    intros [= <-]. unfold advance, set_data.
    cbn [data buffer offset]. rewrite Hdata. split; [lia|exact Hbuf].
  - apply negb_false_iff, Z.eqb_eq in Hskip.
    unfold u64 in Hskip. rewrite Z.mod_small in Hskip by lia.
    intros [= <-]. rewrite Hdata. split; [lia|exact Hbuf].
Qed.

End MetadataCursor.

Lemma unsupported_feature_witness :
  Reader.ReadMetadataWithoutHeader Reader.example_env 18 8
    {| Reader.this := Reader.new_reader;
       Reader.data := Reader.BufferReader (repeat 7 16) |}
  = (Done tt,
     Reader.advance 8
       {| Reader.this := Reader.new_reader;
          Reader.data := Reader.BufferReader (repeat 7 16) |}).
Proof.
  apply unsupported_feature_is_skipped.
  - reflexivity.
  - vm_compute. split; discriminate.
  - vm_compute. discriminate.
  - vm_compute. reflexivity.
Defined.

(** A BRANCH_STACK section of 8 bytes: the switch returns [true] for it
    without reading, so all 8 bytes are skipped by the seek that follows
    the switch. *)
Lemma feature_section_witness :
  let s := {| Reader.this := Reader.new_reader;
              Reader.data := Reader.BufferReader (repeat 7 16) |} in
  let s' := snd (Reader.ReadMetadataWithoutHeader Reader.example_env
                   Kernel.HEADER_BRANCH_STACK 8 s) in
  Reader.offset (Reader.data s') = Reader.offset (Reader.data s) + 8
  /\ Reader.buffer (Reader.data s') = Reader.buffer (Reader.data s).
Proof.
  intros s s'.
  apply (feature_section_is_consumed_exactly Reader.example_env)
    with (ty := Kernel.HEADER_BRANCH_STACK).
  - intros ty size s0 H0. cbn. unfold Reader.ReadData, bind.
    destruct ((0 <=? size) && _) eqn:Hfit; cbn; [|split; [reflexivity|lia]].
    apply andb_true_iff in Hfit as [H1%Z.leb_le H2%Z.leb_le].
    split; [reflexivity|lia].
  - lia.
  - vm_compute. split; discriminate.
  - vm_compute. reflexivity.
  - vm_compute. reflexivity.
Defined.

(** ** The file header *)

Section FileHeader.
Import Kernel Reader.

Lemma bind_step {S A B : Type} (c : M S A) (k : A -> M S B) (s s1 : S)
    (a : A) :
  c s = (Done a, s1) -> bind c k s = k a s1.
Proof. intros H. unfold bind. now rewrite H. Qed.

Lemma ReadData_ok (n : Z) (s : State) :
  0 <= n -> offset (data s) + n <= data_size (data s) ->
  ReadData n s
  = (Done (take (Z.to_nat n)
             (drop (Z.to_nat (offset (data s))) (buffer (data s)))),
     advance n s).
Proof.
  intros Hn Hfit. unfold ReadData.
  replace ((0 <=? n) && (offset (data s) + n <=? data_size (data s)))
    with true
    by (symmetry; apply andb_true_iff; split; apply Z.leb_le; lia).
  reflexivity.
Qed.

Lemma ReadUint64_ok (s : State) (v : Z) :
  is_cross_endian (data s) = false ->
  offset (data s) + 8 <= data_size (data s) ->
  0 <= v < 2 ^ 64 ->
  take 8 (drop (Z.to_nat (offset (data s))) (buffer (data s)))
  = le_encode 8 v ->
  ReadUint64 s = (Done v, advance 8 s).
Proof.
  intros Hcross Hfit Hv Hbytes. unfold ReadUint64, ReadUint.
  rewrite (bind_step _ _ _ _ _ (ReadData_ok (Z.of_nat 8) s ltac:(lia) Hfit)).
  unfold bind, get, ret. cbn [advance set_data data is_cross_endian].
  rewrite Hcross. change (Z.to_nat (Z.of_nat 8)) with 8%nat.
  rewrite Hbytes, le_decode_le_encode.
  change (256 ^ Z.of_nat 8) with (2 ^ 64). now rewrite Z.mod_small.
Qed.

Lemma ReadPerfFileSection_ok (s : State) (sec : perf_file_section) :
  is_cross_endian (data s) = false ->
  offset (data s) + 16 <= data_size (data s) ->
  data_size (data s) < 2 ^ 64 ->
  section_within (data_size (data s)) sec ->
  take 16 (drop (Z.to_nat (offset (data s))) (buffer (data s)))
  = encode_section sec ->
  ReadPerfFileSection s = (Done sec, advance 16 s).
Proof.
  intros Hcross Hfit Hmax [Hoff Hsize] Hbytes. unfold ReadPerfFileSection.
  rewrite (bind_step _ _ _ _ _
             (ReadData_ok sizeof_perf_file_section s
                ltac:(unfold sizeof_perf_file_section; lia) Hfit)).
  unfold bind at 1, get at 1.
  change (Z.to_nat sizeof_perf_file_section) with 16%nat.
  rewrite Hbytes.
  cbn [advance set_data data is_cross_endian buffer]. rewrite Hcross.
  change (take 8 (encode_section sec)) with (le_encode 8 (sec_offset sec)).
  change (take 8 (drop 8 (encode_section sec)))
    with (le_encode 8 (sec_size sec)).
  rewrite !le_decode_le_encode. change (256 ^ Z.of_nat 8) with (2 ^ 64).
  rewrite !Z.mod_small by lia.
  unfold data_size in *. cbn [buffer sec_offset sec_size].
  replace (negb (sec_offset sec >? Z.of_nat (length (buffer (data s)))))
    with true
    by (symmetry; rewrite Z.gtb_ltb; apply negb_true_iff, Z.ltb_ge; lia).
  cbn [require]. unfold bind at 1, ret at 1.
  replace (negb (sec_size sec
                 >? Z.of_nat (length (buffer (data s))) - sec_offset sec))
    with true
    by (symmetry; rewrite Z.gtb_ltb; apply negb_true_iff, Z.ltb_ge; lia).
  cbn [require]. unfold bind, ret. now destruct sec.
Qed.

Lemma written_header_fields (h : perf_file_header) (rest : list Z) :
  let bytes := encode_perf_file_header h ++ rest in
  take 8 (drop 0 bytes) = le_encode 8 (hdr_magic h)
  /\ take 8 (drop 8 bytes) = le_encode 8 (hdr_size h)
  /\ take 8 (drop 16 bytes) = le_encode 8 (hdr_attr_size h)
  /\ take 16 (drop 24 bytes) = encode_section (hdr_attrs h)
  /\ take 16 (drop 40 bytes) = encode_section (hdr_data h)
  /\ take 16 (drop 56 bytes) = encode_section (hdr_event_types h)
  /\ take 32 (drop 72 bytes)
     = le_encode 8 (nth 0 (hdr_adds_features h) 0)
       ++ le_encode 8 (nth 1 (hdr_adds_features h) 0)
       ++ le_encode 8 (nth 2 (hdr_adds_features h) 0)
       ++ le_encode 8 (nth 3 (hdr_adds_features h) 0).
Proof. repeat split. Qed.

(** [ReadHeader] reads back the header that [WriteHeader] wrote.  On
    bytes that begin with the 104 bytes of a header of this file (normal
    mode, host byte order, sections within the file), [ReadHeader]
    succeeds, [header_] is that header, the mask of the model is the
    first feature word, the data is not taken as cross-endian, and the
    cursor is after the header. *)
Theorem ReadHeader_reads_the_written_header (r0 : PerfReader)
    (h : perf_file_header) (rest : list Z) :
  let bytes := encode_perf_file_header h ++ rest in
  Z.of_nat (length bytes) < 2 ^ 64 ->
  header_of_file (Z.of_nat (length bytes)) h ->
  exists s' : State,
    ReadHeader {| this := r0; data := BufferReader bytes |} = (Done tt, s')
    /\ header_ (this s') = h
    /\ metadata_mask (proto_ (this s')) = nth 0 (hdr_adds_features h) 0
    /\ is_cross_endian_ (this s') = false
    /\ data s' = {| buffer := bytes; offset := sizeof_perf_file_header;
                    is_cross_endian := false |}.
Proof.
  intros bytes Hmax (Hmagic & Hsize & Hattr & Hs1 & Hs2 & Hs3 & Hlen & Hwords).
  destruct (written_header_fields h rest)
    as (Hb0 & Hb1 & Hb2 & Hb3 & Hb4 & Hb5 & Hb6).
  fold bytes in Hb0, Hb1, Hb2, Hb3, Hb4, Hb5, Hb6.
  assert (104 <= Z.of_nat (length bytes)) as Hlong.
  { subst bytes. rewrite length_app, length_encode_perf_file_header. lia. }
  clearbody bytes.
  destruct h as [magic size attr_size attrs data_sec types features].
  cbn [hdr_magic hdr_size hdr_attr_size hdr_attrs hdr_data hdr_event_types
       hdr_adds_features] in *.
  destruct features as [|f0 [|f1 [|f2 [|f3 [|f4 l]]]]]; try discriminate.
  clear Hlen. cbn [nth] in *.
  inversion Hwords as [|? ? Hf0 Hw1]; subst.
  inversion Hw1 as [|? ? Hf1 Hw2]; subst.
  inversion Hw2 as [|? ? Hf2 Hw3]; subst.
  inversion Hw3 as [|? ? Hf3 _]; subst.
  eexists. split.
  - unfold ReadHeader.
    erewrite bind_step by reflexivity.
    erewrite bind_step by reflexivity.
    erewrite (bind_step ReadUint64);
      [|apply (ReadUint64_ok _ kPerfMagic);
        [reflexivity
        |unfold data_size; cbn [data buffer offset BufferReader]; lia
        |vm_compute; split; [discriminate|reflexivity]
        |exact Hb0]].
    erewrite bind_step by reflexivity.
    erewrite bind_step by reflexivity.
    erewrite bind_step by reflexivity.
    erewrite (bind_step ReadUint64);
      [|apply (ReadUint64_ok _ sizeof_perf_file_header);
        [reflexivity
        |unfold data_size; cbn [data buffer offset BufferReader advance
                                set_data set_this]; lia
        |vm_compute; split; [discriminate|reflexivity]
        |exact Hb1]].
    erewrite bind_step by reflexivity.
    erewrite bind_step by reflexivity.
    erewrite bind_step by reflexivity.
    change (sizeof_perf_file_header =? sizeof_perf_pipe_file_header)
      with false. cbv iota.
    erewrite (bind_step ReadUint64);
      [|apply (ReadUint64_ok _ attr_size);
        [reflexivity
        |unfold data_size; cbn [data buffer offset BufferReader advance
                                set_data set_this]; lia
        |exact Hattr
        |exact Hb2]].
    erewrite (bind_step ReadPerfFileSection);
      [|apply (ReadPerfFileSection_ok _ attrs);
        [reflexivity
        |unfold data_size; cbn [data buffer offset BufferReader advance
                                set_data set_this]; lia
        |exact Hmax
        |exact Hs1
        |exact Hb3]].
    erewrite (bind_step ReadPerfFileSection);
      [|apply (ReadPerfFileSection_ok _ data_sec);
        [reflexivity
        |unfold data_size; cbn [data buffer offset BufferReader advance
                                set_data set_this]; lia
        |exact Hmax
        |exact Hs2
        |exact Hb4]].
    erewrite (bind_step ReadPerfFileSection);
      [|apply (ReadPerfFileSection_ok _ types);
        [reflexivity
        |unfold data_size; cbn [data buffer offset BufferReader advance
                                set_data set_this]; lia
        |exact Hmax
        |exact Hs3
        |exact Hb5]].
    erewrite bind_step by reflexivity.
    erewrite bind_step by reflexivity.
    erewrite (bind_step (ReadData _));
      [|apply ReadData_ok;
        [unfold sizeof_adds_features; lia
        |unfold data_size, sizeof_adds_features;
         cbn [data buffer offset BufferReader advance set_data set_this];
         lia]].
    unfold modify. reflexivity.
  - cbn [this data set_this set_data advance header_ set_header set_proto
         proto_ metadata_mask set_metadata_mask is_cross_endian_
         set_is_cross_endian_ buffer offset is_cross_endian BufferReader].
    change (Z.to_nat sizeof_adds_features) with 32%nat.
    change (Z.to_nat (0 + 8 + 8 + 8 + 16 + 16 + 16)) with 72%nat.
    rewrite Hb6. unfold word_at.
    change (take 8 (drop (8 * 0) (le_encode 8 f0 ++ le_encode 8 f1
                                  ++ le_encode 8 f2 ++ le_encode 8 f3)))
      with (le_encode 8 f0).
    change (take 8 (drop (8 * 1) (le_encode 8 f0 ++ le_encode 8 f1
                                  ++ le_encode 8 f2 ++ le_encode 8 f3)))
      with (le_encode 8 f1).
    change (take 8 (drop (8 * 2) (le_encode 8 f0 ++ le_encode 8 f1
                                  ++ le_encode 8 f2 ++ le_encode 8 f3)))
      with (le_encode 8 f2).
    change (take 8 (drop (8 * 3) (le_encode 8 f0 ++ le_encode 8 f1
                                  ++ le_encode 8 f2 ++ le_encode 8 f3)))
      with (le_encode 8 f3).
    rewrite !le_decode_le_encode. change (256 ^ Z.of_nat 8) with (2 ^ 64).
    rewrite !Z.mod_small by lia.
    repeat split.
Qed.

End FileHeader.

Lemma ReadHeader_written_header_witness :
  let h := Reader.GenerateHeader Reader.example_env Reader.example_writer_env
             Reader.new_reader in
  let bytes := Reader.encode_perf_file_header h ++ repeat 0 20 in
  exists s' : Reader.State,
    Reader.ReadHeader {| Reader.this := Reader.new_reader;
                         Reader.data := Reader.BufferReader bytes |}
    = (Done tt, s')
    /\ Reader.header_ (Reader.this s') = h
    /\ Reader.metadata_mask (Reader.proto_ (Reader.this s'))
       = nth 0 (Kernel.hdr_adds_features h) 0
    /\ Reader.is_cross_endian_ (Reader.this s') = false
    /\ Reader.data s'
       = {| Reader.buffer := bytes;
            Reader.offset := Kernel.sizeof_perf_file_header;
            Reader.is_cross_endian := false |}.
Proof.
  intros h bytes.
  apply (ReadHeader_reads_the_written_header Reader.new_reader h
           (repeat 0 20)).
  - vm_compute. reflexivity.
  - unfold Reader.header_of_file, Reader.section_within.
    split; [vm_compute; reflexivity|].
    split; [vm_compute; reflexivity|].
    split; [vm_compute; split; [discriminate|reflexivity]|].
    split; [vm_compute; repeat split; discriminate|].
    split; [vm_compute; repeat split; discriminate|].
    split; [vm_compute; repeat split; discriminate|].
    split; [vm_compute; reflexivity|].
    change (Kernel.hdr_adds_features h) with [0; 0; 0; 0].
    repeat constructor; lia.
Defined.

(** ** The byte order of the input *)

Section ByteOrder.
Import Kernel Reader.

Section CursorBlind.
Variable I : State -> Prop.
Hypothesis I_blind : cursor_blind I.

Lemma blind_SeekSet (off : Z) : preserves I (SeekSet off).
Proof.
  intros s H. unfold SeekSet.
  destruct ((0 <=? off) && (off <=? data_size (data s))); cbn [snd];
    [|exact H].
  now apply (I_blind s off).
Qed.

Lemma blind_ReadData (n : Z) : preserves I (ReadData n).
Proof.
  intros s H. unfold ReadData.
  destruct ((0 <=? n) && (offset (data s) + n <=? data_size (data s)));
    cbn [snd]; [|exact H].
  now apply (I_blind s (offset (data s) + n)).
Qed.

#[local] Hint Resolve blind_SeekSet blind_ReadData : pres.

Lemma blind_ReadUint (n : nat) : preserves I (ReadUint n).
Proof. unfold ReadUint. repeat pres_step. Qed.

Lemma blind_ReadPerfFileSection : preserves I ReadPerfFileSection.
Proof. unfold ReadPerfFileSection. repeat pres_step. Qed.

End CursorBlind.

Lemma byte_order_blind (b : bool) : cursor_blind (byte_order_is b).
Proof. intros s off H. exact H. Qed.

(** [ReadHeader] takes the byte order from the magic number.  At the
    start of an input of at least 8 bytes that is read in host order:
    when the first 8 bytes are neither [kPerfMagic] nor [kPerfMagic]
    byte-swapped, [ReadHeader] returns [false] with only these 8 bytes
    consumed and the model untouched; when they are [kPerfMagic]
    byte-swapped, the reader and the data are cross-endian from then on,
    however the rest of the header fares; when they are [kPerfMagic],
    neither is. *)
Theorem ReadHeader_takes_byte_order_from_magic (s : State) :
  offset (data s) = 0 ->
  is_cross_endian (data s) = false ->
  8 <= data_size (data s) ->
  let magic := le_decode (take 8 (buffer (data s))) in
  (magic <> kPerfMagic -> magic <> bswap 8 kPerfMagic ->
     fst (ReadHeader s) = Failed
     /\ proto_ (this (snd (ReadHeader s))) = proto_ (this s)
     /\ offset (data (snd (ReadHeader s))) = 8)
  /\ (magic = bswap 8 kPerfMagic -> byte_order_is true (snd (ReadHeader s)))
  /\ (magic = kPerfMagic -> byte_order_is false (snd (ReadHeader s))).
Proof.
  intros Hoff Hcross Hsize magic.
  assert (ReadUint64 s = (Done magic, advance 8 s)) as Hread.
  { unfold ReadUint64, ReadUint.
    rewrite (bind_step _ _ _ _ _
               (ReadData_ok (Z.of_nat 8) s ltac:(lia)
                  ltac:(rewrite Hoff; exact Hsize))).
    unfold bind, get, ret. cbn [advance set_data data is_cross_endian].
    rewrite Hcross, Hoff. reflexivity. }
  assert (forall b : bool,
            (magic =? kPerfMagic) || (magic =? bswap 8 kPerfMagic) = true ->
            negb (magic =? kPerfMagic) = b ->
            byte_order_is b (snd (ReadHeader s))) as Horder.
  { intros b Hok Hb. unfold ReadHeader.
    erewrite bind_step by reflexivity.
    erewrite bind_step by (unfold Tell; rewrite Hoff; reflexivity).
    erewrite bind_step by exact Hread.
    erewrite bind_step by reflexivity.
    rewrite Hok. erewrite bind_step by reflexivity.
    erewrite bind_step by reflexivity.
    rewrite Hb.
    match goal with
    | |- byte_order_is b (snd (?c ?s0)) =>
        assert (preserves (byte_order_is b) c) as Hc;
        [|apply Hc; split; reflexivity]
    end.
    pose proof (blind_ReadUint _ (byte_order_blind b)) as H1.
    pose proof (blind_ReadPerfFileSection _ (byte_order_blind b)) as H2.
    pose proof (blind_ReadData _ (byte_order_blind b)) as H3.
    unfold ReadUint64.
    repeat first [ pres_step
                 | apply H1 | apply H2 | apply H3
                 | apply preserves_modify; intros ? ?; assumption ]. }
  split; [|split].
  - intros H1 H2. apply Z.eqb_neq in H1, H2. unfold ReadHeader.
    erewrite bind_step by reflexivity.
    erewrite bind_step by (unfold Tell; rewrite Hoff; reflexivity).
    erewrite bind_step by exact Hread.
    erewrite bind_step by reflexivity.
    rewrite H1, H2. cbn. rewrite Hoff. repeat split.
  - intros Hm. apply Horder.
    + rewrite Hm, Z.eqb_refl. apply orb_true_r.
    + rewrite Hm. reflexivity.
  - intros Hm. apply Horder.
    + rewrite Hm, Z.eqb_refl. reflexivity.
    + rewrite Hm. reflexivity.
Qed.

End ByteOrder.

Lemma ReadHeader_byte_order_witness :
  let s := {| Reader.this := Reader.new_reader;
              Reader.data :=
                Reader.BufferReader
                  (rev (le_encode 8 Kernel.kPerfMagic) ++ repeat 0 8) |} in
  let magic := le_decode (take 8 (Reader.buffer (Reader.data s))) in
  (magic <> Kernel.kPerfMagic -> magic <> bswap 8 Kernel.kPerfMagic ->
     fst (Reader.ReadHeader s) = Failed
     /\ Reader.proto_ (Reader.this (snd (Reader.ReadHeader s)))
        = Reader.proto_ (Reader.this s)
     /\ Reader.offset (Reader.data (snd (Reader.ReadHeader s))) = 8)
  /\ (magic = bswap 8 Kernel.kPerfMagic ->
      Reader.byte_order_is true (snd (Reader.ReadHeader s)))
  /\ (magic = Kernel.kPerfMagic ->
      Reader.byte_order_is false (snd (Reader.ReadHeader s))).
Proof.
  intros s.
  apply (ReadHeader_takes_byte_order_from_magic s).
  - reflexivity.
  - reflexivity.
  - vm_compute. discriminate.
Defined.

(** ** Record headers and records of unknown types *)

Section RecordHeaders.
Import Kernel Serializer Reader.
Variable E : Env.

Lemma ReadPerfEventHeader_Done (s s' : State) (header : perf_event_header) :
  ReadPerfEventHeader s = (Done header, s') ->
  s' = advance sizeof_perf_event_header s
  /\ sizeof_perf_event_header <= h_size header
  /\ offset (data s) + h_size header <= data_size (data s).
Proof.
  unfold ReadPerfEventHeader. intros H.
  inv_bind H as bs s1 Hrd. apply ReadData_Done in Hrd as [_ ->].
  inv_get H. inv_require H as H1. inv_require H as H2.
  injection H as <- <-.
  apply negb_true_iff, Z.ltb_ge in H1.
  rewrite Z.gtb_ltb in H2. apply negb_true_iff, Z.ltb_ge in H2.
  unfold Tell, data_size, advance, set_data, sizeof_perf_event_header in *.
  cbn [data buffer offset is_cross_endian h_size] in *.
  match type of H1 with
  | _ <= ?z => revert H1 H2; generalize z
  end.
  intros z H1 H2. split; [reflexivity|]. lia.
Qed.

(** [ReadPerfEventHeader] accepts a record only when the whole record
    lies in the input: when it returns [true], the cursor has moved past
    the 8 bytes of the header and nothing else has changed, the size in
    the header is at least these 8 bytes, and the record ends at or
    before the end of the input. *)
Theorem ReadPerfEventHeader_accepts_only_records_that_fit (s s' : State)
    (header : perf_event_header) :
  ReadPerfEventHeader s = (Done header, s') ->
  s' = advance sizeof_perf_event_header s
  /\ sizeof_perf_event_header <= h_size header
  /\ offset (data s) + h_size header <= data_size (data s).
Proof. apply ReadPerfEventHeader_Done. Qed.

(** A record of a type that is neither a supported kernel type nor a
    supported user type is passed over whole: after its header has been
    read, [ReadNonHeaderEventDataWithoutHeader] returns [true] with
    [*read_size] the size of the payload, the cursor stands at the end of
    the record, [header.size] bytes after the start of the header, and
    the reader is as it was. *)
Theorem unsupported_record_is_passed_over_whole (s s1 : State)
    (header : perf_event_header) :
  0 <= offset (data s) ->
  data_size (data s) < 2 ^ 64 ->
  ReadPerfEventHeader s = (Done header, s1) ->
  IsSupportedKernelEventType (records E) (h_type header) = false ->
  IsSupportedUserEventType (h_type header) = false ->
  ReadNonHeaderEventDataWithoutHeader E header s1
  = (Done (h_size header - sizeof_perf_event_header),
     advance (h_size header) s).
Proof.
  intros Hoff Hsize Hread Hk Hu.
  apply ReadPerfEventHeader_Done in Hread as (-> & Hmin & Hfit).
  unfold ReadNonHeaderEventDataWithoutHeader. rewrite Hk, Hu.
  cbn [negb andb]. unfold skip_record, skip_forward.
  revert Hmin Hfit. generalize (h_size header). intros z Hmin Hfit.
  unfold sizeof_perf_event_header in *.
  assert (u64 (z - 8) = z - 8) as ->
    by (unfold u64; apply Z.mod_small; unfold data_size in *; lia).
  unfold bind at 1. unfold bind at 1. unfold get. cbn [fst snd].
  unfold Tell, advance, set_data. cbn [data buffer offset is_cross_endian].
  assert (u64 (offset (data s) + 8 + (z - 8)) = offset (data s) + z) as ->
    by (unfold u64; rewrite Z.mod_small; unfold data_size in *; lia).
  unfold SeekSet, data_size in *. cbn [data buffer offset is_cross_endian].
  replace ((0 <=? offset (data s) + z)
           && (offset (data s) + z <=? Z.of_nat (length (buffer (data s)))))
    with true
    by (symmetry; apply andb_true_iff; split; apply Z.leb_le; lia).
  reflexivity.
Qed.

End RecordHeaders.

Lemma unsupported_record_witness :
  let s := {| Reader.this := Reader.new_reader;
              Reader.data :=
                Reader.BufferReader
                  (le_encode 4 1000 ++ le_encode 2 0 ++ le_encode 2 12
                   ++ [1; 2; 3; 4]) |} in
  let header := {| Kernel.h_type := 1000; Kernel.h_misc := 0;
                   Kernel.h_size := 12 |} in
  Reader.ReadPerfEventHeader s
  = (Done header, Reader.advance Kernel.sizeof_perf_event_header s)
  /\ Reader.ReadNonHeaderEventDataWithoutHeader Reader.example_env header
       (Reader.advance Kernel.sizeof_perf_event_header s)
     = (Done (12 - Kernel.sizeof_perf_event_header), Reader.advance 12 s).
Proof.
  intros s header.
  assert (Reader.ReadPerfEventHeader s
          = (Done header, Reader.advance Kernel.sizeof_perf_event_header s))
    as Hread by (vm_compute; reflexivity).
  split; [exact Hread|].
  apply (unsupported_record_is_passed_over_whole Reader.example_env s
           (Reader.advance Kernel.sizeof_perf_event_header s) header).
  - vm_compute. discriminate.
  - vm_compute. reflexivity.
  - exact Hread.
  - vm_compute. reflexivity.
  - vm_compute. reflexivity.
Defined.

Lemma ReadPerfEventHeader_fit_witness :
  let s := {| Reader.this := Reader.new_reader;
              Reader.data :=
                Reader.BufferReader
                  (le_encode 4 1000 ++ le_encode 2 0 ++ le_encode 2 12
                   ++ [1; 2; 3; 4]) |} in
  let header := {| Kernel.h_type := 1000; Kernel.h_misc := 0;
                   Kernel.h_size := 12 |} in
  Reader.advance Kernel.sizeof_perf_event_header s
  = Reader.advance Kernel.sizeof_perf_event_header s
  /\ Kernel.sizeof_perf_event_header <= Kernel.h_size header
  /\ Reader.offset (Reader.data s) + Kernel.h_size header
     <= Reader.data_size (Reader.data s).
Proof.
  intros s header.
  apply (ReadPerfEventHeader_accepts_only_records_that_fit s
           (Reader.advance Kernel.sizeof_perf_event_header s) header).
  vm_compute. reflexivity.
Defined.

(** ** The cursor of the writer *)

Section WriterCursor.
Import Kernel Serializer Reader.
Variables (E : Env) (W : WriterEnv).
Hypothesis attr_size_nonneg : 0 <= sizeof_perf_event_attr E.

Lemma WriteDataValue_wrote (src : list Z) (w : DataWriter) :
  0 <= w_offset w ->
  wrote (fun _ => True) (Z.of_nat (length src)) w (WriteDataValue src w).
Proof.
  intros Hoff. unfold wrote, WriteDataValue.
  replace (0 <=? w_offset w) with true by (symmetry; apply Z.leb_le; lia).
  cbn [andb].
  destruct (w_offset w + Z.of_nat (length src) <=? writer_size w) eqn:Hfit;
    [|reflexivity].
  apply Z.leb_le in Hfit. unfold writer_size in *.
  eexists _, _. split; [reflexivity|]. cbn [w_offset w_buffer].
  split; [reflexivity|]. split; [|exact I].
  rewrite !length_app, length_take, length_drop. lia.
Qed.

Lemma bind_wrote {A B : Type} (Q1 : A -> Prop) (Q2 : B -> Prop)
    (n1 n2 : Z) (c : M DataWriter A) (k : A -> M DataWriter B)
    (w : DataWriter) :
  0 <= n2 ->
  wrote Q1 n1 w (c w) ->
  (forall (a : A) (w' : DataWriter),
     Q1 a -> w_offset w' = w_offset w + n1 ->
     writer_size w' = writer_size w ->
     w_offset w' <= writer_size w' ->
     wrote Q2 n2 w' (k a w')) ->
  wrote Q2 (n1 + n2) w (bind c k w).
Proof.
  intros Hn2 Hc Hk. unfold wrote in *.
  destruct (w_offset w + n1 <=? writer_size w) eqn:H1.
  - destruct Hc as (a & w' & Hrun & Hoff & Hsize & Ha).
    rewrite (bind_step _ _ _ _ _ Hrun).
    apply Z.leb_le in H1.
    specialize (Hk a w' Ha Hoff Hsize ltac:(lia)). rewrite Hoff, Hsize in Hk.
    rewrite Z.add_assoc. destruct (w_offset w + n1 + n2 <=? writer_size w).
    + destruct Hk as (b & w'' & -> & Hoff' & Hsize' & Hb).
      exists b, w''. repeat split; try assumption; lia.
    + exact Hk.
  - apply Z.leb_gt in H1.
    replace (w_offset w + (n1 + n2) <=? writer_size w) with false
      by (symmetry; apply Z.leb_gt; lia).
    unfold bind. destruct (c w) as [[a| |x] w']; cbn in *;
      try discriminate; reflexivity.
Qed.

Lemma wrote_impl {A : Type} (Q1 Q2 : A -> Prop) (n m : Z) (w : DataWriter)
    (run : res A * DataWriter) :
  n = m -> (forall a, Q1 a -> Q2 a) -> wrote Q1 n w run -> wrote Q2 m w run.
Proof.
  intros <- HQ. unfold wrote.
  destruct (w_offset w + n <=? writer_size w); [|auto].
  intros (a & w' & ? & ? & ? & ?). exists a, w'. auto.
Qed.

Lemma ret_wrote {A : Type} (Q : A -> Prop) (a : A) (w : DataWriter) :
  Q a -> 0 <= w_offset w <= writer_size w -> wrote Q 0 w (ret a w).
Proof.
  intros Ha Hoff. unfold wrote.
  replace (w_offset w + 0 <=? writer_size w) with true
    by (symmetry; apply Z.leb_le; lia).
  exists a, w. repeat split; [lia|exact Ha].
Qed.

Lemma sum_of_nonneg (l : list Z) : Forall (fun x => 0 <= x) l -> 0 <= sum_of l.
Proof. unfold sum_of. induction 1; cbn [fold_right]; lia. Qed.

Lemma WriteValues_wrote (values : list (list Z)) (w : DataWriter) :
  0 <= w_offset w <= writer_size w ->
  wrote (fun _ => True) (sum_of (map (fun v => Z.of_nat (length v)) values))
    w (WriteValues values w).
Proof.
  revert w. induction values as [|v rest IH]; intros w Hoff.
  - now apply ret_wrote.
  - cbn [WriteValues map sum_of fold_right].
    apply (bind_wrote (fun _ => True)).
    + apply sum_of_nonneg, List.Forall_forall. intros x Hx.
      apply in_map_iff in Hx as (? & <- & _). lia.
    + apply WriteDataValue_wrote. lia.
    + intros _ w' _ Hoff' Hsize' Hfit. apply IH. lia.
Qed.

Lemma length_le_encode (n : nat) (x : Z) : length (le_encode n x) = n.
Proof. revert x. induction n as [|n IH]; intros x; cbn; [|rewrite IH]; lia. Qed.

Lemma sum_of_ids (l : list Z) :
  sum_of (map (fun v => Z.of_nat (length v)) (map (le_encode 8) l))
  = sizeof_id * Z.of_nat (length l).
Proof.
  unfold sizeof_id. induction l as [|x l IH]; [reflexivity|].
  cbn [map sum_of fold_right length]. fold (sum_of (map (fun v => Z.of_nat (length v)) (map (le_encode 8) l))).
  rewrite IH, length_le_encode. lia.
Qed.

Lemma ids_total_nonneg (attrs : list PerfFileAttr) : 0 <= ids_total attrs.
Proof.
  apply sum_of_nonneg, List.Forall_forall. intros x Hx.
  apply in_map_iff in Hx as (? & <- & _). unfold sizeof_id. lia.
Qed.

Lemma WriteIdSections_wrote (attrs : list PerfFileAttr) (w : DataWriter) :
  0 <= w_offset w <= writer_size w ->
  wrote (fun secs => length secs = length attrs) (ids_total attrs) w
    (WriteIdSections attrs w).
Proof.
  revert w. induction attrs as [|fa rest IH]; intros w Hoff.
  - now apply ret_wrote.
  - cbn [WriteIdSections]. rewrite (bind_step get _ w w w eq_refl).
    pose proof (ids_total_nonneg rest).
    apply (wrote_impl (fun secs => length secs = length (fa :: rest)) _
             (sizeof_id * Z.of_nat (length (ids fa)) + ids_total rest));
      [reflexivity|auto|].
    apply (bind_wrote (fun _ => True)).
    + assumption.
    + eapply wrote_impl; [apply sum_of_ids| |apply WriteValues_wrote; lia].
      auto.
    + intros _ w1 _ Hoff1 Hsize1 Hfit1.
      apply (wrote_impl (fun secs => length secs = length (fa :: rest)) _
               (ids_total rest + 0)); [lia|auto|].
      apply (bind_wrote (fun secs => length secs = length rest)).
      * lia.
      * apply IH. unfold sizeof_id in *. lia.
      * intros secs w2 Hsecs Hoff2 Hsize2 Hfit2.
        apply ret_wrote; [cbn; lia|]. unfold sizeof_id in *. lia.
Qed.

Lemma WriteAttrEntries_wrote (attrs : list PerfFileAttr)
    (id_sections : list perf_file_section) (w : DataWriter) :
  0 <= w_offset w <= writer_size w ->
  length id_sections = length attrs ->
  wrote (fun _ => True) (sizeof_perf_file_attr E * Z.of_nat (length attrs)) w
    (WriteAttrEntries E W attrs id_sections w).
Proof.
  revert id_sections w.
  induction attrs as [|fa rest IH]; intros [|sec later] w Hoff Hlen;
    try discriminate.
  - rewrite Z.mul_0_r. now apply ret_wrote.
  - cbn [WriteAttrEntries length]. injection Hlen as Hlen.
    replace (sizeof_perf_file_attr E * Z.of_nat (S (length rest)))
      with (sizeof_perf_event_attr E
            + (sizeof_perf_file_section
               + sizeof_perf_file_attr E * Z.of_nat (length rest)))
      by (unfold sizeof_perf_file_attr; lia).
    assert (0 <= sizeof_perf_file_attr E * Z.of_nat (length rest))
      by (unfold sizeof_perf_file_attr, sizeof_perf_file_section; nia).
    apply (bind_wrote (fun _ => True)).
    + unfold sizeof_perf_file_section. lia.
    + eapply wrote_impl; [| |apply WriteDataValue_wrote; lia]; [|auto].
      rewrite length_fit. lia.
    + intros _ w1 _ Hoff1 Hsize1 Hfit1.
      apply (bind_wrote (fun _ => True)).
      * lia.
      * eapply wrote_impl; [| |apply WriteDataValue_wrote; lia]; [|auto].
        unfold encode_section. rewrite length_app, !length_le_encode.
        reflexivity.
      * intros _ w2 _ Hoff2 Hsize2 Hfit2. apply IH; [|exact Hlen].
        unfold sizeof_perf_file_section in *. lia.
Qed.

Lemma u64_small (x : Z) : 0 <= x < 2 ^ 64 -> u64 x = x.
Proof. intros H. unfold u64. now apply Z.mod_small. Qed.

Lemma attrs_total_nonneg (r : PerfReader) :
  0 <= sizeof_perf_file_attr E * Z.of_nat (length (file_attrs (proto_ r))).
Proof. unfold sizeof_perf_file_attr, sizeof_perf_file_section. nia. Qed.

Lemma GenerateHeader_attrs_offset (r : PerfReader) (size : Z) :
  size < 2 ^ 64 ->
  sizeof_perf_file_header + ids_size_total (proto_ r) <= size ->
  sec_offset (hdr_attrs (GenerateHeader E W r))
  = sizeof_perf_file_header + ids_size_total (proto_ r).
Proof.
  intros Hsize Hfit.
  pose proof (ids_total_nonneg (file_attrs (proto_ r))) as Hids.
  change (ids_total (file_attrs (proto_ r)))
    with (ids_size_total (proto_ r)) in Hids.
  unfold GenerateHeader. cbn [hdr_attrs sec_offset].
  unfold sizeof_perf_file_header in *. apply u64_small. lia.
Qed.

Lemma GenerateHeader_data_offset (r : PerfReader) (size : Z) :
  size < 2 ^ 64 ->
  bytes_before_data E r <= size ->
  sec_offset (hdr_data (GenerateHeader E W r)) = bytes_before_data E r.
Proof.
  intros Hsize Hfit. unfold bytes_before_data in *.
  pose proof (ids_total_nonneg (file_attrs (proto_ r))) as Hids.
  change (ids_total (file_attrs (proto_ r)))
    with (ids_size_total (proto_ r)) in Hids.
  pose proof (attrs_total_nonneg r).
  unfold GenerateHeader. cbn [hdr_data sec_offset].
  unfold sizeof_perf_file_header in *.
  rewrite (u64_small (104 + ids_size_total (proto_ r))) by lia.
  rewrite (u64_small (sizeof_perf_file_attr E * _)) by lia.
  rewrite (u64_small (104 + ids_size_total (proto_ r) + _)) by lia.
  rewrite Z.add_0_r. apply u64_small. lia.
Qed.

Lemma WriteAttrs_wrote (r : PerfReader) (w : DataWriter) :
  w_offset w = sizeof_perf_file_header ->
  w_offset w <= writer_size w < 2 ^ 64 ->
  wrote (fun _ => True)
    (bytes_before_data E r - sizeof_perf_file_header) w
    (WriteAttrs E W r (GenerateHeader E W r) w).
Proof.
  intros Hoff Hsize. unfold WriteAttrs.
  rewrite (bind_step get _ w w w eq_refl).
  erewrite bind_step
    by (unfold WriterTell; rewrite Hoff; reflexivity).
  replace (bytes_before_data E r - sizeof_perf_file_header)
    with (ids_total (file_attrs (proto_ r))
          + sizeof_perf_file_attr E
            * Z.of_nat (length (file_attrs (proto_ r))))
    by (unfold bytes_before_data, ids_total, ids_size_total; lia).
  pose proof (attrs_total_nonneg r).
  pose proof (ids_total_nonneg (file_attrs (proto_ r))) as Hids.
  apply (bind_wrote (fun secs => length secs
                                 = length (file_attrs (proto_ r)))).
  - assumption.
  - apply WriteIdSections_wrote. unfold sizeof_perf_file_header in *. lia.
  - intros secs w1 Hsecs Hoff1 Hsize1 Hfit1.
    rewrite (bind_step get _ w1 w1 w1 eq_refl).
    erewrite bind_step; cycle 1.
    { unfold WriterTell.
      rewrite (GenerateHeader_attrs_offset r (writer_size w1)).
      - rewrite Hoff1, Hoff.
        change (ids_total (file_attrs (proto_ r)))
          with (ids_size_total (proto_ r)).
        rewrite Z.eqb_refl. reflexivity.
      - lia.
      - change (ids_total (file_attrs (proto_ r)))
          with (ids_size_total (proto_ r)) in *. lia. }
    apply WriteAttrEntries_wrote; [|exact Hsecs].
    unfold sizeof_perf_file_header in *. lia.
Qed.

(** The writer reaches the data section where the header says it starts.
    [WriteHeader] followed by [WriteAttrs], started on a buffer with the
    header made by [GenerateHeader], return [true] exactly when the
    buffer has room for the file header, the IDs and the attributes; the
    cursor is then at [header.data.offset], which is what the [CHECK_EQ]
    of [WriteData] expects, and neither [CHECK_EQ] of [WriteAttrs] has
    failed.  Without that room they return [false]. *)
Theorem WriteAttrs_ends_at_data_offset (r : PerfReader) (bytes : list Z) :
  Z.of_nat (length bytes) < 2 ^ 64 ->
  let header := GenerateHeader E W r in
  let run := (do* WriteHeader header in WriteAttrs E W r header)
               (BufferWriter bytes) in
  if bytes_before_data E r <=? Z.of_nat (length bytes)
  then fst run = Done tt
       /\ w_offset (snd run) = sec_offset (hdr_data header)
       /\ length (w_buffer (snd run)) = length bytes
  else fst run = Failed.
Proof.
  intros Hsize header run.
  assert (wrote (fun _ : unit => True)
            (sizeof_perf_file_header
             + (bytes_before_data E r - sizeof_perf_file_header))
            (BufferWriter bytes) run) as Hrun.
  { apply (bind_wrote (fun _ => True)).
    - pose proof (attrs_total_nonneg r).
      pose proof (ids_total_nonneg (file_attrs (proto_ r))).
      unfold bytes_before_data, ids_size_total, ids_total in *. lia.
    - eapply wrote_impl; [| |apply WriteDataValue_wrote; cbn; lia]; [|auto].
      now rewrite length_encode_perf_file_header.
    - intros _ w1 _ Hoff1 Hsize1 Hfit1. apply WriteAttrs_wrote.
      + rewrite Hoff1. reflexivity.
      + rewrite Hsize1. split; [lia|exact Hsize]. }
  unfold wrote in Hrun. cbn [BufferWriter w_offset] in Hrun.
  unfold writer_size in Hrun. cbn [BufferWriter w_buffer] in Hrun.
  replace (0 + (sizeof_perf_file_header
                + (bytes_before_data E r - sizeof_perf_file_header)))
    with (bytes_before_data E r) in Hrun by lia.
  destruct (bytes_before_data E r <=? Z.of_nat (length bytes)) eqn:Hfit;
    [|exact Hrun].
  apply Z.leb_le in Hfit.
  destruct Hrun as ([] & w' & -> & Hoff & Hlen & _). cbn [fst snd].
  split; [reflexivity|]. split; [|lia].
  unfold header.
  rewrite (GenerateHeader_data_offset r (Z.of_nat (length bytes)))
    by assumption.
  exact Hoff.
Qed.

End WriterCursor.

Lemma WriteAttrs_data_offset_witness :
  let E := Reader.example_env in
  let W := Reader.example_writer_env in
  let r := Reader.reader_with_one_event in
  let bytes := repeat 0 400 in
  let header := Reader.GenerateHeader E W r in
  let run := (do* Reader.WriteHeader header in
              Reader.WriteAttrs E W r header) (Reader.BufferWriter bytes) in
  fst run = Done tt
  /\ Reader.w_offset (snd run)
     = Kernel.sec_offset (Kernel.hdr_data header)
  /\ length (Reader.w_buffer (snd run)) = length bytes.
Proof.
  intros E W r bytes header run.
  apply (WriteAttrs_ends_at_data_offset E W ltac:(vm_compute; discriminate)
           r bytes).
  vm_compute. reflexivity.
Defined.

(** ** The checks of the writer *)

Section WriterChecks.
Import Kernel Serializer Reader.
Variables (E : Env) (W : WriterEnv).
Hypothesis attr_size_nonneg : 0 <= sizeof_perf_event_attr E.

Lemma wrote_moved {A : Type} (Q : A -> Prop) (n : Z) (w : DataWriter)
    (run : res A * DataWriter) :
  wrote Q n w run -> moved n w run.
Proof.
  unfold wrote, moved. destruct (w_offset w + n <=? writer_size w).
  - intros (a & w' & -> & Hoff & Hsize & _). cbn. auto.
  - intros ->. exact I.
Qed.

Lemma bind_moved {A B : Type} (n1 n2 : Z) (c : M DataWriter A)
    (k : A -> M DataWriter B) (w : DataWriter) :
  moved n1 w (c w) ->
  (forall (a : A) (w' : DataWriter),
     w_offset w' = w_offset w + n1 -> writer_size w' = writer_size w ->
     moved n2 w' (k a w')) ->
  moved (n1 + n2) w (bind c k w).
Proof.
  unfold moved, bind. destruct (c w) as [[a| |x] w']; cbn [fst snd];
    [|auto|auto].
  intros [Hoff Hsize] Hk. specialize (Hk a w' Hoff Hsize).
  destruct (k a w') as [[b| |y] w'']; cbn [fst snd] in *; [|auto|auto].
  destruct Hk as [Hoff' Hsize']. split; lia.
Qed.

Lemma bind_require {S B : Type} (b : bool) (k : M S B) (s : S) :
  bind (require b) (fun _ => k) s = if b then k s else (Failed, s).
Proof. now destruct b. Qed.

Lemma WriteEvents_moved (sz : PerfSerializer) (evs : list PerfEvent)
    (w : DataWriter) :
  Forall (sizes_agree W sz) evs ->
  0 <= w_offset w ->
  moved (sum_of (map (event_bytes W) evs)) w (WriteEvents W sz evs w).
Proof.
  intros Hevs. revert w.
  induction Hevs as [|ev rest (Hsize & Haux & Hde & Htd) _ IH]; intros w Hoff.
  - unfold moved. cbn. split; [lia|reflexivity].
  - cbn [WriteEvents map sum_of fold_right].
    fold (sum_of (map (event_bytes W) rest)).
    rewrite bind_require. destruct (negb _); [|exact I].
    rewrite bind_require. destruct (_ =? _); [|exact I].
    destruct (DeserializeEvent W sz ev) as [event|] eqn:Hev; [|exact I].
    specialize (Hde event eq_refl).
    unfold event_bytes at 1. rewrite <- Z.add_assoc.
    apply bind_moved.
    { apply (wrote_moved (fun _ => True)).
      eapply wrote_impl; [| |apply WriteDataValue_wrote; lia]; [|auto].
      rewrite length_fit, Hde. lia. }
    intros _ w1 Hoff1 Hsize1.
    apply bind_moved.
    { destruct (h_type (ev_header ev) =? PERF_RECORD_AUXTRACE);
        cbn [andb].
      - destruct (auxtrace_event_size W ev >? 0) eqn:Hpos.
        + destruct (DeserializeAuxtraceEventTraceData W ev) as [td|] eqn:Htr;
            [|exact I].
          rewrite <- (Htd td eq_refl).
          apply (wrote_moved (fun _ => True)), WriteDataValue_wrote. lia.
        + rewrite Z.gtb_ltb in Hpos. apply Z.ltb_ge in Hpos.
          replace (auxtrace_event_size W ev) with 0 by lia.
          unfold moved. cbn. split; [lia|reflexivity].
      - unfold moved. cbn. split; [lia|reflexivity]. }
    intros _ w2 Hoff2 Hsize2. apply IH.
    destruct (h_type (ev_header ev) =? PERF_RECORD_AUXTRACE); lia.
Qed.

Lemma normal_bind {S A B : Type} (c : M S A) (k : A -> M S B) (s : S) :
  returns_normally (fst (c s)) ->
  (forall (a : A) (s' : S), returns_normally (fst (k a s'))) ->
  returns_normally (fst (bind c k s)).
Proof.
  unfold bind. destruct (c s) as [[a| |x] s']; cbn [fst]; auto.
Qed.

Lemma normal_WriteDataValue (src : list Z) (w : DataWriter) :
  returns_normally (fst (WriteDataValue src w)).
Proof. unfold WriteDataValue. now destruct (_ && _). Qed.

Lemma normal_WriteValues (values : list (list Z)) (w : DataWriter) :
  returns_normally (fst (WriteValues values w)).
Proof.
  revert w. induction values as [|v rest IH]; intros w; [exact I|].
  cbn [WriteValues]. apply normal_bind; [apply normal_WriteDataValue|auto].
Qed.

Lemma normal_WriteFeature (r : PerfReader) (ty : Z) (w : DataWriter) :
  returns_normally (fst (WriteFeature W r ty w)).
Proof.
  unfold WriteFeature.
  destruct (ty =? HEADER_TRACING_DATA); [apply normal_WriteDataValue|].
  destruct (ty =? HEADER_BRANCH_STACK); [exact I|].
  destruct (is_supported_metadata ty); [|exact I].
  apply normal_bind; [apply normal_WriteValues|].
  intros _ s'. unfold require. now destruct (snd _).
Qed.

Lemma normal_WriteMetadata_loop (r : PerfReader) (header : perf_file_header)
    (types : list Z) (w : DataWriter) :
  returns_normally (fst (WriteMetadata_loop W r header types w)).
Proof.
  revert w. induction types as [|ty rest IH]; intros w; [exact I|].
  cbn [WriteMetadata_loop]. destruct (_ =? 0); [apply IH|].
  rewrite (bind_step get _ w w w eq_refl).
  apply normal_bind; [apply normal_WriteFeature|]. intros _ w1.
  rewrite (bind_step get _ w1 w1 w1 eq_refl).
  apply normal_bind; [apply IH|]. intros later w2. exact I.
Qed.

Lemma WriteMetadata_loop_count (r : PerfReader) (w w' : DataWriter)
    (sections : list perf_file_section) :
  WriteMetadata_loop W r (GenerateHeader E W r) feature_types w
  = (Done sections, w') ->
  length sections = GetNumSupportedMetadata r.
Proof.
  intros Hrun.
  apply WriteMetadata_loop_length in Hrun; [|apply feature_types_nonneg].
  rewrite Hrun. unfold GetNumSupportedMetadata.
  now rewrite GetNumBits_supported.
Qed.

Lemma WriteMetadata_normal (r : PerfReader) (w : DataWriter) :
  w_offset w
  = u64 (sec_offset (hdr_data (GenerateHeader E W r))
         + sec_size (hdr_data (GenerateHeader E W r))) ->
  w_offset w <= writer_size w < 2 ^ 64 ->
  returns_normally (fst (WriteMetadata W r (GenerateHeader E W r) w)).
Proof.
  intros Hoff Hsize. unfold WriteMetadata.
  set (header := GenerateHeader E W r) in *.
  pose proof (u64_range (sec_offset (hdr_data header)
                         + sec_size (hdr_data header))) as Hrange.
  rewrite <- Hoff in *. clear Hoff.
  rewrite (bind_step get _ w w w eq_refl).
  erewrite bind_step
    by (unfold WriterTell; rewrite Z.eqb_refl; reflexivity).
  set (headers_size :=
         u64 (Z.of_nat (GetNumSupportedMetadata r) * sizeof_perf_file_section)).
  set (metadata_offset := u64 (w_offset w + headers_size)).
  pose proof (u64_range (Z.of_nat (GetNumSupportedMetadata r)
                         * sizeof_perf_file_section)) as Hheaders.
  fold headers_size in Hheaders.
  erewrite bind_step by reflexivity.
  match goal with
  | |- context [if ?b then ?x else w] =>
      remember (if b then x else w) as w0 eqn:Hw0;
      assert (writer_size w0 = writer_size w
              /\ 0 <= w_offset w0 <= writer_size w0) as [Hsize0 Hoff0]
        by (rewrite Hw0; destruct b eqn:Hb;
            [apply andb_true_iff in Hb as [?%Z.leb_le ?%Z.leb_le]|];
            unfold writer_size in *; cbn [w_buffer w_offset];
            (split; [reflexivity|lia]));
      clear Hw0
  end.
  unfold bind at 1.
  pose proof (normal_WriteMetadata_loop r header feature_types w0) as Hloop.
  pose proof (preserves_WriteMetadata_loop W (length (w_buffer w0)) 0 []
                ltac:(lia) r header feature_types w0) as Hinv.
  destruct (WriteMetadata_loop W r header feature_types w0)
    as [[sections| |x] w1] eqn:Hrun; cbn [fst snd] in *;
    [|exact I|exact Hloop].
  apply WriteMetadata_loop_count in Hrun.
  erewrite bind_step
    by (rewrite Hrun, Z.eqb_refl; reflexivity).
  rewrite (bind_step get _ w1 w1 w1 eq_refl).
  destruct Hinv as (Hlen1 & _ & Hoff1);
    [unfold writer_size in *; repeat split; lia|].
  assert (writer_size w1 = writer_size w) as Hsize1
    by (unfold writer_size in *; lia).
  assert (WriterSeekSet (w_offset w) w1
          = (Done tt, {| w_buffer := w_buffer w1; w_offset := w_offset w |}))
    as Hseek.
  { unfold WriterSeekSet.
    replace ((0 <=? w_offset w) && (w_offset w <=? writer_size w1)) with true
      by (symmetry; apply andb_true_iff; split; apply Z.leb_le; lia).
    reflexivity. }
  rewrite (bind_step _ _ _ _ _ Hseek).
  unfold bind at 1.
  match goal with
  | |- context [WriteDataValue ?src ?w2] =>
      pose proof (WriteDataValue_Done src w2) as Hwr;
      pose proof (normal_WriteDataValue src w2) as Hnw;
      destruct (WriteDataValue src w2) as [[u| |x] w3]; cbn [fst snd];
      [|exact I|exact Hnw]
  end.
  destruct (Hwr w3 u eq_refl) as [Hfit ->].
  rewrite length_fit in *. cbn [w_offset w_buffer] in *.
  unfold writer_size in Hfit. cbn [w_buffer] in Hfit.
  rewrite Z2Nat.id in * by lia.
  rewrite (bind_step get _ _ _ _ eq_refl).
  erewrite bind_step; [exact I|].
  unfold WriterTell. cbn [w_offset]. subst metadata_offset.
  rewrite u64_small by (unfold writer_size in *; lia).
  rewrite Z.eqb_refl. reflexivity.
Qed.

(** With the header that [GenerateHeader] makes, no [CHECK] of the writer
    fails and [id_sections] is not read past its end: writing returns
    [true] or [false].  This holds for a buffer of any size, when the
    sizes the model records for its events are those of the deserialized
    events, and a sample info reader is there when there are events. *)
Theorem writer_checks_hold (r : PerfReader) (bytes : list Z) :
  Z.of_nat (length bytes) < 2 ^ 64 ->
  events (proto_ r) = []
  \/ SampleInfoReaderAvailable E (serializer_ r) = true ->
  Forall (sizes_agree W (serializer_ r)) (events (proto_ r)) ->
  returns_normally (fst (WriteToPointerWithoutCheckingSize E W r bytes)).
Proof.
  intros Hsize Hreader Hevs. unfold WriteToPointerWithoutCheckingSize.
  match goal with
  | |- context [let '(result, w) := ?run in _] =>
      assert (returns_normally (fst run)) as Hrun;
      [|destruct run; exact Hrun]
  end.
  pose proof (attrs_total_nonneg E attr_size_nonneg r) as Hattrs.
  pose proof (ids_total_nonneg (file_attrs (proto_ r))) as Hids.
  assert (0 <= bytes_before_data E r) as Hbefore
    by (unfold bytes_before_data, ids_size_total, ids_total,
          sizeof_perf_file_header in *; lia).
  (* the file header *)
  pose proof (WriteDataValue_wrote
                (encode_perf_file_header (GenerateHeader E W r))
                (BufferWriter bytes) ltac:(cbn; lia)) as Hhdr.
  unfold wrote in Hhdr. rewrite length_encode_perf_file_header in Hhdr.
  unfold bind at 1. unfold WriteHeader.
  destruct (_ <=? _) eqn:Hroom0 in Hhdr;
    [destruct Hhdr as ([] & w1 & -> & Hoff1 & Hsize1 & _)
    |destruct (WriteDataValue _ _) as [[u| |x] w1]; cbn in Hhdr;
     try discriminate; exact I].
  cbn [fst snd]. apply Z.leb_le in Hroom0.
  unfold writer_size at 1 in Hroom0. unfold writer_size at 2 in Hsize1.
  cbn [BufferWriter w_offset w_buffer] in Hoff1, Hsize1, Hroom0.
  change (Z.of_nat 104) with sizeof_perf_file_header in Hoff1, Hroom0.
  rewrite Z.add_0_l in Hoff1, Hroom0.
  (* the attributes *)
  pose proof (WriteAttrs_wrote E W attr_size_nonneg r w1 Hoff1
                ltac:(lia)) as Hat.
  unfold wrote in Hat. unfold bind at 1.
  destruct (_ <=? _) eqn:Hroom in Hat;
    [destruct Hat as ([] & w2 & -> & Hoff2 & Hsize2 & _)
    |destruct (WriteAttrs _ _ _ _ _) as [[u| |x] w2]; cbn in Hat;
     try discriminate; exact I].
  cbn [fst snd]. apply Z.leb_le in Hroom.
  assert (w_offset w2 = bytes_before_data E r) as Hoff2' by lia.
  assert (bytes_before_data E r <= writer_size w2) as Hfit2 by lia.
  pose proof (GenerateHeader_data_offset E W attr_size_nonneg r
                (writer_size w2)
                ltac:(lia) Hfit2) as Hdata.
  (* the events *)
  assert (moved (sum_of (map (event_bytes W) (events (proto_ r)))) w2
            (WriteData E W r (GenerateHeader E W r) w2)) as Hev.
  { unfold WriteData.
    destruct (events (proto_ r)) as [|ev rest] eqn:Hevents.
    - unfold moved. cbn. split; [lia|reflexivity].
    - destruct Hreader as [?| ->]; [discriminate|].
      erewrite bind_step by reflexivity.
      rewrite (bind_step get _ w2 w2 w2 eq_refl).
      erewrite bind_step
        by (unfold WriterTell; rewrite Hdata, Hoff2', Z.eqb_refl;
            reflexivity).
      apply WriteEvents_moved; [exact Hevs|].
      unfold bytes_before_data, sizeof_perf_file_header in *.
      unfold ids_total, ids_size_total in *. lia. }
  pose proof (preserves_WriteData E W (length (w_buffer w2)) 0 []
                ltac:(lia) r (GenerateHeader E W r) w2) as Hinv.
  unfold moved in Hev. unfold bind at 1.
  destruct (WriteData E W r (GenerateHeader E W r) w2)
    as [[[]| |x] w3]; cbn [fst snd] in *; [|exact I|exact Hev].
  destruct Hev as [Hoff3 Hsize3].
  (* the metadata *)
  assert (0 <= sum_of (map (event_bytes W) (events (proto_ r)))) as Htotal.
  { apply sum_of_nonneg, List.Forall_forall. intros x Hx.
    apply in_map_iff in Hx as (ev & <- & Hin).
    rewrite List.Forall_forall in Hevs.
    destruct (Hevs ev Hin) as (? & ? & _). unfold event_bytes.
    destruct (_ =? _); lia. }
  apply WriteMetadata_normal.
  - rewrite Hdata. unfold GenerateHeader at 1. cbn [hdr_data sec_size].
    change (sum_of (map _ (events (proto_ r))))
      with (sum_of (map (event_bytes W) (events (proto_ r)))).
    destruct Hinv as (Hlen3 & _ & Hin3).
    { unfold writer_inv, writer_size, bytes_before_data in *.
      unfold sizeof_perf_file_header, ids_total, ids_size_total in *.
      split; [reflexivity|]. split; [reflexivity|]. lia. }
    unfold writer_size in *.
    rewrite (u64_small (sum_of _)) by lia. rewrite u64_small by lia. lia.
  - destruct Hinv as (Hlen3 & _ & Hin3).
    { unfold writer_inv, writer_size, bytes_before_data in *.
      unfold sizeof_perf_file_header, ids_total, ids_size_total in *.
      split; [reflexivity|]. split; [reflexivity|]. lia. }
    unfold writer_size in *. lia.
Qed.

End WriterChecks.

Lemma writer_checks_hold_witness :
  returns_normally
    (fst (Reader.WriteToPointerWithoutCheckingSize Reader.example_env
            Reader.example_writer_env Reader.reader_with_one_event
            (repeat 0 400))).
Proof.
  apply (writer_checks_hold Reader.example_env Reader.example_writer_env).
  - vm_compute. discriminate.
  - vm_compute. reflexivity.
  - right. vm_compute. reflexivity.
  - repeat constructor.
    + vm_compute. discriminate.
    + vm_compute. discriminate.
    + intros event [= <-]. reflexivity.
    + intros trace_data [=].
Defined.

(** ** The integer feature sections *)

Section UintMetadata.
Import Kernel Reader.

Lemma ReadUint_ok (n : nat) (s : State) :
  offset (data s) + Z.of_nat n <= data_size (data s) ->
  ReadUint n s
  = (Done (let v := le_decode (take n (rest_of_input s)) in
           if is_cross_endian (data s) then bswap n v else v),
     advance (Z.of_nat n) s).
Proof.
  intros Hfit. unfold ReadUint.
  rewrite (bind_step _ _ _ _ _
             (ReadData_ok (Z.of_nat n) s ltac:(lia) Hfit)).
  unfold bind, get, ret, rest_of_input.
  cbn [advance set_data data is_cross_endian]. now rewrite Nat2Z.id.
Qed.

Lemma ReadUint_fails (n : nat) (s : State) :
  data_size (data s) < offset (data s) + Z.of_nat n ->
  ReadUint n s = (Failed, s).
Proof.
  intros Hfit. unfold ReadUint, bind, ReadData.
  replace (offset (data s) + Z.of_nat n <=? data_size (data s)) with false
    by (symmetry; apply Z.leb_gt; lia).
  now rewrite andb_false_r.
Qed.

Lemma advance_advance (n m : Z) (s : State) :
  advance m (advance n s) = advance (n + m) s.
Proof.
  unfold advance, set_data. cbn [this data buffer offset is_cross_endian].
  do 2 f_equal. lia.
Qed.

Lemma rest_of_input_advance (n : nat) (s : State) :
  0 <= offset (data s) ->
  rest_of_input (advance (Z.of_nat n) s) = drop n (rest_of_input s).
Proof.
  intros Hoff. unfold rest_of_input, advance, set_data.
  cbn [data buffer offset]. rewrite drop_drop. f_equal. lia.
Qed.

(** The loop on a size that is a multiple of the width of an item. *)
Lemma ReadUintItems_ok (width : nat) (k fuel : nat) (s : State) :
  (0 < width)%nat ->
  (k <= fuel)%nat ->
  0 <= offset (data s) ->
  offset (data s) + Z.of_nat width * Z.of_nat k <= data_size (data s) ->
  data_size (data s) < 2 ^ 64 ->
  ReadUintItems width fuel (Z.of_nat width * Z.of_nat k) s
  = (Done (decode_uints width (is_cross_endian (data s)) k (rest_of_input s)),
     advance (Z.of_nat width * Z.of_nat k) s).
Proof.
  intros Hwidth. revert fuel s.
  induction k as [|k IH]; intros fuel s Hfuel Hoff Hfit Hsize.
  - rewrite Z.mul_0_r. destruct fuel; cbn [ReadUintItems decode_uints];
      change (0 >? 0) with false; cbv iota; unfold ret;
      now rewrite advance_zero.
  - destruct fuel as [|fuel]; [lia|]. cbn [ReadUintItems decode_uints].
    replace (Z.of_nat width * Z.of_nat (S k) >? 0) with true
      by (symmetry; rewrite Z.gtb_ltb; apply Z.ltb_lt; nia).
    rewrite (bind_step _ _ _ _ _ (ReadUint_ok width s ltac:(nia))).
    replace (u64 (Z.of_nat width * Z.of_nat (S k) - Z.of_nat width))
      with (Z.of_nat width * Z.of_nat k)
      by (rewrite u64_small; nia).
    rewrite (bind_step _ _ _ _ _
               (IH fuel (advance (Z.of_nat width) s) ltac:(lia)
                  ltac:(cbn; lia) ltac:(cbn; unfold data_size in *; cbn; nia)
                  ltac:(exact Hsize))).
    unfold ret. rewrite advance_advance, rest_of_input_advance by assumption.
    cbn [advance set_data data is_cross_endian].
    do 2 f_equal. nia.
Qed.

(** The loop on a size that is not a multiple of the width of an item:
    the size never becomes 0, and the loop goes on until the input is
    used up. *)
Lemma ReadUintItems_fails (width : nat) (fuel : nat) (size : Z) (s : State) :
  (0 < width)%nat ->
  (Z.of_nat width | 2 ^ 64) ->
  0 <= size < 2 ^ 64 ->
  size mod Z.of_nat width <> 0 ->
  offset (data s) <= data_size (data s) ->
  data_size (data s) - offset (data s) < Z.of_nat width * Z.of_nat fuel ->
  fst (ReadUintItems width fuel size s) = Failed.
Proof.
  intros Hwidth Hdiv. revert size s.
  induction fuel as [|fuel IH]; intros size s Hsize Hmod Hoff Hfuel; [lia|].
  cbn [ReadUintItems].
  replace (size >? 0) with true
    by (symmetry; rewrite Z.gtb_ltb; apply Z.ltb_lt;
        destruct (Z.eq_dec size 0) as [->|]; [now rewrite Zmod_0_l in Hmod|lia]).
  destruct (Z.le_gt_cases (offset (data s) + Z.of_nat width)
              (data_size (data s))) as [Hfit|Hfit].
  - rewrite (bind_step _ _ _ _ _ (ReadUint_ok width s Hfit)).
    assert (fst (ReadUintItems width fuel (u64 (size - Z.of_nat width))
                   (advance (Z.of_nat width) s)) = Failed) as Hrec.
    { apply IH.
      - apply u64_range.
      - unfold u64. rewrite Z.mod_mod_divide by assumption.
        rewrite Zminus_mod, Z_mod_same_full, Z.sub_0_r, Z.mod_mod by lia.
        exact Hmod.
      - unfold data_size in *. cbn [advance set_data data buffer offset]. lia.
      - unfold data_size in *. cbn [advance set_data data buffer offset]. lia. }
    unfold bind at 1.
    destruct (ReadUintItems width fuel _ _) as [[l| |c] s'];
      cbn [fst snd] in *; try discriminate. reflexivity.
  - unfold bind at 1. now rewrite (ReadUint_fails width s) by lia.
Qed.

Lemma ReadUintMetadata_reads (width : nat)
    (add : PerfUintMetadata -> Metadata -> Metadata) (type size : Z)
    (s : State) :
  (0 < width)%nat ->
  0 <= offset (data s) ->
  0 < size ->
  size mod Z.of_nat width = 0 ->
  offset (data s) + size <= data_size (data s) ->
  data_size (data s) < 2 ^ 64 ->
  ReadUintMetadata width add type size s
  = (Done tt,
     advance size
       (set_this (set_proto (set_metadata
          (add {| um_type := type;
                  um_data :=
                    decode_uints width (is_cross_endian (data s))
                      (Z.to_nat (size / Z.of_nat width))
                      (rest_of_input s) |}))) s)).
Proof.
  intros Hwidth Hoff Hpos Hmod Hfit Hsize.
  apply Z.div_exact in Hmod; [|lia].
  set (k := Z.to_nat (size / Z.of_nat width)).
  assert (size = Z.of_nat width * Z.of_nat k) as Hk
    by (unfold k; rewrite Z2Nat.id; [exact Hmod|apply Z.div_pos; lia]).
  clearbody k. clear Hmod. subst size.
  unfold ReadUintMetadata. rewrite (bind_step get _ s s s eq_refl).
  assert (k <= S (length (buffer (data s))))%nat as Hfuel
    by (unfold data_size in *; nia).
  rewrite (bind_step _ _ _ _ _
             (ReadUintItems_ok width k _ s Hwidth Hfuel Hoff Hfit Hsize)).
  destruct k as [|k]; [lia|]. cbn [decode_uints negb].
  rewrite bind_require. reflexivity.
Qed.

(** [ReadUint32Metadata] and [ReadUint64Metadata] on a section whose
    size is a positive multiple of the item size and which lies in the
    input: they return [true], the cursor has moved [size] bytes, and the
    model has one more entry, of the given type, with the [size / 4]
    (or [size / 8]) integers of the section in order, byte-swapped when
    the input is cross-endian. *)
Theorem uint_metadata_section_is_read_whole (type size : Z) (s : State) :
  0 <= offset (data s) ->
  0 < size ->
  offset (data s) + size <= data_size (data s) ->
  data_size (data s) < 2 ^ 64 ->
  (size mod 4 = 0 ->
   ReadUint32Metadata type size s
   = (Done tt,
      advance size
        (set_this (set_proto (set_metadata
           (add_uint32_metadata
              {| um_type := type;
                 um_data :=
                   decode_uints 4 (is_cross_endian (data s))
                     (Z.to_nat (size / 4)) (rest_of_input s) |}))) s)))
  /\ (size mod 8 = 0 ->
      ReadUint64Metadata type size s
      = (Done tt,
         advance size
           (set_this (set_proto (set_metadata
              (add_uint64_metadata
                 {| um_type := type;
                    um_data :=
                      decode_uints 8 (is_cross_endian (data s))
                        (Z.to_nat (size / 8)) (rest_of_input s) |}))) s))).
Proof.
  intros Hoff Hpos Hfit Hsize. split; intros Hmod.
  - apply (ReadUintMetadata_reads 4); try assumption; lia.
  - apply (ReadUintMetadata_reads 8); try assumption; lia.
Qed.

Lemma ReadUintMetadata_fails (width : nat)
    (add : PerfUintMetadata -> Metadata -> Metadata) (type size : Z)
    (s : State) :
  (0 < width)%nat ->
  (Z.of_nat width | 2 ^ 64) ->
  0 <= offset (data s) <= data_size (data s) ->
  0 <= size < 2 ^ 64 ->
  size mod Z.of_nat width <> 0 ->
  fst (ReadUintMetadata width add type size s) = Failed
  /\ this (snd (ReadUintMetadata width add type size s)) = this s.
Proof.
  intros Hwidth Hdiv Hoff Hsize Hmod.
  unfold ReadUintMetadata. rewrite (bind_step get _ s s s eq_refl).
  pose proof (ReadUintItems_fails width (S (length (buffer (data s)))) size s
                Hwidth Hdiv Hsize Hmod ltac:(lia)
                ltac:(unfold data_size in *; nia)) as Hloop.
  assert (preserves (fun s' => this s' = this s)
            (ReadUintItems width (S (length (buffer (data s)))) size))
    as Hthis.
  { clear. generalize (S (length (buffer (data s)))). intros fuel.
    revert size.
    induction fuel as [|fuel IH]; intros size; cbn [ReadUintItems];
      destruct (size >? 0); repeat pres_step.
    apply blind_ReadData. intros s0 off H. exact H. }
  specialize (Hthis s eq_refl).
  unfold bind.
  destruct (ReadUintItems _ _ _ _) as [[l| |c] s']; cbn [fst snd] in *;
    try discriminate.
  auto.
Qed.

(** [ReadUint32Metadata] and [ReadUint64Metadata] return [false], and
    leave the reader as it was, for a section of size 0 and for a section
    whose size is not a multiple of the item size.  In the second case
    [size] wraps around instead of reaching 0, and the loop reads on
    until the input is used up. *)
Theorem uint_metadata_of_odd_size_is_rejected (type size : Z) (s : State) :
  0 <= offset (data s) <= data_size (data s) ->
  0 <= size < 2 ^ 64 ->
  ReadUint32Metadata type 0 s = (Failed, s)
  /\ ReadUint64Metadata type 0 s = (Failed, s)
  /\ (size mod 4 <> 0 ->
      fst (ReadUint32Metadata type size s) = Failed
      /\ this (snd (ReadUint32Metadata type size s)) = this s)
  /\ (size mod 8 <> 0 ->
      fst (ReadUint64Metadata type size s) = Failed
      /\ this (snd (ReadUint64Metadata type size s)) = this s).
Proof.
  intros Hoff Hsize. split; [reflexivity|]. split; [reflexivity|].
  split; intros Hmod.
  - apply (ReadUintMetadata_fails 4); try assumption; [lia|].
    exists (2 ^ 62). reflexivity.
  - apply (ReadUintMetadata_fails 8); try assumption; [lia|].
    exists (2 ^ 61). reflexivity.
Qed.

Lemma decode_uints_encoded (width : nat) (values rest : list Z) :
  Forall (fun v => 0 <= v < 256 ^ Z.of_nat width) values ->
  decode_uints width false (length values)
    (flat_map (le_encode width) values ++ rest)
  = values.
Proof.
  induction 1 as [|v values Hv _ IH]; [reflexivity|].
  cbn [flat_map length decode_uints]. rewrite <- app_assoc.
  rewrite take_app_length' by now rewrite length_le_encode.
  rewrite drop_app_length' by now rewrite length_le_encode.
  rewrite le_decode_le_encode, Z.mod_small by exact Hv.
  now rewrite IH.
Qed.

Lemma length_flat_map_le_encode (width : nat) (values : list Z) :
  Z.of_nat (length (flat_map (le_encode width) values))
  = Z.of_nat width * Z.of_nat (length values).
Proof.
  induction values as [|v values IH]; cbn [flat_map length]; [lia|].
  rewrite length_app, length_le_encode. lia.
Qed.

Lemma uint_metadata_round_trip (width : nat)
    (add : PerfUintMetadata -> Metadata -> Metadata)
    (entries : list PerfUintMetadata) (r0 : PerfReader) (type : Z)
    (m : PerfUintMetadata) (bytes : list Z) :
  (0 < width)%nat ->
  List.find (fun m => um_type m =? type) entries = Some m ->
  um_data m <> [] ->
  Forall (fun v => 0 <= v < 256 ^ Z.of_nat width) (um_data m) ->
  Z.of_nat width * Z.of_nat (length (um_data m)) <= Z.of_nat (length bytes) ->
  Z.of_nat (length bytes) < 2 ^ 64 ->
  exists w : DataWriter,
    WriteUintMetadata width entries type (BufferWriter bytes) = (Done tt, w)
    /\ w_offset w = Z.of_nat width * Z.of_nat (length (um_data m))
    /\ ReadUintMetadata width add type (w_offset w)
         {| this := r0; data := BufferReader (w_buffer w) |}
       = (Done tt,
          {| this := set_proto (set_metadata
                       (add {| um_type := type; um_data := um_data m |})) r0;
             data := {| buffer := w_buffer w; offset := w_offset w;
                        is_cross_endian := false |} |}).
Proof.
  intros Hwidth Hfind Hdata Hrange Hfit Hsize.
  unfold WriteUintMetadata. rewrite Hfind.
  pose proof (length_flat_map_le_encode width (um_data m)) as Hlen.
  pose proof (WriteDataValue_wrote (flat_map (le_encode width) (um_data m))
                (BufferWriter bytes) ltac:(cbn; lia)) as Hw.
  unfold wrote, writer_size in Hw.
  cbn [BufferWriter w_offset w_buffer] in Hw. rewrite Hlen in Hw.
  replace (0 + _ <=? _) with true in Hw
    by (symmetry; apply Z.leb_le; lia).
  destruct Hw as ([] & w & Hrun & Hoff & Hwsize & _).
  exists w. split; [exact Hrun|]. split; [lia|].
  apply WriteDataValue_Done in Hrun as [_ Hw].
  cbn [BufferWriter w_offset w_buffer] in Hw.
  assert (decode_uints width false (length (um_data m)) (w_buffer w)
          = um_data m) as Hdec.
  { rewrite Hw. cbn [w_buffer]. change (Z.to_nat 0) with 0%nat.
    rewrite take_0, app_nil_l. now apply decode_uints_encoded. }
  assert (0 < Z.of_nat (length (um_data m))) as Hpos
    by (destruct (um_data m); [contradiction|cbn [length]; lia]).
  rewrite Z.add_0_l in Hoff.
  rewrite (ReadUintMetadata_reads width add type (w_offset w)).
  - unfold advance, set_data, set_this, rest_of_input.
    cbn [this data buffer offset is_cross_endian BufferReader].
    change (Z.to_nat 0) with 0%nat. rewrite drop_0.
    rewrite Hoff at 1. rewrite Z.mul_comm, Z.div_mul, Nat2Z.id by lia.
    rewrite Hdec, Z.add_0_l. reflexivity.
  - exact Hwidth.
  - cbn. lia.
  - nia.
  - rewrite Hoff, Z.mul_comm. apply Z.mod_mul. lia.
  - unfold data_size. cbn [data buffer offset BufferReader]. lia.
  - unfold data_size. cbn [data buffer offset BufferReader]. lia.
Qed.

(** An integer feature section is read back as it was written.  For an
    entry of [uint32_metadata] that has data, [WriteUint32Metadata]
    followed by [ReadUint32Metadata] on the bytes written, with the size
    written, adds to the reading model an entry with the same type and
    the same data, and the cursor of the reader ends where that of the
    writer did.  The same holds for [uint64_metadata]. *)
Theorem uint_metadata_is_read_back_as_written (r r0 : PerfReader) (type : Z)
    (m : PerfUintMetadata) (bytes : list Z) :
  um_data m <> [] ->
  Z.of_nat (length bytes) < 2 ^ 64 ->
  (List.find (fun m => um_type m =? type)
     (uint32_metadata (metadata (proto_ r))) = Some m ->
   Forall (fun v => 0 <= v < 2 ^ 32) (um_data m) ->
   4 * Z.of_nat (length (um_data m)) <= Z.of_nat (length bytes) ->
   exists w : DataWriter,
     WriteUint32Metadata r type (BufferWriter bytes) = (Done tt, w)
     /\ w_offset w = 4 * Z.of_nat (length (um_data m))
     /\ ReadUint32Metadata type (w_offset w)
          {| this := r0; data := BufferReader (w_buffer w) |}
        = (Done tt,
           {| this := set_proto (set_metadata
                        (add_uint32_metadata
                           {| um_type := type; um_data := um_data m |})) r0;
              data := {| buffer := w_buffer w; offset := w_offset w;
                         is_cross_endian := false |} |}))
  /\ (List.find (fun m => um_type m =? type)
        (uint64_metadata (metadata (proto_ r))) = Some m ->
      Forall (fun v => 0 <= v < 2 ^ 64) (um_data m) ->
      8 * Z.of_nat (length (um_data m)) <= Z.of_nat (length bytes) ->
      exists w : DataWriter,
        WriteUint64Metadata r type (BufferWriter bytes) = (Done tt, w)
        /\ w_offset w = 8 * Z.of_nat (length (um_data m))
        /\ ReadUint64Metadata type (w_offset w)
             {| this := r0; data := BufferReader (w_buffer w) |}
           = (Done tt,
              {| this := set_proto (set_metadata
                           (add_uint64_metadata
                              {| um_type := type; um_data := um_data m |})) r0;
                 data := {| buffer := w_buffer w; offset := w_offset w;
                            is_cross_endian := false |} |})).
Proof.
  intros Hdata Hsize. split; intros Hfind Hrange Hfit.
  - apply (uint_metadata_round_trip 4); try assumption; lia.
  - apply (uint_metadata_round_trip 8); try assumption; lia.
Qed.

End UintMetadata.

Lemma uint_metadata_section_witness :
  let s := {| Reader.this := Reader.new_reader;
              Reader.data :=
                Reader.BufferReader (le_encode 4 8 ++ le_encode 4 4) |} in
  Reader.ReadUint32Metadata 7 8 s
  = (Done tt,
     Reader.advance 8
       (Reader.set_this (Reader.set_proto (Reader.set_metadata
          (Reader.add_uint32_metadata
             {| Reader.um_type := 7; Reader.um_data := [8; 4] |}))) s))
  /\ Reader.ReadUint64Metadata 7 8 s
     = (Done tt,
        Reader.advance 8
          (Reader.set_this (Reader.set_proto (Reader.set_metadata
             (Reader.add_uint64_metadata
                {| Reader.um_type := 7;
                   Reader.um_data := [8 + 4 * 2 ^ 32] |}))) s)).
Proof.
  intros s.
  destruct (uint_metadata_section_is_read_whole 7 8 s) as [H32 H64].
  - vm_compute. discriminate.
  - reflexivity.
  - vm_compute. discriminate.
  - vm_compute. reflexivity.
  - split; [exact (H32 eq_refl)|exact (H64 eq_refl)].
Defined.

Lemma uint_metadata_odd_size_witness :
  let s := {| Reader.this := Reader.new_reader;
              Reader.data :=
                Reader.BufferReader (le_encode 4 8 ++ le_encode 4 4) |} in
  Reader.ReadUint32Metadata 7 0 s = (Failed, s)
  /\ Reader.ReadUint64Metadata 7 0 s = (Failed, s)
  /\ (fst (Reader.ReadUint32Metadata 7 6 s) = Failed
      /\ Reader.this (snd (Reader.ReadUint32Metadata 7 6 s)) = Reader.this s)
  /\ (fst (Reader.ReadUint64Metadata 7 6 s) = Failed
      /\ Reader.this (snd (Reader.ReadUint64Metadata 7 6 s)) = Reader.this s).
Proof.
  intros s.
  destruct (uint_metadata_of_odd_size_is_rejected 7 6 s)
    as (H0 & H0' & H32 & H64).
  - vm_compute. split; discriminate.
  - vm_compute. split; [discriminate|reflexivity].
  - split; [exact H0|]. split; [exact H0'|].
    split; [apply H32|apply H64]; vm_compute; discriminate.
Defined.

Lemma uint_metadata_round_trip_witness :
  let r := Reader.reader_with_uint_metadata in
  let bytes := repeat 0 16 in
  (exists w : Reader.DataWriter,
     Reader.WriteUint32Metadata r Kernel.HEADER_NRCPUS
       (Reader.BufferWriter bytes) = (Done tt, w)
     /\ Reader.w_offset w = 4 * Z.of_nat 2
     /\ Reader.ReadUint32Metadata Kernel.HEADER_NRCPUS (Reader.w_offset w)
          {| Reader.this := Reader.new_reader;
             Reader.data := Reader.BufferReader (Reader.w_buffer w) |}
        = (Done tt,
           {| Reader.this :=
                Reader.set_proto (Reader.set_metadata
                  (Reader.add_uint32_metadata
                     {| Reader.um_type := Kernel.HEADER_NRCPUS;
                        Reader.um_data := [8; 4] |}))
                  Reader.new_reader;
              Reader.data :=
                {| Reader.buffer := Reader.w_buffer w;
                   Reader.offset := Reader.w_offset w;
                   Reader.is_cross_endian := false |} |})).
Proof.
  intros r bytes.
  apply (uint_metadata_is_read_back_as_written r Reader.new_reader
           Kernel.HEADER_NRCPUS
           {| Reader.um_type := Kernel.HEADER_NRCPUS;
              Reader.um_data := [8; 4] |} bytes).
  - discriminate.
  - vm_compute. reflexivity.
  - reflexivity.
  - repeat constructor; vm_compute; discriminate.
  - vm_compute. discriminate.
Defined.

(** ** Attributes in piped data *)

Section AttrBlocks.
Import Kernel Serializer Reader.
Variable E : Env.

Section KeepsReader.
Variable r : PerfReader.

Lemma this_blind : cursor_blind (fun s => this s = r).
Proof. intros s off H. exact H. Qed.

Lemma keeps_this_ReadEventAttr :
  preserves (fun s => this s = r) (ReadEventAttr E).
Proof.
  pose proof (blind_ReadData _ this_blind) as H1.
  pose proof (blind_SeekSet _ this_blind) as H2.
  unfold ReadEventAttr, ReadUint32, ReadUint, skip_forward.
  repeat first [apply H1 | apply H2 | pres_step].
Qed.

Lemma keeps_this_ReadUniqueIDs (n : nat) :
  preserves (fun s => this s = r) (ReadUniqueIDs n).
Proof.
  pose proof (blind_ReadData _ this_blind) as H1.
  induction n as [|n IH]; cbn [ReadUniqueIDs]; unfold ReadUint64, ReadUint;
    repeat first [apply H1 | apply IH | pres_step].
Qed.

End KeepsReader.

Lemma AddPerfFileAttr_Done (fa : PerfFileAttr) (s s' : State) :
  AddPerfFileAttr E fa s = (Done tt, s') ->
  file_attrs (proto_ (this s')) = file_attrs (proto_ (this s)) ++ [fa]
  /\ file_attrs_seen_ (this s')
     = match ids fa with
       | [] => file_attrs_seen_ (this s)
       | id0 :: _ => {[ id0 ]} ∪ file_attrs_seen_ (this s)
       end
  /\ file_attr_configs_seen_ (this s')
     = {[ attr_config (attr fa) ]} ∪ file_attr_configs_seen_ (this s)
  /\ data s' = data s.
Proof.
  unfold AddPerfFileAttr. intros H.
  inv_bind H as u1 s1 H1. apply modify_Done in H1 as ->.
  inv_get H. inv_bind H as u2 s2 H2. apply modify_Done in H2 as ->.
  inv_require H as Hcreated. apply modify_Done in H as ->.
  cbn. auto.
Qed.

(** What a successful [ReadAttrEventBlock] does to the reader. *)
Lemma ReadAttrEventBlock_Done (size : Z) (s s' : State) :
  ReadAttrEventBlock E size s = (Done tt, s') ->
  this s' = this s
  \/ exists fa : PerfFileAttr,
       ~ attr_key_seen (this s) fa
       /\ file_attrs (proto_ (this s'))
          = file_attrs (proto_ (this s)) ++ [fa]
       /\ file_attrs_seen_ (this s')
          = match ids fa with
            | [] => file_attrs_seen_ (this s)
            | id0 :: _ => {[ id0 ]} ∪ file_attrs_seen_ (this s)
            end
       /\ file_attr_configs_seen_ (this s')
          = {[ attr_config (attr fa) ]} ∪ file_attr_configs_seen_ (this s).
Proof.
  unfold ReadAttrEventBlock. intros H.
  inv_get H. inv_bind H as a s1 Ha.
  pose proof (keeps_this_ReadEventAttr (this s) s eq_refl) as H1.
  rewrite Ha in H1. cbn [snd] in H1.
  inv_get H. inv_bind H as l s2 Hl.
  match type of Hl with
  | ReadUniqueIDs ?n _ = _ =>
      pose proof (keeps_this_ReadUniqueIDs (this s) n s1 H1) as H2
  end.
  rewrite Hl in H2. cbn [snd] in H2.
  inv_get H. rewrite H2 in H.
  destruct l as [|id0 l].
  - destruct (bool_decide _) eqn:Hseen.
    + injection H as <-. now left.
    + apply bool_decide_eq_false in Hseen. right.
      exists {| attr := a; ids := [] |}.
      apply AddPerfFileAttr_Done in H as (Hattrs & Hids & Hconfigs & _).
      rewrite H2 in *. auto.
  - cbv iota in H. destruct (bool_decide _) eqn:Hseen.
    + injection H as <-. now left.
    + apply bool_decide_eq_false in Hseen. right.
      exists {| attr := a; ids := id0 :: l |}.
      apply AddPerfFileAttr_Done in H as (Hattrs & Hids & Hconfigs & _).
      rewrite H2 in *. auto.
Qed.

(** [ReadAttrEventBlock] adds an attribute only under a key it has not
    seen.  When it returns [true], either the reader is as it was, or the
    model has one more attribute, whose first ID (whose config, when it
    has no IDs) had not been seen before, and this first ID and the
    config have been added to the IDs and the configs seen. *)
Theorem ReadAttrEventBlock_adds_only_unseen (size : Z) (s s' : State) :
  ReadAttrEventBlock E size s = (Done tt, s') ->
  this s' = this s
  \/ exists fa : PerfFileAttr,
       ~ attr_key_seen (this s) fa
       /\ file_attrs (proto_ (this s'))
          = file_attrs (proto_ (this s)) ++ [fa]
       /\ file_attrs_seen_ (this s')
          = match ids fa with
            | [] => file_attrs_seen_ (this s)
            | id0 :: _ => {[ id0 ]} ∪ file_attrs_seen_ (this s)
            end
       /\ file_attr_configs_seen_ (this s')
          = {[ attr_config (attr fa) ]} ∪ file_attr_configs_seen_ (this s).
Proof. apply ReadAttrEventBlock_Done. Qed.

Lemma first_ids_app (l1 l2 : list PerfFileAttr) :
  first_ids (l1 ++ l2) = first_ids l1 ++ first_ids l2.
Proof. unfold first_ids. apply flat_map_app. Qed.

Lemma first_ids_seen (r : PerfReader) (id : Z) :
  attrs_noted r ->
  In id (first_ids (file_attrs (proto_ r))) ->
  id ∈ file_attrs_seen_ r.
Proof.
  revert id. intros id [Hseen _] Hin. unfold first_ids in Hin.
  apply in_flat_map in Hin as (fa & Hfa & Hid).
  destruct (Hseen fa Hfa) as [Hkey _]. unfold attr_key_seen in Hkey.
  destruct (ids fa) as [|id0 l]; [contradiction|].
  destruct Hid as [<-|[]]. exact Hkey.
Qed.

(** The attributes that [ReadAttrEventBlock] accumulates differ in their
    first IDs.  If every attribute of the model has been noted as seen
    and no two of those with IDs have the same first ID, this is so
    again when [ReadAttrEventBlock] returns [true]. *)
Theorem ReadAttrEventBlock_keeps_first_ids_distinct (size : Z)
    (s s' : State) :
  attrs_noted (this s) ->
  ReadAttrEventBlock E size s = (Done tt, s') ->
  attrs_noted (this s').
Proof.
  intros Hnoted Hrun.
  apply ReadAttrEventBlock_Done in Hrun
    as [->|(fa & Hnew & Hattrs & Hids & Hconfigs)]; [exact Hnoted|].
  assert (forall id : Z,
            In id (first_ids (file_attrs (proto_ (this s)))) ->
            id ∈ file_attrs_seen_ (this s)) as Hfirst
    by (intros id; now apply first_ids_seen).
  destruct Hnoted as [Hseen Hdistinct]. split.
  - intros fa' Hin. rewrite Hattrs in Hin. unfold attr_key_seen in *.
    rewrite Hids, Hconfigs.
    apply in_app_or in Hin as [Hin|[<-|[]]].
    + destruct (Hseen fa' Hin) as [Hkey Hconfig].
      split; [|now apply elem_of_union_r].
      destruct (ids fa') as [|id0' l']; [now apply elem_of_union_r|].
      destruct (ids fa) as [|id0 l]; [exact Hkey|now apply elem_of_union_r].
    + split; [|now apply elem_of_union_l, elem_of_singleton].
      destruct (ids fa) as [|id0 l];
        now apply elem_of_union_l, elem_of_singleton.
  - rewrite Hattrs, first_ids_app. apply NoDup_app.
    split; [exact Hdistinct|].
    unfold first_ids at 2 3. cbn [flat_map]. rewrite app_nil_r.
    unfold attr_key_seen in Hnew.
    destruct (ids fa) as [|id0 l].
    + split; [intros ? ? []%elem_of_nil|constructor].
    + split.
      * intros id Hin ->%list_elem_of_singleton.
        apply Hnew, Hfirst, list_elem_of_In, Hin.
      * apply NoDup_singleton.
Qed.

End AttrBlocks.

Lemma attr_block_first_run :
  fst (Reader.ReadAttrEventBlock Reader.example_env 120
         {| Reader.this := Reader.new_reader;
            Reader.data := Reader.BufferReader Reader.attr_block_bytes |})
  = Done tt.
Proof. vm_compute. reflexivity. Qed.

Lemma ReadAttrEventBlock_unseen_witness :
  let s := {| Reader.this := Reader.new_reader;
              Reader.data := Reader.BufferReader Reader.attr_block_bytes |} in
  let s' := snd (Reader.ReadAttrEventBlock Reader.example_env 120 s) in
  Reader.this s' = Reader.this s
  \/ exists fa : Serializer.PerfFileAttr,
       ~ Reader.attr_key_seen (Reader.this s) fa
       /\ Reader.file_attrs (Reader.proto_ (Reader.this s'))
          = Reader.file_attrs (Reader.proto_ (Reader.this s)) ++ [fa]
       /\ Reader.file_attrs_seen_ (Reader.this s')
          = match Serializer.ids fa with
            | [] => Reader.file_attrs_seen_ (Reader.this s)
            | id0 :: _ => {[ id0 ]} ∪ Reader.file_attrs_seen_ (Reader.this s)
            end
       /\ Reader.file_attr_configs_seen_ (Reader.this s')
          = {[ Serializer.attr_config (Serializer.attr fa) ]}
            ∪ Reader.file_attr_configs_seen_ (Reader.this s).
Proof.
  intros s s'. subst s' s.
  apply (ReadAttrEventBlock_adds_only_unseen Reader.example_env 120).
  rewrite (surjective_pairing (Reader.ReadAttrEventBlock _ _ _)) at 1.
  now rewrite attr_block_first_run.
Defined.

Lemma ReadAttrEventBlock_distinct_witness :
  Reader.attrs_noted
    (Reader.this
       (snd (Reader.ReadAttrEventBlock Reader.example_env 120
               {| Reader.this := Reader.new_reader;
                  Reader.data :=
                    Reader.BufferReader Reader.attr_block_bytes |}))).
Proof.
  apply (ReadAttrEventBlock_keeps_first_ids_distinct Reader.example_env 120
           {| Reader.this := Reader.new_reader;
              Reader.data := Reader.BufferReader Reader.attr_block_bytes |}).
  - split; [intros fa []|constructor].
  - rewrite (surjective_pairing (Reader.ReadAttrEventBlock _ _ _)) at 1.
    now rewrite attr_block_first_run.
Defined.

(** ** The attrs section *)

Section AttrsSectionCount.
Import Kernel Serializer Reader.
Variable E : Env.

Lemma keeps_this_ReadPerfFileSection (r : PerfReader) :
  preserves (fun s => this s = r) ReadPerfFileSection.
Proof. apply blind_ReadPerfFileSection, this_blind. Qed.

Lemma keeps_this_SeekSet (r : PerfReader) (off : Z) :
  preserves (fun s => this s = r) (SeekSet off).
Proof. apply blind_SeekSet, this_blind. Qed.

Lemma preserves_run {S A : Type} (I : S -> Prop) (c : M S A) (s s' : S)
    (a : res A) :
  preserves I c -> c s = (a, s') -> I s -> I s'.
Proof. intros Hc Hrun Hs. specialize (Hc s Hs). now rewrite Hrun in Hc. Qed.

Lemma attrs_added_refl (r : PerfReader) : attrs_added [] r r.
Proof.
  unfold attrs_added. rewrite app_nil_r. repeat split; auto.
Qed.

Lemma attrs_added_trans (l1 l2 : list PerfFileAttr) (r1 r2 r3 : PerfReader) :
  attrs_added l1 r1 r2 -> attrs_added l2 r2 r3 ->
  attrs_added (l1 ++ l2) r1 r3.
Proof.
  intros (Ha1 & Hh1 & He1 & Hs1 & Hc1 & Hn1) (Ha2 & Hh2 & He2 & Hs2 & Hc2 & Hn2).
  unfold attrs_added. rewrite Ha2, Ha1, app_assoc.
  repeat split; try congruence.
  - etransitivity; eassumption.
  - etransitivity; eassumption.
  - apply Forall_app. split; [|exact Hn2].
    eapply List.Forall_impl; [|exact Hn1]. intros fa [Hkey Hconfig].
    unfold attr_key_seen in *. split; [|now apply Hc2].
    destruct (ids fa); [now apply Hc2|now apply Hs2].
Qed.

Lemma AddPerfFileAttr_added (fa : PerfFileAttr) (s s' : State) :
  AddPerfFileAttr E fa s = (Done tt, s') ->
  attrs_added [fa] (this s) (this s').
Proof.
  unfold AddPerfFileAttr. intros H.
  inv_bind H as u1 s1 H1. apply modify_Done in H1 as ->.
  inv_get H. inv_bind H as u2 s2 H2. apply modify_Done in H2 as ->.
  inv_require H as Hcreated. apply modify_Done in H as ->.
  unfold attrs_added, attr_key_seen. cbn.
  repeat split; try reflexivity.
  - destruct (ids fa); [reflexivity|apply union_subseteq_r].
  - apply union_subseteq_r.
  - repeat constructor.
    + destruct (ids fa); now apply elem_of_union_l, elem_of_singleton.
    + now apply elem_of_union_l, elem_of_singleton.
Qed.

Lemma ReadAttr_added (s s' : State) :
  ReadAttr E s = (Done tt, s') ->
  exists fa : PerfFileAttr, attrs_added [fa] (this s) (this s').
Proof.
  unfold ReadAttr. intros H.
  inv_bind H as a s1 Ha.
  pose proof (preserves_run _ _ _ _ _
                (keeps_this_ReadEventAttr E (this s)) Ha eq_refl) as H1.
  inv_bind H as sec s2 Hsec.
  pose proof (preserves_run _ _ _ _ _
                (keeps_this_ReadPerfFileSection (this s)) Hsec H1) as H2.
  inv_get H. inv_bind H as u3 s3 Hseek.
  pose proof (preserves_run _ _ _ _ _
                (keeps_this_SeekSet (this s) _) Hseek H2) as H3.
  inv_bind H as l s4 Hl.
  pose proof (preserves_run _ _ _ _ _
                (keeps_this_ReadUniqueIDs (this s) _) Hl H3) as H4.
  inv_bind H as u5 s5 Hback.
  pose proof (preserves_run _ _ _ _ _
                (keeps_this_SeekSet (this s) _) Hback H4) as H5.
  destruct u5. apply AddPerfFileAttr_added in H. rewrite H5 in H.
  eauto.
Qed.

Lemma repeat_ReadAttr_added (n : nat) (s s' : State) :
  repeatM n (ReadAttr E) s = (Done tt, s') ->
  exists added : list PerfFileAttr,
    length added = n /\ attrs_added added (this s) (this s').
Proof.
  revert s. induction n as [|n IH]; intros s H; cbn [repeatM] in H.
  - injection H as <-. exists []. split; [reflexivity|apply attrs_added_refl].
  - inv_bind H as u s1 H1. destruct u.
    apply ReadAttr_added in H1 as (fa & Hfa).
    apply IH in H as (added & Hlen & Hadded).
    exists ([fa] ++ added). split; [cbn; lia|].
    eapply attrs_added_trans; eassumption.
Qed.

(** A successful [ReadAttrsSection] adds one attribute for each
    [attr_size] bytes of the attrs section.  When it returns [true], the
    header's [attr_size] is not 0, the model has
    [attrs.size / attr_size] more attributes at its end (the division
    rounds down), the first ID and the config of each of them are among
    those seen, and the header and the events are as before. *)
Theorem ReadAttrsSection_adds_one_attr_per_entry (s s' : State) :
  ReadAttrsSection E s = (Done tt, s') ->
  hdr_attr_size (header_ (this s)) <> 0
  /\ exists added : list PerfFileAttr,
       length added
       = Z.to_nat (sec_size (hdr_attrs (header_ (this s)))
                   / hdr_attr_size (header_ (this s)))
       /\ attrs_added added (this s) (this s').
Proof.
  unfold ReadAttrsSection. intros H. inv_get H.
  destruct (hdr_attr_size (header_ (this s)) =? 0) eqn:Hsize;
    [discriminate|].
  apply Z.eqb_neq in Hsize. split; [exact Hsize|].
  inv_bind H as n s1 Hdiv.
  unfold udiv in Hdiv. apply Z.eqb_neq in Hsize. rewrite Hsize in Hdiv.
  injection Hdiv as <- <-.
  inv_bind H as u s2 Hseek.
  pose proof (preserves_run _ _ _ _ _
                (keeps_this_SeekSet (this s) _) Hseek eq_refl) as H2.
  apply repeat_ReadAttr_added in H. now rewrite H2 in H.
Qed.

End AttrsSectionCount.

Lemma attrs_section_run :
  fst (Reader.ReadAttrsSection Reader.example_env Reader.state_before_attrs)
  = Done tt.
Proof. vm_compute. reflexivity. Qed.

Lemma ReadAttrsSection_count_witness :
  let s := Reader.state_before_attrs in
  let s' := snd (Reader.ReadAttrsSection Reader.example_env s) in
  Kernel.hdr_attr_size (Reader.header_ (Reader.this s)) <> 0
  /\ exists added : list Serializer.PerfFileAttr,
       length added
       = Z.to_nat (Kernel.sec_size
                     (Kernel.hdr_attrs (Reader.header_ (Reader.this s)))
                   / Kernel.hdr_attr_size (Reader.header_ (Reader.this s)))
       /\ Reader.attrs_added added (Reader.this s) (Reader.this s').
Proof.
  intros s s'. subst s' s.
  apply (ReadAttrsSection_adds_one_attr_per_entry Reader.example_env).
  rewrite (surjective_pairing (Reader.ReadAttrsSection _ _)) at 1.
  now rewrite attrs_section_run.
Defined.

(** ** The loop over the data section *)

Section DataSectionLoop.
Import Kernel Serializer Reader.
Variable E : Env.
Hypothesis StoreEvent_reads_forward :
  forall (event : event_t) (n : Z), reads_forward (StoreEvent E event n).
Hypothesis StoreEvent_returns :
  forall (event : event_t) (n : Z) (s : State),
    returns_normally (fst (StoreEvent E event n s)).

Lemma forward_bind {A B : Type} (c : M State A) (k : A -> M State B)
    (s : State) :
  offset (data s) <= data_size (data s) ->
  steps_forward c s ->
  (forall (a : A) (s' : State),
     c s = (Done a, s') ->
     offset (data s') <= data_size (data s') ->
     steps_forward (k a) s') ->
  steps_forward (bind c k) s.
Proof.
  intros Hin (Hret & Hbuf & Hoff) Hk. unfold steps_forward, bind in *.
  destruct (c s) as [[a| |x] s'] eqn:Hrun; cbn [fst snd] in *;
    [|auto|contradiction].
  assert (data_size (data s') = data_size (data s)) as Hsize
    by (unfold data_size; now rewrite Hbuf).
  destruct (Hk a s' eq_refl ltac:(lia)) as (Hret' & Hbuf' & Hoff').
  repeat split; [assumption|congruence|lia|lia].
Qed.

Lemma forward_same {A : Type} (c : M State A) (s : State) :
  offset (data s) <= data_size (data s) ->
  returns_normally (fst (c s)) -> snd (c s) = s -> steps_forward c s.
Proof.
  intros Hin Hret Hs. unfold steps_forward. rewrite Hs.
  repeat split; [assumption|lia|assumption].
Qed.

Lemma forward_get {B : Type} (k : State -> M State B) (s : State) :
  steps_forward (k s) s -> steps_forward (bind get k) s.
Proof. intros H. exact H. Qed.

Lemma forward_require (b : bool) (s : State) :
  offset (data s) <= data_size (data s) -> steps_forward (require b) s.
Proof. intros Hin. apply forward_same; [assumption| |]; now destruct b. Qed.

Lemma forward_failed {A : Type} (s : State) :
  offset (data s) <= data_size (data s) -> steps_forward (@failed _ A) s.
Proof. intros Hin. now apply forward_same. Qed.

Lemma forward_ReadData (n : Z) (s : State) :
  offset (data s) <= data_size (data s) -> steps_forward (ReadData n) s.
Proof.
  intros Hin. unfold steps_forward, ReadData.
  destruct ((0 <=? n) && (offset (data s) + n <=? data_size (data s)))
    eqn:Hfit; cbn [fst snd].
  - apply andb_true_iff in Hfit as [?%Z.leb_le ?%Z.leb_le].
    cbn [set_data data buffer offset]. repeat split; [lia|lia].
  - repeat split; [lia|assumption].
Qed.

Lemma forward_skip_record (header : perf_event_header) (s : State) :
  0 <= offset (data s) ->
  data_size (data s) < 2 ^ 64 ->
  sizeof_perf_event_header <= h_size header ->
  offset (data s) + (h_size header - sizeof_perf_event_header)
  <= data_size (data s) ->
  steps_forward (skip_record header) s.
Proof.
  intros Hoff Hsize Hmin Hfit.
  unfold steps_forward, skip_record, skip_forward, bind, get, Tell.
  unfold sizeof_perf_event_header in *. cbn [fst snd].
  rewrite (u64_small (h_size header - 8)) by lia.
  rewrite u64_small by lia. unfold SeekSet.
  replace ((0 <=? offset (data s) + (h_size header - 8))
           && (offset (data s) + (h_size header - 8) <=? data_size (data s)))
    with true
    by (symmetry; apply andb_true_iff; split; apply Z.leb_le; lia).
  unfold ret. cbn [fst snd set_data data buffer offset].
  split; [exact I|]. split; [reflexivity|lia].
Qed.

Lemma forward_StoreEvent (event : event_t) (n : Z) (s : State) :
  0 <= offset (data s) <= data_size (data s) ->
  steps_forward (StoreEvent E event n) s.
Proof.
  intros Hin. split; [apply StoreEvent_returns|].
  now apply StoreEvent_reads_forward.
Qed.

Lemma forward_ReadNonHeaderEventDataWithoutHeader
    (header : perf_event_header) (s : State) :
  0 <= offset (data s) ->
  data_size (data s) < 2 ^ 64 ->
  sizeof_perf_event_header <= h_size header ->
  offset (data s) + (h_size header - sizeof_perf_event_header)
  <= data_size (data s) ->
  steps_forward (ReadNonHeaderEventDataWithoutHeader E header) s.
Proof.
  intros Hoff Hsize Hmin Hfit.
  assert (offset (data s) <= data_size (data s)) as Hin
    by (unfold sizeof_perf_event_header in *; lia).
  unfold ReadNonHeaderEventDataWithoutHeader.
  destruct (_ && _); [now apply forward_skip_record|].
  apply forward_get.
  apply forward_bind; [assumption|now apply forward_require|].
  intros ? s1 Hreq Hin1.
  apply require_Done in Hreq as [_ ->].
  destruct (GetEventDataFixedPayloadSize E (h_type header)) as [fixed|];
    [|now apply forward_failed].
  apply forward_bind; [assumption|now apply forward_require|].
  intros ? s1 Hreq _.
  apply require_Done in Hreq as [_ ->].
  destruct (IsProcMapTimeoutMmap _ _); [now apply forward_skip_record|].
  apply forward_bind; [assumption|now apply forward_ReadData|].
  intros bytes s2 Hread Hin2.
  assert (0 <= offset (data s2)) as Hoff2.
  { apply ReadData_Done in Hread as [_ ->].
    unfold ReadData in *. cbn [advance set_data data offset].
    pose proof (u64_range (h_size header - sizeof_perf_event_header)). lia. }
  apply forward_bind; [assumption|now apply forward_require|].
  intros ? s3 Hreq _.
  apply require_Done in Hreq as [_ ->].
  destruct (GetEventDataVariablePayloadSize E _ _) as [variable|];
    [|now apply forward_failed].
  apply forward_bind; [assumption|now apply forward_require|].
  intros ? s3 Hreq' _.
  apply require_Done in Hreq' as [_ ->].
  apply forward_bind; [assumption|now apply forward_require|].
  intros ? s3 Hreq'' _.
  apply require_Done in Hreq'' as [_ ->].
  apply forward_StoreEvent. lia.
Qed.

Lemma ReadDataSection_loop_returns (fuel : nat) (remaining : Z) (s : State) :
  0 <= offset (data s) <= data_size (data s) ->
  data_size (data s) < 2 ^ 64 ->
  data_size (data s) - offset (data s) < 8 * Z.of_nat fuel ->
  returns_normally (fst (ReadDataSection_loop E fuel remaining s)).
Proof.
  revert remaining s.
  induction fuel as [|fuel IH]; intros remaining s Hin Hsize Hfuel; [lia|].
  cbn [ReadDataSection_loop]. destruct (remaining =? 0); [exact I|].
  unfold bind at 1.
  destruct (ReadPerfEventHeader s) as [[header| |x] s1] eqn:Hheader;
    cbn [fst snd]; [|exact I|].
  - apply ReadPerfEventHeader_Done in Hheader as (-> & Hmin & Hfit).
    destruct (forward_ReadNonHeaderEventDataWithoutHeader header
                (advance sizeof_perf_event_header s))
      as (Hret & Hbuf & Hoff).
    + cbn. unfold sizeof_perf_event_header. lia.
    + exact Hsize.
    + exact Hmin.
    + unfold data_size in *. cbn [advance set_data data buffer offset]. lia.
    + unfold bind.
      destruct (ReadNonHeaderEventDataWithoutHeader E header _)
        as [[read_size| |x] s2]; cbn [fst snd] in *; [|exact I|exact Hret].
      unfold data_size, sizeof_perf_event_header in *.
      cbn [advance set_data data buffer offset] in *.
      apply IH; unfold data_size; rewrite ?Hbuf; lia.
  - exfalso. revert Hheader. unfold ReadPerfEventHeader, bind, ReadData.
    destruct (_ && _); [|discriminate]. cbn [fst snd get].
    unfold require. destruct (negb _); [|discriminate].
    cbn [fst snd]. destruct (negb _); discriminate.
Qed.

(** [ReadDataSection] comes to a [return]: its loop ends, because every
    turn consumes at least the 8 bytes of a record header and the rest
    of the turn does not move the cursor back.  This needs that what
    stores an event reads forward and returns, and an input shorter than
    2^64 bytes. *)
Theorem ReadDataSection_loop_ends (s : State) :
  data_size (data s) < 2 ^ 64 ->
  returns_normally (fst (ReadDataSection E s)).
Proof.
  intros Hsize. unfold ReadDataSection.
  rewrite (bind_step get _ s s s eq_refl). unfold bind, SeekSet.
  destruct ((0 <=? _) && (_ <=? _)) eqn:Hseek; cbn [fst snd]; [|exact I].
  apply andb_true_iff in Hseek as [?%Z.leb_le ?%Z.leb_le].
  apply ReadDataSection_loop_returns;
    unfold data_size in *; cbn [set_data data buffer offset]; lia.
Qed.

End DataSectionLoop.

Lemma ReadDataSection_loop_ends_witness :
  returns_normally
    (fst (Reader.ReadDataSection Reader.example_env Reader.state_before_data)).
Proof.
  apply (ReadDataSection_loop_ends Reader.example_env).
  - intros event n s Hin. cbn. split; [reflexivity|lia].
  - intros event n s. exact I.
  - vm_compute. reflexivity.
Defined.

(** ** The event types section *)

Section EventTypes.
Import Kernel Serializer Reader.

Lemma keeps_this_ReadData (r : PerfReader) (n : Z) :
  preserves (fun s => this s = r) (ReadData n).
Proof. apply blind_ReadData, this_blind. Qed.

Lemma keeps_this_ReadUint (r : PerfReader) (n : nat) :
  preserves (fun s => this s = r) (ReadUint n).
Proof. apply blind_ReadUint, this_blind. Qed.

Lemma ReadEventType_Done (i : nat) (event_size : Z) (s s' : State) :
  ReadEventType i event_size s = (Done tt, s') ->
  exists (fa : PerfFileAttr) (name : list Z),
    nth_error (file_attrs (proto_ (this s))) i = Some fa
    /\ event_types (proto_ (this s'))
       = event_types (proto_ (this s))
         ++ [{| et_id := attr_config (attr fa); et_name := name |}]
    /\ file_attrs (proto_ (this s')) = file_attrs (proto_ (this s)).
Proof.
  unfold ReadEventType, ReadUint64, ReadString. intros H.
  inv_bind H as event_id s1 Hid.
  pose proof (preserves_run _ _ _ _ _
                (keeps_this_ReadUint (this s) _) Hid eq_refl) as H1.
  inv_bind H as name s2 Hname.
  inv_bind Hname as bs s3 Hbs. injection Hname as <- <-.
  pose proof (preserves_run _ _ _ _ _
                (keeps_this_ReadData (this s) _) Hbs H1) as H2.
  inv_get H. rewrite H2 in H.
  destruct (nth_error (file_attrs (proto_ (this s))) i) as [fa|];
    [|discriminate].
  inv_require H as Hconfig. apply modify_Done in H as ->.
  exists fa, (until_nul bs). cbn. rewrite H2. auto.
Qed.

Lemma ReadEventTypes_from_Done (n i : nat) (s s' : State) :
  ReadEventTypes_from i n s = (Done tt, s') ->
  exists new : list PerfEventType,
    event_types (proto_ (this s')) = event_types (proto_ (this s)) ++ new
    /\ file_attrs (proto_ (this s')) = file_attrs (proto_ (this s))
    /\ map et_id new
       = map (fun fa => attr_config (attr fa))
           (take n (drop i (file_attrs (proto_ (this s))))).
Proof.
  revert i s. induction n as [|n IH]; intros i s H; cbn [ReadEventTypes_from] in H.
  - injection H as <-. exists []. rewrite app_nil_r. auto.
  - inv_bind H as u s1 H1. destruct u.
    apply ReadEventType_Done in H1 as (fa & name & Hnth & Hty & Hattrs).
    apply IH in H as (new & Hty' & Hattrs' & Hids).
    exists ({| et_id := attr_config (attr fa); et_name := name |} :: new).
    rewrite Hty', Hty, Hattrs', Hattrs, <- app_assoc.
    split; [reflexivity|]. split; [reflexivity|].
    rewrite Hattrs in Hids. cbn [map]. rewrite Hids.
    apply nth_error_split in Hnth as (l1 & l2 & Hsplit & Hlen).
    rewrite Hsplit. rewrite <- Hlen.
    rewrite drop_app_length.
    replace (S (length l1)) with (length (l1 ++ [fa]))
      by (rewrite length_app; cbn; lia).
    rewrite (cons_middle fa l1 l2), app_assoc, drop_app_length.
    reflexivity.
Qed.

(** The event types that [ReadEventTypesSection] reads pair up with the
    attributes.  When it returns [true], the attributes are as they
    were, and either the section was absent and nothing was added, or
    the model has as many more event types as it has attributes, and the
    ID of the i-th of them is the config of the i-th attribute. *)
Theorem ReadEventTypesSection_ids_are_attr_configs (s s' : State) :
  ReadEventTypesSection s = (Done tt, s') ->
  file_attrs (proto_ (this s')) = file_attrs (proto_ (this s))
  /\ exists new : list PerfEventType,
       event_types (proto_ (this s')) = event_types (proto_ (this s)) ++ new
       /\ (new = []
           \/ map et_id new
              = map (fun fa => attr_config (attr fa))
                  (file_attrs (proto_ (this s)))).
Proof.
  unfold ReadEventTypesSection. intros H. inv_get H.
  destruct (_ =? 0).
  - injection H as <-. split; [reflexivity|].
    exists []. rewrite app_nil_r. auto.
  - inv_require H as Hcount. inv_require H as Hsize.
    inv_bind H as u s1 Hseek.
    pose proof (preserves_run _ _ _ _ _
                  (keeps_this_SeekSet (this s) _) Hseek eq_refl) as H1.
    apply ReadEventTypes_from_Done in H as (new & Hty & Hattrs & Hids).
    rewrite H1 in *. split; [exact Hattrs|].
    exists new. split; [exact Hty|]. right.
    apply Z.eqb_eq in Hcount. rewrite <- Hcount, Nat2Z.id in Hids.
    now rewrite drop_0, take_ge in Hids by lia.
Qed.

End EventTypes.

Lemma event_types_section_run :
  fst (Reader.ReadEventTypesSection Reader.state_before_event_types)
  = Done tt.
Proof. vm_compute. reflexivity. Qed.

Lemma ReadEventTypesSection_witness :
  let s := Reader.state_before_event_types in
  let s' := snd (Reader.ReadEventTypesSection s) in
  Reader.file_attrs (Reader.proto_ (Reader.this s'))
  = Reader.file_attrs (Reader.proto_ (Reader.this s))
  /\ exists new : list Reader.PerfEventType,
       Reader.event_types (Reader.proto_ (Reader.this s'))
       = Reader.event_types (Reader.proto_ (Reader.this s)) ++ new
       /\ (new = []
           \/ map Reader.et_id new
              = map (fun fa => Serializer.attr_config (Serializer.attr fa))
                  (Reader.file_attrs (Reader.proto_ (Reader.this s)))).
Proof.
  intros s s'. subst s' s.
  apply ReadEventTypesSection_ids_are_attr_configs.
  rewrite (surjective_pairing (Reader.ReadEventTypesSection _)) at 1.
  now rewrite event_types_section_run.
Defined.

(** ** A reader made from a protobuf *)

Section FromProto.
Import Kernel Serializer Reader.
Variables (E : Env) (W : WriterEnv).

Lemma CreateSampleInfoReader_finds (F : SampleFormat) (s : PerfSerializer)
    (fa : PerfFileAttr) (id : Z) :
  id <> 0 ->
  GetSampleInfoReaderForId (snd (CreateSampleInfoReader F s fa)) id
  = if existsb (Z.eqb id) (ids fa) then Some (attr fa)
    else GetSampleInfoReaderForId s id.
Proof.
  intros Hid. apply Z.eqb_neq in Hid.
  unfold GetSampleInfoReaderForId, CreateSampleInfoReader.
  rewrite Hid. cbn [negb].
  rewrite UpdateEventIdPositions_keeps_map. cbn [sample_info_reader_map_].
  rewrite reader_map_find_fold.
  destruct (ids fa) as [|i0 l]; [|reflexivity].
  cbn [existsb orb]. now rewrite Hid.
Qed.

Lemma UpdateEventIdPositions_true (F : SampleFormat) (s s' : PerfSerializer)
    (a : perf_event_attr) :
  UpdateEventIdPositions F s a = (true, s') ->
  sample_event_id_pos_ s' = new_sample_event_id_pos F (sample_type a)
  /\ other_event_id_pos_ s' = new_other_event_id_pos F (sample_type a).
Proof.
  unfold UpdateEventIdPositions.
  destruct (sample_event_id_pos_ s =? Uninitialized) eqn:Hs.
  - cbn [other_event_id_pos_ sample_event_id_pos_ sample_info_reader_map_].
    destruct (other_event_id_pos_ s =? Uninitialized).
    + intros [= <-]. cbn. auto.
    + destruct (negb _) eqn:Ho; [discriminate|].
      apply negb_false_iff, Z.eqb_eq in Ho. intros [= <-]. cbn. auto.
  - destruct (negb _) eqn:Hn; [discriminate|].
    apply negb_false_iff, Z.eqb_eq in Hn.
    destruct (other_event_id_pos_ s =? Uninitialized).
    + intros [= <-]. cbn. auto.
    + destruct (negb _) eqn:Ho; [discriminate|].
      apply negb_false_iff, Z.eqb_eq in Ho. intros [= <-]. auto.
Qed.

Lemma CreateSampleInfoReader_true (F : SampleFormat) (s : PerfSerializer)
    (fa : PerfFileAttr) :
  fst (CreateSampleInfoReader F s fa) = true ->
  sample_event_id_pos_ (snd (CreateSampleInfoReader F s fa))
  = new_sample_event_id_pos F (sample_type (attr fa))
  /\ other_event_id_pos_ (snd (CreateSampleInfoReader F s fa))
     = new_other_event_id_pos F (sample_type (attr fa)).
Proof.
  unfold CreateSampleInfoReader. intros H.
  match goal with
  | |- context [UpdateEventIdPositions F ?s0 ?a] =>
      apply (UpdateEventIdPositions_true F s0 _ a)
  end.
  rewrite <- H. apply surjective_pairing.
Qed.

Lemma new_positions_initialized (F : SampleFormat) (st : Z) :
  new_sample_event_id_pos F st <> Uninitialized
  /\ new_other_event_id_pos F st <> Uninitialized.
Proof.
  unfold new_sample_event_id_pos, new_other_event_id_pos, incr_if,
    Uninitialized, NotPresent.
  repeat match goal with
         | |- context [if ?b then _ else _] => destruct b
         end; split; lia.
Qed.

Lemma UpdateEventIdPositions_keeps (F : SampleFormat) (s s' : PerfSerializer)
    (a : perf_event_attr) :
  UpdateEventIdPositions F s a = (true, s') ->
  (sample_event_id_pos_ s <> Uninitialized ->
   sample_event_id_pos_ s' = sample_event_id_pos_ s)
  /\ (other_event_id_pos_ s <> Uninitialized ->
      other_event_id_pos_ s' = other_event_id_pos_ s).
Proof.
  unfold UpdateEventIdPositions.
  destruct (sample_event_id_pos_ s =? Uninitialized) eqn:Hs.
  - apply Z.eqb_eq in Hs.
    cbn [other_event_id_pos_ sample_event_id_pos_ sample_info_reader_map_].
    destruct (other_event_id_pos_ s =? Uninitialized) eqn:Ho'.
    + apply Z.eqb_eq in Ho'. intros [= <-]. cbn. split; congruence.
    + destruct (negb _) eqn:Ho; [discriminate|].
      apply negb_false_iff, Z.eqb_eq in Ho. intros [= <-]. cbn.
      split; congruence.
  - destruct (negb _) eqn:Hn; [discriminate|].
    destruct (other_event_id_pos_ s =? Uninitialized) eqn:Ho'.
    + apply Z.eqb_eq in Ho'. intros H. inversion H. cbn. split; congruence.
    + destruct (negb (new_other_event_id_pos _ _ =? _)); [discriminate|].
      intros H. inversion H. subst. auto.
Qed.

Lemma CreateSampleInfoReaders_true (F : SampleFormat)
    (attrs : list PerfFileAttr) (s s' : PerfSerializer) :
  CreateSampleInfoReaders F attrs s = (true, s') ->
  (forall (fa : PerfFileAttr) (id : Z),
     In fa attrs -> In id (ids fa) -> id <> 0 ->
     exists fa' : PerfFileAttr,
       In fa' attrs /\ In id (ids fa')
       /\ GetSampleInfoReaderForId s' id = Some (attr fa'))
  /\ (forall id : Z,
        id <> 0 -> (forall fa, In fa attrs -> ~ In id (ids fa)) ->
        GetSampleInfoReaderForId s' id = GetSampleInfoReaderForId s id)
  /\ (forall fa : PerfFileAttr,
        In fa attrs ->
        sample_event_id_pos_ s'
        = new_sample_event_id_pos F (sample_type (attr fa))
        /\ other_event_id_pos_ s'
           = new_other_event_id_pos F (sample_type (attr fa)))
  /\ (sample_event_id_pos_ s <> Uninitialized ->
      sample_event_id_pos_ s' = sample_event_id_pos_ s)
  /\ (other_event_id_pos_ s <> Uninitialized ->
      other_event_id_pos_ s' = other_event_id_pos_ s).
Proof.
  revert s. induction attrs as [|fa0 rest IH]; intros s H;
    cbn [CreateSampleInfoReaders] in H.
  - injection H as <-. repeat split; try contradiction; auto.
  - destruct (fst (CreateSampleInfoReader F s fa0)) eqn:Hok; [|discriminate].
    destruct (CreateSampleInfoReader_true F s fa0 Hok) as [Hs0 Ho0].
    assert (UpdateEventIdPositions F
              {| sample_info_reader_map_ :=
                   fold_left (fun m id => reader_map_set id (attr fa0) m)
                     (match ids fa0 with [] => [0] | _ => ids fa0 end)
                     (sample_info_reader_map_ s);
                 sample_event_id_pos_ := sample_event_id_pos_ s;
                 other_event_id_pos_ := other_event_id_pos_ s |} (attr fa0)
            = (true, snd (CreateSampleInfoReader F s fa0))) as Hup.
    { unfold CreateSampleInfoReader in *. rewrite <- Hok.
      apply surjective_pairing. }
    apply UpdateEventIdPositions_keeps in Hup as [Hks Hko].
    cbn [sample_event_id_pos_ other_event_id_pos_] in Hks, Hko.
    destruct (new_positions_initialized F (sample_type (attr fa0)))
      as [Hsi Hoi].
    apply IH in H as (Hfind & Hother & Hpos & Hkeeps & Hkeepo).
    rewrite Hs0 in Hkeeps. rewrite Ho0 in Hkeepo.
    specialize (Hkeeps Hsi). specialize (Hkeepo Hoi).
    split; [|split; [|split; [|split]]].
    + intros fa id Hfa Hid Hnz.
      destruct (in_dec Z.eq_dec id (flat_map ids rest)) as [Hin|Hout].
      * apply in_flat_map in Hin as (fa1 & Hfa1 & Hid1).
        destruct (Hfind fa1 id Hfa1 Hid1 Hnz) as (fa' & Hfa' & Hid' & Hget).
        exists fa'. split; [now right|]. auto.
      * assert (forall fa1, In fa1 rest -> ~ In id (ids fa1)) as Hnone.
        { intros fa1 Hfa1 Hid1. apply Hout, in_flat_map. eauto. }
        destruct Hfa as [<-|Hfa]; [|now destruct (Hnone fa Hfa)].
        exists fa0. split; [now left|]. split; [exact Hid|].
        rewrite (Hother id Hnz Hnone), CreateSampleInfoReader_finds by exact Hnz.
        replace (existsb (Z.eqb id) (ids fa0)) with true; [reflexivity|].
        symmetry. apply existsb_exists. exists id.
        split; [exact Hid|apply Z.eqb_refl].
    + intros id Hnz Hnone.
      rewrite Hother by (try assumption; intros fa1 Hfa1; apply Hnone; now right).
      rewrite CreateSampleInfoReader_finds by exact Hnz.
      replace (existsb (Z.eqb id) (ids fa0)) with false; [reflexivity|].
      symmetry. apply not_true_iff_false. intros Hex.
      apply existsb_exists in Hex as (x & Hx & ->%Z.eqb_eq).
      exact (Hnone fa0 (or_introl eq_refl) Hx).
    + intros fa [<-|Hfa]; [|now apply Hpos]. split; congruence.
    + intros Hinit. rewrite Hkeeps, <- Hs0. now apply Hks.
    + intros Hinit. rewrite Hkeepo, <- Ho0. now apply Hko.
Qed.

Lemma PopulateMissingEventSize_loop_true (sz : PerfSerializer)
    (evs : list PerfEvent) :
  fst (PopulateMissingEventSize_loop W sz evs) = true ->
  Forall2 (size_filled_in W sz) evs
    (snd (PopulateMissingEventSize_loop W sz evs)).
Proof.
  induction evs as [|ev rest IH]; cbn [PopulateMissingEventSize_loop];
    [constructor|].
  destruct (h_size (ev_header ev) >? 0) eqn:Hsize; cbn [fst snd].
  - intros H. constructor; [|now apply IH].
    unfold size_filled_in. now rewrite Hsize.
  - destruct (GetEventSize W sz ev =? 0) eqn:Hzero; cbn [fst snd];
      [discriminate|].
    intros H. constructor; [|now apply IH].
    unfold size_filled_in. rewrite Hsize. apply Z.eqb_neq in Hzero. auto.
Qed.

Lemma PopulateMissingEventSize_loop_false (sz : PerfSerializer)
    (evs : list PerfEvent) :
  fst (PopulateMissingEventSize_loop W sz evs) = false <->
  Exists (fun ev => h_size (ev_header ev) <= 0 /\ GetEventSize W sz ev = 0)
    evs.
Proof.
  induction evs as [|ev rest IH]; cbn [PopulateMissingEventSize_loop].
  - split; [discriminate|]. intros H. inversion H.
  - destruct (h_size (ev_header ev) >? 0) eqn:Hsize; cbn [fst snd].
    + rewrite Z.gtb_ltb in Hsize. apply Z.ltb_lt in Hsize.
      rewrite IH. split; [now constructor 2|].
      intros H. inversion H as [? ? [Hle _]|]; [lia|assumption].
    + rewrite Z.gtb_ltb in Hsize. apply Z.ltb_ge in Hsize.
      destruct (GetEventSize W sz ev =? 0) eqn:Hzero; cbn [fst snd].
      * apply Z.eqb_eq in Hzero. split; [|reflexivity].
        intros _. constructor. auto.
      * apply Z.eqb_neq in Hzero. rewrite IH.
        split; [now constructor 2|].
        intros H. inversion H as [? ? [_ Hz]|]; [contradiction|assumption].
Qed.

(** [PopulateMissingEventSize] fills in the sizes that are missing and
    nothing else.  It returns [false] exactly when some event without a
    size has no size according to [GetEventSize].  When it returns
    [true], there are as many events as before, in the same order; an
    event that had a size is as it was, and an event that had none has
    the size [GetEventSize] gives, cut to 32 bits, and is otherwise as it
    was.  Nothing but the events is touched. *)
Theorem PopulateMissingEventSize_fills_missing_sizes (r : PerfReader) :
  (fst (PopulateMissingEventSize W r) = Failed <->
   Exists (fun ev => h_size (ev_header ev) <= 0
                     /\ GetEventSize W (serializer_ r) ev = 0)
     (events (proto_ r)))
  /\ (fst (PopulateMissingEventSize W r) = Done tt ->
      Forall2 (size_filled_in W (serializer_ r)) (events (proto_ r))
        (events (proto_ (snd (PopulateMissingEventSize W r)))))
  /\ snd (PopulateMissingEventSize W r)
     = set_proto
         (set_events (events (proto_ (snd (PopulateMissingEventSize W r)))))
         r.
Proof.
  unfold PopulateMissingEventSize. cbn [fst snd].
  split; [|split].
  - rewrite <- PopulateMissingEventSize_loop_false.
    destruct (fst (PopulateMissingEventSize_loop _ _ _));
      split; intros; congruence.
  - destruct (fst (PopulateMissingEventSize_loop _ _ _)) eqn:Hok;
      [|discriminate].
    intros _. now apply PopulateMissingEventSize_loop_true.
  - reflexivity.
Qed.

(** [Deserialize] registers the attributes of the protobuf.  When it
    returns [true], the model has the attributes of the protobuf; every
    ID but 0 of every attribute has a sample info reader, made from an
    attribute that lists the ID; all the attributes put the event ID at
    the same place in a sample and in the other records, the place the
    serializer has noted; and the events are those of the protobuf with
    the missing sizes filled in. *)
Theorem Deserialize_registers_the_attributes
    (perf_data_proto : PerfDataProto) (r r' : PerfReader) :
  Deserialize E W perf_data_proto r = (Done tt, r') ->
  file_attrs (proto_ r') = file_attrs perf_data_proto
  /\ (forall (fa : PerfFileAttr) (id : Z),
        In fa (file_attrs perf_data_proto) -> In id (ids fa) -> id <> 0 ->
        exists fa' : PerfFileAttr,
          In fa' (file_attrs perf_data_proto) /\ In id (ids fa')
          /\ GetSampleInfoReaderForId (serializer_ r') id = Some (attr fa'))
  /\ (forall fa : PerfFileAttr,
        In fa (file_attrs perf_data_proto) ->
        sample_event_id_pos_ (serializer_ r')
        = new_sample_event_id_pos (sample_format E) (sample_type (attr fa))
        /\ other_event_id_pos_ (serializer_ r')
           = new_other_event_id_pos (sample_format E)
               (sample_type (attr fa)))
  /\ Forall2 (size_filled_in W (serializer_ r')) (events perf_data_proto)
       (events (proto_ r')).
Proof.
  unfold Deserialize. intros H.
  inv_bind H as u1 r1 H1. apply modify_Done in H1 as ->.
  inv_get H. inv_bind H as u2 r2 H2. apply modify_Done in H2 as ->.
  inv_require H as Hcreated.
  cbn [set_proto proto_ serializer_ set_serializer] in *.
  destruct (CreateSampleInfoReaders (sample_format E)
              (file_attrs perf_data_proto) (serializer_ r))
    as [ok sz] eqn:Hrun.
  cbn [fst snd] in *. subst ok.
  apply CreateSampleInfoReaders_true in Hrun as (Hfind & _ & Hpos & _).
  unfold PopulateMissingEventSize in H.
  cbn [set_proto proto_ serializer_ set_serializer] in H.
  destruct (fst (PopulateMissingEventSize_loop W sz (events perf_data_proto)))
    eqn:Hok; [|discriminate].
  injection H as <-. cbn. repeat split; try assumption.
  - apply Hpos; assumption.
  - apply Hpos; assumption.
  - now apply PopulateMissingEventSize_loop_true.
Qed.

End FromProto.

Lemma Deserialize_run :
  fst (Reader.Deserialize Reader.example_env Reader.sizing_writer_env
         Reader.proto_with_two_attrs Reader.new_reader)
  = Done tt.
Proof. vm_compute. reflexivity. Qed.

Lemma Deserialize_witness :
  let E := Reader.example_env in
  let W := Reader.sizing_writer_env in
  let p := Reader.proto_with_two_attrs in
  let r' := snd (Reader.Deserialize E W p Reader.new_reader) in
  Reader.file_attrs (Reader.proto_ r') = Reader.file_attrs p
  /\ (forall (fa : Serializer.PerfFileAttr) (id : Z),
        In fa (Reader.file_attrs p) -> In id (Serializer.ids fa) ->
        id <> 0 ->
        exists fa' : Serializer.PerfFileAttr,
          In fa' (Reader.file_attrs p) /\ In id (Serializer.ids fa')
          /\ Serializer.GetSampleInfoReaderForId (Reader.serializer_ r') id
             = Some (Serializer.attr fa'))
  /\ (forall fa : Serializer.PerfFileAttr,
        In fa (Reader.file_attrs p) ->
        Serializer.sample_event_id_pos_ (Reader.serializer_ r')
        = Serializer.new_sample_event_id_pos (Reader.sample_format E)
            (Serializer.sample_type (Serializer.attr fa))
        /\ Serializer.other_event_id_pos_ (Reader.serializer_ r')
           = Serializer.new_other_event_id_pos (Reader.sample_format E)
               (Serializer.sample_type (Serializer.attr fa)))
  /\ Forall2 (Reader.size_filled_in W (Reader.serializer_ r'))
       (Reader.events p) (Reader.events (Reader.proto_ r')).
Proof.
  intros E W p r'. subst r' p W E.
  apply (Deserialize_registers_the_attributes _ _ _ Reader.new_reader).
  rewrite (surjective_pairing (Reader.Deserialize _ _ _ _)) at 1.
  now rewrite Deserialize_run.
Defined.

(** ** The section table of the file header *)

Section SectionTable.
Import Kernel Reader.

Lemma ReadPerfFileSection_within (s s' : State) (sec : perf_file_section) :
  ReadPerfFileSection s = (Done sec, s') ->
  s' = advance sizeof_perf_file_section s
  /\ sec_offset sec <= data_size (data s)
  /\ sec_size sec <= data_size (data s) - sec_offset sec.
Proof.
  unfold ReadPerfFileSection. intros H.
  inv_bind H as bs s1 Hrd. apply ReadData_Done in Hrd as [_ ->].
  inv_get H. inv_require H as H1. inv_require H as H2.
  injection H as <- <-.
  rewrite Z.gtb_ltb in H1, H2.
  apply negb_true_iff, Z.ltb_ge in H1. apply negb_true_iff, Z.ltb_ge in H2.
  auto.
Qed.

(** [ReadHeader] accepts a file header only when the three sections it
    names lie in the input.  When it returns [true] for a header that is
    not a pipe header, the attrs, the data and the event types section
    each start at or before the end of the input and end there or
    before; the input itself is unchanged. *)
Theorem ReadHeader_sections_lie_in_the_input (s s' : State) :
  ReadHeader s = (Done tt, s') ->
  hdr_size (header_ (this s')) <> sizeof_perf_pipe_file_header ->
  buffer (data s') = buffer (data s)
  /\ Forall (fun sec => sec_offset sec <= data_size (data s')
                        /\ sec_offset sec + sec_size sec
                           <= data_size (data s'))
       [hdr_attrs (header_ (this s')); hdr_data (header_ (this s'));
        hdr_event_types (header_ (this s'))].
Proof.
  unfold ReadHeader. intros H Hpipe.
  inv_get H. inv_CHECK H as Htell.
  inv_bind H as magic s1 Hmagic.
  apply ReadUint_Done in Hmagic as [-> _].
  inv_bind H as u1 s2 H2. apply modify_Done in H2 as ->.
  inv_require H as Hok.
  inv_bind H as u3 s3 H3. apply modify_Done in H3 as ->.
  inv_bind H as size s4 Hsize.
  apply ReadUint_Done in Hsize as [-> _].
  inv_bind H as u5 s5 H5. apply modify_Done in H5 as ->.
  inv_get H. inv_CHECK H as Htell2.
  destruct (size =? sizeof_perf_pipe_file_header) eqn:Hsz.
  - injection H as <-. exfalso. apply Hpipe. cbn. now apply Z.eqb_eq.
  - inv_bind H as attr_size s6 Hattr.
    apply ReadUint_Done in Hattr as [-> _].
    inv_bind H as attrs s7 H7.
    apply ReadPerfFileSection_within in H7 as (-> & Ha1 & Ha2).
    inv_bind H as data_section s8 H8.
    apply ReadPerfFileSection_within in H8 as (-> & Hd1 & Hd2).
    inv_bind H as event_types_section s9 H9.
    apply ReadPerfFileSection_within in H9 as (-> & He1 & He2).
    inv_get H. inv_CHECK H as Htell3.
    inv_bind H as fb s10 Hfb. apply ReadData_Done in Hfb as [_ ->].
    apply modify_Done in H as ->.
    unfold data_size in *. cbn in *.
    split; [reflexivity|]. repeat constructor; lia.
Qed.

End SectionTable.

Lemma ReadHeader_of_generated_header_run :
  fst (Reader.ReadHeader
         {| Reader.this := Reader.new_reader;
            Reader.data :=
              Reader.BufferReader
                (Reader.encode_perf_file_header
                   (Reader.GenerateHeader Reader.example_env
                      Reader.example_writer_env Reader.reader_with_one_event)
                 ++ repeat 0 200) |})
  = Done tt.
Proof. vm_compute. reflexivity. Qed.

Lemma ReadHeader_sections_witness :
  let bytes :=
    Reader.encode_perf_file_header
      (Reader.GenerateHeader Reader.example_env Reader.example_writer_env
         Reader.reader_with_one_event)
    ++ repeat 0 200 in
  let s := {| Reader.this := Reader.new_reader;
              Reader.data := Reader.BufferReader bytes |} in
  let s' := snd (Reader.ReadHeader s) in
  Reader.buffer (Reader.data s') = Reader.buffer (Reader.data s)
  /\ Forall (fun sec => Kernel.sec_offset sec
                        <= Reader.data_size (Reader.data s')
                        /\ Kernel.sec_offset sec + Kernel.sec_size sec
                           <= Reader.data_size (Reader.data s'))
       [Kernel.hdr_attrs (Reader.header_ (Reader.this s'));
        Kernel.hdr_data (Reader.header_ (Reader.this s'));
        Kernel.hdr_event_types (Reader.header_ (Reader.this s'))].
Proof.
  intros bytes s s'. subst s' s bytes.
  apply ReadHeader_sections_lie_in_the_input.
  - rewrite (surjective_pairing (Reader.ReadHeader _)) at 1.
    now rewrite ReadHeader_of_generated_header_run.
  - vm_compute. discriminate.
Defined.

(** ** The IDs of the attributes, written and read *)

Section IdSections.
Import Kernel Serializer Reader.

Lemma ReadUniqueIDs_ok (n : nat) (s : State) :
  0 <= offset (data s) ->
  offset (data s) + 8 * Z.of_nat n <= data_size (data s) ->
  ReadUniqueIDs n s
  = (Done (decode_uints 8 (is_cross_endian (data s)) n (rest_of_input s)),
     advance (8 * Z.of_nat n) s).
Proof.
  revert s. induction n as [|n IH]; intros s Hoff Hfit.
  - cbn [ReadUniqueIDs decode_uints]. unfold ret.
    now rewrite Z.mul_0_r, advance_zero.
  - cbn [ReadUniqueIDs decode_uints]. unfold ReadUint64.
    rewrite (bind_step _ _ _ _ _ (ReadUint_ok 8 s ltac:(lia))).
    rewrite (bind_step _ _ _ _ _
               (IH (advance (Z.of_nat 8) s) ltac:(cbn; lia)
                  ltac:(unfold data_size in *; cbn; lia))).
    unfold ret. rewrite advance_advance, rest_of_input_advance by assumption.
    cbn [advance set_data data is_cross_endian]. do 2 f_equal. lia.
Qed.

Lemma concat_le_encode_length (l : list Z) :
  Z.of_nat (length (flat_map (le_encode 8) l)) = 8 * Z.of_nat (length l).
Proof. apply (length_flat_map_le_encode 8). Qed.

Lemma take_nat_eq (n : Z) (l : list Z) :
  0 <= n <= Z.of_nat (length l) -> length (take (Z.to_nat n) l) = Z.to_nat n.
Proof. intros H. rewrite length_take. lia. Qed.

(** The values written by [WriteValues] follow what the buffer held
    before the cursor. *)
Lemma WriteValues_prefix (values : list (list Z)) (w w' : DataWriter) :
  0 <= w_offset w <= writer_size w ->
  WriteValues values w = (Done tt, w') ->
  w_offset w' = w_offset w + Z.of_nat (length (concat values))
  /\ w_offset w' <= writer_size w'
  /\ writer_size w' = writer_size w
  /\ take (Z.to_nat (w_offset w')) (w_buffer w')
     = take (Z.to_nat (w_offset w)) (w_buffer w) ++ concat values.
Proof.
  revert w. induction values as [|v rest IH]; intros w Hoff H;
    cbn [WriteValues concat] in *.
  - injection H as <-. rewrite app_nil_r. cbn [length].
    repeat split; lia.
  - inv_bind H as u w1 H1. apply WriteDataValue_Done in H1 as [Hfit ->].
    unfold writer_size in *.
    set (o := w_offset w) in *. set (buf := w_buffer w) in *.
    assert (length (take (Z.to_nat o) buf) = Z.to_nat o) as Hpre
      by (apply take_nat_eq; lia).
    assert (Z.of_nat (length (take (Z.to_nat o) buf ++ v
                               ++ drop (Z.to_nat (o + Z.of_nat (length v)))
                                    buf))
            = Z.of_nat (length buf)) as Hlen1
      by (rewrite !length_app, Hpre, length_drop; lia).
    apply IH in H as (Hoff' & Hin' & Hsize' & Htake);
      cbn [w_offset w_buffer] in *; [|lia].
    rewrite length_app. repeat split; [lia|lia|lia|].
    rewrite Htake.
    rewrite (app_assoc (take (Z.to_nat o) buf) v (concat rest)). f_equal.
    rewrite (app_assoc (take (Z.to_nat o) buf) v).
    apply take_app_length'. rewrite length_app, Hpre. lia.
Qed.

Lemma concat_map_le_encode (l : list Z) :
  concat (map (le_encode 8) l) = flat_map (le_encode 8) l.
Proof. symmetry. apply flat_map_concat_map. Qed.

(** What [WriteIdSections] records and writes: each section starts where
    the IDs of its attribute were written, has their size, and the final
    buffer holds there the IDs, one after the other. *)
Lemma WriteIdSections_content (attrs : list PerfFileAttr) (w w' : DataWriter)
    (sections : list perf_file_section) :
  0 <= w_offset w <= writer_size w ->
  writer_size w < 2 ^ 64 ->
  WriteIdSections attrs w = (Done sections, w') ->
  w_offset w <= w_offset w' <= writer_size w'
  /\ writer_size w' = writer_size w
  /\ Forall2
       (fun fa sec =>
          w_offset w <= sec_offset sec
          /\ sec_size sec = 8 * Z.of_nat (length (ids fa))
          /\ sec_offset sec + sec_size sec <= w_offset w'
          /\ drop (Z.to_nat (sec_offset sec))
               (take (Z.to_nat (sec_offset sec + sec_size sec)) (w_buffer w'))
             = flat_map (le_encode 8) (ids fa))
       attrs sections.
Proof.
  revert w sections.
  induction attrs as [|fa rest IH]; intros w sections Hoff Hsize H;
    cbn [WriteIdSections] in H.
  - injection H as <- <-. repeat split; try lia. constructor.
  - inv_get H. inv_bind H as u w1 H1. destruct u.
    apply WriteValues_prefix in H1 as (Hoff1 & Hin1 & Hsize1 & Htake1);
      [|exact Hoff].
    rewrite concat_map_le_encode, concat_le_encode_length in Hoff1.
    rewrite concat_map_le_encode in Htake1.
    inv_bind H as later w2 H2. injection H as <- <-.
    pose proof (preserves_WriteIdSections (length (w_buffer w1))
                  (w_offset w1) (take (Z.to_nat (w_offset w1)) (w_buffer w1))
                  ltac:(lia) rest w1) as Hkeep.
    rewrite H2 in Hkeep. cbn [snd] in Hkeep.
    destruct Hkeep as (Hlen2 & Hpre2 & Hin2);
      [unfold writer_size in *; repeat split; lia|].
    apply IH in H2 as (Hoff2 & Hsize2 & Hrest); [|lia|lia].
    unfold sizeof_id, WriterTell in *.
    rewrite (Z.mul_comm (Z.of_nat (length (ids fa))) 8).
    rewrite u64_small by lia.
    split; [lia|]. split; [lia|]. constructor.
    + cbn [sec_offset sec_size]. split; [lia|]. split; [reflexivity|].
      split; [lia|].
      rewrite <- Hoff1, Hpre2, Htake1.
      apply drop_app_length'. symmetry. apply take_nat_eq.
      unfold writer_size in *. lia.
    + eapply Forall2_impl; [exact Hrest|].
      intros fa' sec' (? & ? & ? & ?). repeat split; try assumption; lia.
Qed.

(** The IDs of the attributes are read back from the ID sections that
    [WriteAttrs] records.  When its first loop has come to its end, each
    section it has noted, read the way [ReadAttr] reads the IDs of an
    attribute, gives the IDs of its attribute, in order.  This is so for
    the buffer as the loop leaves it and for the buffer as later writes
    beyond the cursor leave it. *)
Theorem written_ids_are_read_back (attrs : list PerfFileAttr)
    (w w' : DataWriter) (sections : list perf_file_section) (B : list Z) :
  Forall (fun fa => Forall (fun id => 0 <= id < 2 ^ 64) (ids fa)) attrs ->
  0 <= w_offset w <= writer_size w ->
  writer_size w < 2 ^ 64 ->
  WriteIdSections attrs w = (Done sections, w') ->
  length B = length (w_buffer w') ->
  take (Z.to_nat (w_offset w')) B
  = take (Z.to_nat (w_offset w')) (w_buffer w') ->
  Forall2 (fun fa sec => ids_read_at B sec = Done (ids fa)) attrs sections.
Proof.
  intros Hids Hoff Hsize Hrun HlenB HB.
  apply WriteIdSections_content in Hrun as (Hoff' & Hsize' & Hsecs);
    [|assumption|assumption].
  revert Hids. induction Hsecs as [|fa sec attrs sections Hsec _ IH];
    intros Hids; [constructor|].
  inversion Hids as [|? ? Hfa Hrest]; subst.
  constructor; [|now apply IH].
  destruct Hsec as (Hlo & Hsz & Hhi & Hbytes).
  assert (take (Z.to_nat (sec_offset sec + sec_size sec)) B
          = take (Z.to_nat (sec_offset sec + sec_size sec)) (w_buffer w'))
    as Htake.
  { assert (forall l : list Z,
              take (Z.to_nat (sec_offset sec + sec_size sec)) l
              = take (Z.to_nat (sec_offset sec + sec_size sec))
                  (take (Z.to_nat (w_offset w')) l)) as Hcut
      by (intros l; rewrite take_take, Nat.min_l by lia; reflexivity).
    rewrite (Hcut B), HB, <- Hcut. reflexivity. }
  unfold ids_read_at, sizeof_id.
  assert (Z.to_nat (sec_size sec / 8) = length (ids fa)) as Hn.
  { rewrite Hsz. replace (8 * Z.of_nat (length (ids fa)) / 8)
      with (Z.of_nat (length (ids fa)))
      by (symmetry; rewrite Z.mul_comm; apply Z.div_mul; lia).
    apply Nat2Z.id. }
  rewrite Hn.
  assert (SeekSet (sec_offset sec)
            {| this := new_reader; data := BufferReader B |}
          = (Done tt, {| this := new_reader;
                         data := {| buffer := B; offset := sec_offset sec;
                                    is_cross_endian := false |} |}))
    as Hseek.
  { unfold SeekSet, data_size, writer_size in *.
    cbn [data buffer BufferReader].
    replace ((0 <=? sec_offset sec)
             && (sec_offset sec <=? Z.of_nat (length B))) with true
      by (symmetry; apply andb_true_iff; split; apply Z.leb_le; lia).
    reflexivity. }
  rewrite (bind_step _ _ _ _ _ Hseek).
  rewrite ReadUniqueIDs_ok.
  - cbn [fst]. f_equal. unfold rest_of_input.
    cbn [data buffer offset is_cross_endian].
    rewrite <- (take_drop (Z.to_nat (sec_offset sec + sec_size sec)) B) at 1.
    rewrite drop_app_le by (rewrite length_take; unfold writer_size in *; lia).
    rewrite Htake, Hbytes.
    apply decode_uints_encoded. exact Hfa.
  - cbn. lia.
  - unfold data_size, writer_size in *. cbn [data buffer offset]. lia.
Qed.

End IdSections.

Lemma written_ids_run :
  fst (Reader.WriteIdSections
         [Serializer.example_file_attr false [7; 8];
          Serializer.example_file_attr false [9]]
         {| Reader.w_buffer := repeat 0 200; Reader.w_offset := 104 |})
  = Done [{| Kernel.sec_offset := 104; Kernel.sec_size := 16 |};
          {| Kernel.sec_offset := 120; Kernel.sec_size := 8 |}].
Proof. vm_compute. reflexivity. Qed.

Lemma written_ids_witness :
  let attrs := [Serializer.example_file_attr false [7; 8];
                Serializer.example_file_attr false [9]] in
  let w := {| Reader.w_buffer := repeat 0 200; Reader.w_offset := 104 |} in
  let w' := snd (Reader.WriteIdSections attrs w) in
  Forall2 (fun fa sec =>
             Reader.ids_read_at (Reader.w_buffer w') sec
             = Done (Serializer.ids fa))
    attrs
    [{| Kernel.sec_offset := 104; Kernel.sec_size := 16 |};
     {| Kernel.sec_offset := 120; Kernel.sec_size := 8 |}].
Proof.
  intros attrs w w'.
  apply (written_ids_are_read_back attrs w w').
  - repeat constructor; lia.
  - vm_compute. split; discriminate.
  - vm_compute. reflexivity.
  - subst w' w attrs.
    rewrite (surjective_pairing (Reader.WriteIdSections _ _)) at 1.
    now rewrite written_ids_run.
  - reflexivity.
  - reflexivity.
Defined.
